(** * valgresultat downloader: entity discovery, snapshot monitor, retention

    A shallow embedding of the three Python components

    - [entities_scraper.py]  (class [EntitiesScraper]),
    - [monitor.py]           (class [ElectionMonitor]),
    - [cleanup.py]           (class [DataRetentionManager]),

    followed by the properties stated about them.

    Conventions.  A Python [str] is a list of Unicode code points.  A JSON
    document is the tree [json.load] builds.  The on-disk store is a finite
    map from paths to nodes.  Library functions whose behaviour is fixed by
    tables outside the repository ([str.lower], [str.isalnum],
    [urllib.parse.unquote], [datetime.strptime]) and the outside world (the
    HTTP API, the wall clock) are parameters of the sections that use them. *)

From Stdlib Require Import ZArith NArith List String Ascii Bool Lia Permutation.
From stdpp Require Import base option list gmap sorting.
Import ListNotations.

Set Warnings "-register-all".

Local Open Scope list_scope.

(* ===================================================================== *)
(** * Python strings *)
(* ===================================================================== *)

Module Py.

(** A [str] is a sequence of code points. *)
Abbreviation str := (list N).

(** An ASCII literal as a [str]. *)
Definition lit (s : string) : str := map N_of_ascii (list_ascii_of_string s).

(** [s.startswith(p)] *)
Fixpoint startswith (p s : str) : bool :=
  match p, s with
  | [], _ => true
  | _ :: _, [] => false
  | a :: p', b :: s' => (a =? b)%N && startswith p' s'
  end.

(** [s.endswith(p)] *)
Definition endswith (p s : str) : bool := startswith (rev p) (rev s).

(** [p in s] (substring test) *)
Fixpoint contains (p s : str) : bool :=
  match s with
  | [] => startswith p []
  | _ :: s' => startswith p s || contains p s'
  end.

(** [s.replace(old, new)] for a non-empty [old]: scan from the left, and at
    each position where [old] starts emit [new] and skip over the match.
    [skip] counts the characters of the current match still to be dropped. *)
Fixpoint replace_from (old new : str) (skip : nat) (s : str) : str :=
  match s with
  | [] => []
  | c :: s' =>
      match skip with
      | S k => replace_from old new k s'
      | O => if startswith old s
             then new ++ replace_from old new (length old - 1) s'
             else c :: replace_from old new 0 s'
      end
  end.

Definition replace (old new s : str) : str := replace_from old new 0 s.

(** [s.split(sep)] for a one-character separator. *)
Fixpoint split (sep : N) (s : str) : list str :=
  match s with
  | [] => [[]]
  | c :: s' =>
      if (c =? sep)%N then [] :: split sep s'
      else match split sep s' with
           | w :: ws => (c :: w) :: ws
           | [] => [[c]]
           end
  end.

(** [sep.join(l)] *)
Fixpoint join (sep : str) (l : list str) : str :=
  match l with
  | [] => []
  | w :: ws => match ws with
               | [] => w
               | _ :: _ => w ++ sep ++ join sep ws
               end
  end.

(** [s.lstrip(c)], [s.rstrip(c)], [s.strip(c)] for a one-character set. *)
Fixpoint lstrip (c : N) (s : str) : str :=
  match s with
  | [] => []
  | x :: s' => if (x =? c)%N then lstrip c s' else s
  end.

Definition rstrip (c : N) (s : str) : str := rev (lstrip c (rev s)).

Definition strip (c : N) (s : str) : str := rstrip c (lstrip c s).

(** Comparison of two [str] values: code point by code point, a proper
    prefix sorting first. *)
Fixpoint compare (a b : str) : comparison :=
  match a, b with
  | [], [] => Eq
  | [], _ :: _ => Lt
  | _ :: _, [] => Gt
  | x :: a', y :: b' =>
      match (x ?= y)%N with
      | Eq => compare a' b'
      | c => c
      end
  end.

Definition leb (a b : str) : bool :=
  match compare a b with Gt => false | _ => true end.

(** [sorted(l, key=key)]: a stable sort by a [str] key. *)
Section Sorted.
Context {A : Type} (key : A -> str).

Fixpoint insert_sorted (x : A) (l : list A) : list A :=
  match l with
  | [] => [x]
  | y :: l' => if leb (key x) (key y) then x :: l
               else y :: insert_sorted x l'
  end.

Fixpoint sorted (l : list A) : list A :=
  match l with
  | [] => []
  | x :: l' => insert_sorted x (sorted l')
  end.

(** [x] sorts no later than [y]. *)
Definition key_le (x y : A) : Prop := leb (key x) (key y) = true.

End Sorted.

(** No leading [c]. *)
Definition no_lead (c : N) (s : str) : Prop :=
  match s with
  | [] => True
  | x :: _ => x <> c
  end.

(** [l[i]] raises [IndexError] out of range. *)
Definition index {A} (l : list A) (i : nat) : option A := nth_error l i.

(** [l[-1]] *)
Definition last_item {A} (l : list A) : option A :=
  match rev l with
  | [] => None
  | x :: _ => Some x
  end.

(** [l[:-1]] *)
Definition but_last {A} (l : list A) : list A := removelast l.

(** Decimal digits of a non-negative number, zero-padded to [width]
    ([%02d], [%04d]). *)
Fixpoint digits (width : nat) (n : N) : str :=
  match width with
  | O => []
  | S w => digits w (n / 10) ++ [48 + n mod 10]%N
  end.

(** [str.lower] and [str.isalnum] on the code points below 256, for use
    in examples; other code points are left as they are, and are not
    counted as alphanumeric. *)
Definition is_upper_latin1 (c : N) : bool :=
  ((65 <=? c) && (c <=? 90)
   || (192 <=? c) && (c <=? 222) && negb (c =? 215))%N.

Definition lower_latin1 (s : str) : str :=
  map (fun c => if is_upper_latin1 c then (c + 32)%N else c) s.

Definition isalnum_latin1 (c : N) : bool :=
  ((48 <=? c) && (c <=? 57) || (65 <=? c) && (c <=? 90)
   || (97 <=? c) && (c <=? 122)
   || existsb (N.eqb c) [170; 178; 179; 181; 185; 186; 188; 189; 190]
   || (192 <=? c) && (c <=? 255) && negb (c =? 215) && negb (c =? 247))%N.

(** [s.encode('utf-8')] succeeds: no code point of [s] is a surrogate
    (U+D800 to U+DFFF), for which it raises [UnicodeEncodeError]. *)
Definition is_surrogate (c : N) : bool := ((55296 <=? c) && (c <=? 57343))%N.

Definition utf8_encodable (s : str) : bool :=
  forallb (fun c => negb (is_surrogate c)) s.

(** [str.isdigit] on ASCII strings, for use in examples: a non-empty
    string of the digits 0 to 9. *)
Definition isdigit_ascii (s : str) : bool :=
  negb (bool_decide (s = [])) && forallb (fun c => (48 <=? c) && (c <=? 57))%N s.

End Py.

Abbreviation str := Py.str.
Abbreviation lit := Py.lit.

(* ===================================================================== *)
(** * JSON documents *)
(* ===================================================================== *)

Module Json.

(** The value [json.load] builds.  A number without fraction or exponent is
    an [int], any other a [float]; a [float] is named by its [repr], which
    tells two floats apart exactly when [json.dumps] prints them
    differently.  A dict keeps its items in insertion order. *)
Inductive json : Type :=
  | JNull
  | JBool (b : bool)
  | JInt (z : Z)
  | JFloat (repr : str)
  | JStr (s : str)
  | JList (items : list json)
  | JDict (items : list (str * json)).

(** The output of [json.dumps], token by token.  Separators and the text of
    each literal (escapes, digits) add nothing: two outputs are the same
    text exactly when they are the same tokens. *)
Inductive token : Type :=
  | TNull
  | TBool (b : bool)
  | TInt (z : Z)
  | TFloat (repr : str)
  | TStr (s : str)
  | TLBracket
  | TRBracket
  | TLBrace
  | TRBrace
  | TComma
  | TColon.

#[global] Instance token_eq_dec : EqDecision token.
Proof. solve_decision. Defined.

(** A value starts with a literal or an opening bracket. *)
Definition starts_value (ts : list token) : bool :=
  match ts with
  | (TNull | TBool _ | TInt _ | TFloat _ | TStr _ | TLBracket | TLBrace) :: _ =>
      true
  | _ => false
  end.

(** Chunks of output with a comma between neighbours. *)
Fixpoint commas (chunks : list (list token)) : list token :=
  match chunks with
  | [] => []
  | c :: cs => match cs with
               | [] => c
               | _ :: _ => c ++ TComma :: commas cs
               end
  end.

(** One [key: value] item of a dict, the value already encoded. *)
Definition item_tokens (kv : str * list token) : list token :=
  TStr (fst kv) :: TColon :: snd kv.

(** [json.dumps(j, sort_keys=True)]: the items of every dict are written in
    the order of [sorted(dct.items())], that is by key.  The values are
    encoded before the items are put in order, which gives the same output
    as the encoder's order of work. *)
Fixpoint dumps_sorted (j : json) : list token :=
  match j with
  | JNull => [TNull]
  | JBool b => [TBool b]
  | JInt z => [TInt z]
  | JFloat r => [TFloat r]
  | JStr s => [TStr s]
  | JList items => TLBracket :: commas (map dumps_sorted items) ++ [TRBracket]
  | JDict items =>
      TLBrace ::
      commas (map item_tokens
                (Py.sorted fst
                   (map (fun kv => (fst kv, dumps_sorted (snd kv))) items)))
      ++ [TRBrace]
  end.

(** Truth value of a document, as in [if not data]. *)
Definition truthy (j : json) : bool :=
  match j with
  | JNull => false
  | JBool b => b
  | JInt z => negb (z =? 0)%Z
  | JFloat r => negb (bool_decide (r = lit "0.0") || bool_decide (r = lit "-0.0"))
  | JStr s => negb (bool_decide (s = []))
  | JList items => match items with [] => false | _ :: _ => true end
  | JDict items => match items with [] => false | _ :: _ => true end
  end.

(** No key occurs twice in a dict, at any depth: what every Python dict
    satisfies. *)
Fixpoint well_formed (j : json) : Prop :=
  match j with
  | JList items => fold_right (fun x acc => well_formed x /\ acc) True items
  | JDict items =>
      NoDup (map fst items) /\
      fold_right (fun kv acc => well_formed (snd kv) /\ acc) True items
  | _ => True
  end.

(** Two documents are the same up to the order of the keys of their
    dicts: equal scalars, lists equal item by item, dicts with the same keys
    and the same value under each key. *)
Inductive same_document : json -> json -> Prop :=
  | same_null : same_document JNull JNull
  | same_bool b : same_document (JBool b) (JBool b)
  | same_int z : same_document (JInt z) (JInt z)
  | same_float r : same_document (JFloat r) (JFloat r)
  | same_str s : same_document (JStr s) (JStr s)
  | same_list l1 l2 :
      Forall2 same_document l1 l2 ->
      same_document (JList l1) (JList l2)
  | same_dict d1 d1' d2 :
      Permutation d1 d1' ->
      Forall2 (fun kv1 kv2 => fst kv1 = fst kv2 /\
                              same_document (snd kv1) (snd kv2)) d1' d2 ->
      same_document (JDict d1) (JDict d2).

(** [json.dumps(j)] without [sort_keys]: items in the order of the dict. *)
Fixpoint dumps (j : json) : list token :=
  match j with
  | JNull => [TNull]
  | JBool b => [TBool b]
  | JInt z => [TInt z]
  | JFloat r => [TFloat r]
  | JStr s => [TStr s]
  | JList items => TLBracket :: commas (map dumps items) ++ [TRBracket]
  | JDict items =>
      TLBrace ::
      commas (map (fun kv => TStr (fst kv) :: TColon :: dumps (snd kv)) items)
      ++ [TRBrace]
  end.

(** The document with the items of every dict put in key order. *)
Fixpoint sort_keys (j : json) : json :=
  match j with
  | JList items => JList (map sort_keys items)
  | JDict items =>
      JDict (Py.sorted fst (map (fun kv => (fst kv, sort_keys (snd kv))) items))
  | _ => j
  end.

(** Every string of the document, key or value, can be encoded as UTF-8:
    what [json.dump(j, f, ensure_ascii=False)] needs to write [j] to a file
    opened with [encoding='utf-8'].  With [ensure_ascii=False] a string is
    written with its code points as they are, and [json.load] builds a lone
    surrogate from an escape such as ["\ud800"].  Numbers, [true], [false]
    and [null] are written in ASCII. *)
Fixpoint encodable (j : json) : bool :=
  match j with
  | JStr s => Py.utf8_encodable s
  | JList items => forallb encodable items
  | JDict items =>
      forallb (fun kv => Py.utf8_encodable (fst kv) && encodable (snd kv)) items
  | _ => true
  end.

(** Induction on documents, with the hypothesis for every item of a list
    and every value of a dict. *)
Section Induction.
Variable P : json -> Prop.
Hypothesis Hnull : P JNull.
Hypothesis Hbool : forall b, P (JBool b).
Hypothesis Hint : forall z, P (JInt z).
Hypothesis Hfloat : forall r, P (JFloat r).
Hypothesis Hstr : forall s, P (JStr s).
Hypothesis Hlist : forall items, Forall P items -> P (JList items).
Hypothesis Hdict :
  forall items, Forall (fun kv => P (snd kv)) items -> P (JDict items).

Fixpoint json_induction (j : json) : P j :=
  match j with
  | JNull => Hnull
  | JBool b => Hbool b
  | JInt z => Hint z
  | JFloat r => Hfloat r
  | JStr s => Hstr s
  | JList items =>
      Hlist items
        ((fix all (l : list json) : Forall P l :=
            match l with
            | [] => @List.Forall_nil _ P
            | x :: l' => @List.Forall_cons _ P x l' (json_induction x) (all l')
            end) items)
  | JDict items =>
      Hdict items
        ((fix all (l : list (str * json)) : Forall (fun kv => P (snd kv)) l :=
            match l with
            | [] => @List.Forall_nil _ _
            | (k, v) :: l' =>
                @List.Forall_cons _ (fun kv => P (snd kv)) (k, v) l'
                  (json_induction v) (all l')
            end) items)
  end.
End Induction.

End Json.

Export Json(json).

(* ===================================================================== *)
(** * entities_scraper.py *)
(* ===================================================================== *)

Module Scraper.

(** Code points named in the replacement table of [_normalize_name]. *)
Definition ch_ae : N := 230.      (* U+00E6 *)
Definition ch_oslash : N := 248.  (* U+00F8 *)
Definition ch_aring : N := 229.   (* U+00E5 *)
Definition ch_hyphen : N := 45.

(** The [replacements] dict, in insertion order. *)
Definition replacements : list (str * str) :=
  [ ([ch_ae], lit "ae");
    ([ch_oslash], lit "o");
    ([ch_aring], lit "a");
    (lit " ", lit "-");
    (lit ".", []);
    (lit ",", []);
    (lit "+", lit "-og-") ].

(** [while '--' in name: name = name.replace('--', '-')], unrolled at most
    [fuel] times. *)
Fixpoint collapse_hyphens (fuel : nat) (name : str) : str :=
  match fuel with
  | O => name
  | S f => if Py.contains (lit "--") name
           then collapse_hyphens f (Py.replace (lit "--") (lit "-") name)
           else name
  end.

(** One descriptor of a [_links.related] array.  A key that is missing
    from the descriptor is [None]; [harUnderordnet] is what
    [.get('harUnderordnet', False)] returns. *)
Record link := {
  nr : option str;
  hrefNavn : option str;
  href : option str;
  harUnderordnet : bool
}.

(** The value of [self.entities[year]]. *)
Record year_entities := {
  fylke : list str;
  kommune : list str;
  krets : list str
}.

(** [self.entities]: a dict from year to [year_entities], in insertion
    order. *)
Definition registry : Type := list (str * year_entities).

Definition no_entities : year_entities :=
  {| fylke := []; kommune := []; krets := [] |}.

(** [reg.get(year)] *)
Fixpoint reg_get (year : str) (reg : registry) : option year_entities :=
  match reg with
  | [] => None
  | (y, e) :: reg' => if bool_decide (y = year) then Some e
                      else reg_get year reg'
  end.

(** [reg[year] = e]: replaces the value of an existing key in place, adds a
    new key at the end. *)
Fixpoint reg_set (year : str) (e : year_entities) (reg : registry) : registry :=
  match reg with
  | [] => [(year, e)]
  | (y, e') :: reg' => if bool_decide (y = year) then (y, e) :: reg'
                       else (y, e') :: reg_set year e reg'
  end.

Definition add_fylke (id : str) (e : year_entities) : year_entities :=
  {| fylke := fylke e ++ [id]; kommune := kommune e; krets := krets e |}.
Definition add_kommune (id : str) (e : year_entities) : year_entities :=
  {| fylke := fylke e; kommune := kommune e ++ [id]; krets := krets e |}.
Definition add_krets (id : str) (e : year_entities) : year_entities :=
  {| fylke := fylke e; kommune := kommune e; krets := krets e ++ [id] |}.

(** A loop whose body may raise: the first [None] leaves the loop. *)
Fixpoint for_each {A S : Type} (body : S -> A -> option S) (l : list A) (s : S)
  : option S :=
  match l with
  | [] => Some s
  | x :: l' => match body s x with
               | Some s' => for_each body l' s'
               | None => None
               end
  end.

(** A registry that lists years but no entity. *)
Definition lists_nothing (reg : registry) : Prop :=
  Forall (fun ye => snd ye = no_entities) reg.

Section Discovery.
(** [str.lower] and [str.isalnum] come from the Unicode database,
    [unquote] from [urllib.parse]. *)
Variable lower : str -> str.
Variable isalnum : N -> bool.
Variable unquote : str -> str.

(** [EntitiesScraper._fetch_data], retries included: the [_links.related]
    array of the document at a URL.  [None] is a request that failed five
    times, or a document that is empty and so counts as false in
    [if not ..._data]. *)
Variable fetch : str -> option (list link).

(** [EntitiesScraper._normalize_name].  Every round of the [while] loop
    shortens the name, so [length name] rounds are enough. *)
Definition _normalize_name (name : str) : str :=
  let name := lower name in
  let name := fold_left (fun n r => Py.replace (fst r) (snd r) n)
                        replacements name in
  let name := List.filter (fun c => isalnum c || (c =? ch_hyphen)%N) name in
  let name := collapse_hyphens (length name) name in
  Py.strip ch_hyphen name.

(** The characters that the replacement table rewrites. *)
Definition rewritten : list N := [230; 248; 229; 32; 46; 44; 43]%N.

(** A string is in normal form when [_normalize_name] has nothing to do. *)
Definition slug_like (r : str) : Prop :=
  Forall (fun c => lower [c] = [c]) r /\
  Forall (fun x => ~ In x rewritten) r /\
  Forall (fun c => isalnum c || (c =? ch_hyphen)%N = true) r /\
  Py.contains (lit "--") r = false /\
  Py.strip ch_hyphen r = r.

(** [unquote(d['hrefNavn'].split('/')[-1])], normalised.  [split] never
    returns an empty list, so [[-1]] cannot raise here. *)
Definition slug_of (href_navn : str) : str :=
  _normalize_name (unquote (List.last (Py.split 47 href_navn) [])).

(** [EntitiesScraper._create_fylke_id]; [None] after a [KeyError]. *)
Definition _create_fylke_id (f : link) : option str :=
  match nr f, hrefNavn f with
  | Some n, Some h => Some (lit "fylke-" ++ n ++ lit "-" ++ slug_of h)
  | _, _ => None
  end.

(** [EntitiesScraper._create_kommune_id] *)
Definition _create_kommune_id (f k : link) : option str :=
  match nr f, nr k, hrefNavn k with
  | Some fn, Some kn, Some h =>
      Some (lit "kommune-" ++ fn ++ lit "-" ++ kn ++ lit "-" ++ slug_of h)
  | _, _, _ => None
  end.

(** [EntitiesScraper._create_krets_id] *)
Definition _create_krets_id (f k c : link) : option str :=
  match nr f, nr k, nr c, hrefNavn c with
  | Some fn, Some kn, Some cn, Some h =>
      Some (lit "krets-" ++ fn ++ lit "-" ++ kn ++ lit "-" ++ cn ++ lit "-"
            ++ slug_of h)
  | _, _, _, _ => None
  end.

(** The innermost loop of [scrape_entities] (lines 79-83).  The
    [existing_krets] set always holds exactly the IDs of the list, so the
    test is made on the list.  An ID that was built is never the empty
    string, so [if krets_id and ...] only asks whether one was built. *)
Definition scan_krets (f k : link) (cs : list link) (e : year_entities)
  : year_entities :=
  fold_left (fun e c =>
    match _create_krets_id f k c with
    | Some id => if bool_decide (id ∈ krets e) then e else add_krets id e
    | None => e
    end) cs e.

(** The loop over the municipalities of one county (lines 66-83).
    [kommune['href']] raises [KeyError] when the key is missing; nothing in
    the loop catches it. *)
Definition scan_kommune (base : str) (f : link) (ks : list link)
  (e : year_entities) : option year_entities :=
  for_each (fun e k =>
    match _create_kommune_id f k with
    | Some id =>
        if bool_decide (id ∈ kommune e) then Some e
        else
          let e := add_kommune id e in
          if harUnderordnet k then
            match href k with
            | None => None
            | Some h =>
                match fetch (base ++ h) with
                | None => Some e
                | Some cs => Some (scan_krets f k cs e)
                end
            end
          else Some e
    | None => Some e
    end) ks e.

(** The loop over the counties of one year (lines 54-83). *)
Definition scan_fylke (base : str) (fs : list link) (e : year_entities)
  : option year_entities :=
  for_each (fun e f =>
    match _create_fylke_id f with
    | Some id =>
        if bool_decide (id ∈ fylke e) then Some e
        else
          let e := add_fylke id e in
          match href f with
          | None => None
          | Some h =>
              match fetch (base ++ h) with
              | None => Some e
              | Some ks => scan_kommune base f ks e
              end
          end
    | None => Some e
    end) fs e.

(** The body of the loop over the years (lines 33-83). *)
Definition scan_year (base : str) (reg : registry) (year : str)
  : option registry :=
  let reg := match reg_get year reg with
             | Some _ => reg
             | None => reg_set year no_entities reg
             end in
  let e := default no_entities (reg_get year reg) in
  match fetch (base ++ lit "/" ++ year ++ lit "/st") with
  | None => Some reg
  | Some fs =>
      match scan_fylke base fs e with
      | Some e' => Some (reg_set year e' reg)
      | None => None
      end
  end.

(** [EntitiesScraper.scrape_entities].  [entities] is [self.entities] when
    the method is entered.  An exception anywhere in the loop is caught by
    the handler of line 87, which returns the empty dict. *)
Definition scrape_entities (entities : registry) (api_base_url : str)
  (election_years : list str) : registry :=
  let base := Py.rstrip 47 api_base_url in
  match for_each (scan_year base) election_years entities with
  | Some reg => reg
  | None => []
  end.

(** [EntitiesScraper.__init__]: a new scraper knows no entity. *)
Definition fresh_entities : registry := [].

(** Where the IDs of a year come from.  A county is offered by the national
    document of the year; a municipality by the document of a county listed
    there; a district by the document of such a municipality, if that one
    says it has districts. *)
Definition offered_fylke (base year id : str) : Prop :=
  exists fs f,
    fetch (base ++ lit "/" ++ year ++ lit "/st") = Some fs /\ In f fs /\
    _create_fylke_id f = Some id.

Definition offered_kommune (base year id : str) : Prop :=
  exists fs f h ks k,
    fetch (base ++ lit "/" ++ year ++ lit "/st") = Some fs /\ In f fs /\
    href f = Some h /\ fetch (base ++ h) = Some ks /\ In k ks /\
    _create_kommune_id f k = Some id.

Definition offered_krets (base year id : str) : Prop :=
  exists fs f h ks k h' cs c,
    fetch (base ++ lit "/" ++ year ++ lit "/st") = Some fs /\ In f fs /\
    href f = Some h /\ fetch (base ++ h) = Some ks /\ In k ks /\
    harUnderordnet k = true /\ href k = Some h' /\
    fetch (base ++ h') = Some cs /\ In c cs /\
    _create_krets_id f k c = Some id.

End Discovery.

(** No ID is listed twice. *)
Definition listed_once (e : year_entities) : Prop :=
  List.NoDup (fylke e) /\ List.NoDup (kommune e) /\ List.NoDup (krets e).

(** [e'] is [e] with IDs added at the end of its lists: counties that
    satisfy [Pf], municipalities that satisfy [Pk] and districts that
    satisfy [Pc]; and if [e] lists no ID twice, neither does [e']. *)
Definition grown (Pf Pk Pc : str -> Prop) (e e' : year_entities) : Prop :=
  (exists more, fylke e' = fylke e ++ more /\ Forall Pf more) /\
  (exists more, kommune e' = kommune e ++ more /\ Forall Pk more) /\
  (exists more, krets e' = krets e ++ more /\ Forall Pc more) /\
  (listed_once e -> listed_once e').

(** [e'] lists what [e] lists, in the same order, and maybe more after
    it. *)
Definition extends (e e' : year_entities) : Prop :=
  (exists more, fylke e' = fylke e ++ more) /\
  (exists more, kommune e' = kommune e ++ more) /\
  (exists more, krets e' = krets e ++ more).

End Scraper.

(* ===================================================================== *)
(** * Wall-clock time *)
(* ===================================================================== *)

Module Datetime.

(** A naive [datetime]. *)
Record datetime := {
  dt_year : Z;
  dt_month : Z;
  dt_day : Z;
  dt_hour : Z;
  dt_minute : Z;
  dt_second : Z;
  dt_microsecond : Z
}.

Definition is_leap (y : Z) : bool :=
  ((y mod 4 =? 0) && (negb (y mod 100 =? 0) || (y mod 400 =? 0)))%Z.

Definition days_before_year (y : Z) : Z :=
  ((y - 1) * 365 + (y - 1) / 4 - (y - 1) / 100 + (y - 1) / 400)%Z.

Definition days_before_month (y m : Z) : Z :=
  (nth (Z.to_nat (m - 1)) [0; 31; 59; 90; 120; 151; 181; 212; 243; 273; 304; 334] 0
   + (if (2 <? m) && is_leap y then 1 else 0))%Z.

Definition days_in_month (y m : Z) : Z :=
  (if (m =? 2) && is_leap y then 29
   else nth (Z.to_nat (m - 1)) [31; 28; 31; 30; 31; 30; 31; 31; 30; 31; 30; 31] 0)%Z.

(** [d.toordinal()]: day number in the proleptic Gregorian calendar. *)
Definition toordinal (d : datetime) : Z :=
  (days_before_year (dt_year d) + days_before_month (dt_year d) (dt_month d)
   + dt_day d)%Z.

(** Microseconds on the time line; two datetimes compare as these do. *)
Definition micros (d : datetime) : Z :=
  ((((toordinal d * 24 + dt_hour d) * 60 + dt_minute d) * 60 + dt_second d)
   * 1000000 + dt_microsecond d)%Z.

(** [ts >= now - timedelta(days=n)] *)
Definition within_days (now : datetime) (n : Z) (ts : datetime) : bool :=
  (micros now - n * 86400000000 <=? micros ts)%Z.

(** [d.strftime("%Y-%m-%d__%H%M")] *)
Definition strftime (d : datetime) : str :=
  Py.digits 4 (Z.to_N (dt_year d)) ++ lit "-" ++
  Py.digits 2 (Z.to_N (dt_month d)) ++ lit "-" ++
  Py.digits 2 (Z.to_N (dt_day d)) ++ lit "__" ++
  Py.digits 2 (Z.to_N (dt_hour d)) ++ Py.digits 2 (Z.to_N (dt_minute d)).

(** The number written with the decimal digits [s]; [None] when a character
    is not a digit. *)
Fixpoint number (acc : Z) (s : str) : option Z :=
  match s with
  | [] => Some acc
  | c :: s' => if (48 <=? c)%N && (c <=? 57)%N
               then number (acc * 10 + Z.of_N (c - 48)) s'
               else None
  end.

(** [datetime.strptime(s, "%Y-%m-%d__%H%M")] on names of the fixed width
    that [strftime] writes (four, two, two, two and two digits); [None] is
    [ValueError]. *)
Definition strptime_fixed (s : str) : option datetime :=
  match s with
  | [y1; y2; y3; y4; 45; m1; m2; 45; d1; d2; 95; 95; h1; h2; n1; n2]%N =>
      match number 0 [y1; y2; y3; y4], number 0 [m1; m2], number 0 [d1; d2],
            number 0 [h1; h2], number 0 [n1; n2] with
      | Some y, Some m, Some d, Some h, Some n =>
          if ((1 <=? y) && (1 <=? m) && (m <=? 12) && (1 <=? d)
              && (d <=? days_in_month y m) && (h <=? 23) && (n <=? 59))%Z
          then Some {| dt_year := y; dt_month := m; dt_day := d; dt_hour := h;
                       dt_minute := n; dt_second := 0; dt_microsecond := 0 |}
          else None
      | _, _, _, _, _ => None
      end
  | _ => None
  end.

(** Two datetimes compared up to the minute, field by field as Python
    compares them. *)
Definition minute_fields (d : datetime) : list Z :=
  [dt_year d; dt_month d; dt_day d; dt_hour d; dt_minute d].

Fixpoint compare_fields (a b : list Z) : comparison :=
  match a, b with
  | x :: a', y :: b' => match (x ?= y)%Z with
                        | Eq => compare_fields a' b'
                        | c => c
                        end
  | _, _ => Eq
  end.

Definition compare_minutes (d1 d2 : datetime) : comparison :=
  compare_fields (minute_fields d1) (minute_fields d2).

(** The datetimes that [strftime] writes in full width: a year of four
    digits, and the other fields in their ranges. *)
Definition full_width (d : datetime) : Prop :=
  (1000 <= dt_year d <= 9999 /\ 1 <= dt_month d <= 12 /\ 1 <= dt_day d <= 31 /\
   0 <= dt_hour d <= 23 /\ 0 <= dt_minute d <= 59)%Z.

End Datetime.

Export Datetime(datetime).

(* ===================================================================== *)
(** * The on-disk store *)
(* ===================================================================== *)

Module Store.

(** A path below the data directory, component by component; [[]] is the
    data directory itself. *)
Abbreviation path := (list str).

(** What lies at a path: a regular file holding a JSON document, a regular
    file holding none ([json.load] raises on it), as [json.dump] leaves it
    with the beginning of a document when it raises, a symbolic link with a
    relative target, or a directory. *)
Inductive node : Type :=
  | File (doc : json)
  | Broken
  | Symlink (target : path)
  | Dir.

Abbreviation store := (gmap path node).

(** [p.parent], [p.name] *)
Definition parent (p : path) : path := removelast p.
Definition name (p : path) : str := List.last p [].

(** [p.stem]: the name without its last suffix. *)
Definition stem (p : path) : str :=
  let n := name p in
  if Py.endswith (lit ".json") n && (5 <? length n)
  then firstn (length n - 5) n
  else n.

(** The path a name stands for once the symbolic links at its last
    component are followed; [None] after more links than the system
    follows.  Links are relative to the directory that holds them. *)
Fixpoint resolve (fuel : nat) (s : store) (p : path) : option path :=
  match fuel with
  | O => None
  | S f => match s !! p with
           | Some (Symlink t) => resolve f s (parent p ++ t)
           | _ => Some p
           end
  end.

Definition max_links : nat := 40.

(** [p.exists()], [p.is_dir()], [p.is_symlink()] *)
Definition exists_ (s : store) (p : path) : bool :=
  match resolve max_links s p with
  | Some q => bool_decide (is_Some (s !! q))
  | None => false
  end.

Definition is_dir (s : store) (p : path) : bool :=
  match resolve max_links s p with
  | Some q => match s !! q with Some Dir => true | _ => false end
  | None => false
  end.

Definition is_symlink (s : store) (p : path) : bool :=
  match s !! p with Some (Symlink _) => true | _ => false end.

(** [dir.glob(pattern)] for a pattern without a slash: the entries of [dir]
    whose name matches. *)
Definition glob (s : store) (dir : path) (matches : str -> bool) : list path :=
  if is_dir s dir
  then List.filter
         (fun p => negb (bool_decide (p = [])) && bool_decide (parent p = dir)
                   && matches (name p))
         (map fst (map_to_list s))
  else [].

(** [p.unlink()]: removes a file or a link; [None] when there is nothing at
    [p] or a directory. *)
Definition unlink (s : store) (p : path) : option store :=
  match s !! p with
  | Some Dir | None => None
  | Some _ => Some (delete p s)
  end.

(** [with open(p, 'w', encoding='utf-8') as f: json.dump(doc, f,
    ensure_ascii=False, indent=2)]: the store it leaves, and [None] when it
    raises.  [open] raises, and nothing changes, when the place is a
    directory or its directory does not exist; otherwise it creates or
    empties the file, through a link if [p] is one.  [json.dump] then writes
    the text piece by piece and raises [UnicodeEncodeError] at the first
    string that cannot be encoded; the file is closed with the pieces
    written before it, which never are a whole document. *)
Definition write_json (s : store) (p : path) (doc : json)
  : store * option unit :=
  match resolve max_links s p with
  | Some q =>
      match s !! q with
      | Some Dir => (s, None)
      | _ => if is_dir s (parent q)
             then if Json.encodable doc
                  then (<[q := File doc]> s, Some tt)
                  else (<[q := Broken]> s, None)
             else (s, None)
      end
  | None => (s, None)
  end.

(** [json.load(open(p))]; [None] when it raises: nothing is at [p], or a
    directory, or a file that holds no whole document. *)
Definition read_json (s : store) (p : path) : option json :=
  match resolve max_links s p with
  | Some q => match s !! q with Some (File d) => Some d | _ => None end
  | None => None
  end.

(** [p.symlink_to(target)]: [None] when something is at [p] already. *)
Definition symlink_to (s : store) (p target : path) : option store :=
  match s !! p with
  | Some _ => None
  | None => if is_dir s (parent p) then Some (<[p := Symlink target]> s)
            else None
  end.

(** One step of [mkdir(parents=True, exist_ok=True)]. *)
Definition mkdir1 (s : store) (p : path) : option store :=
  match s !! p with
  | None => Some (<[p := Dir]> s)
  | Some _ => if is_dir s p then Some s else None
  end.

(** The prefixes of a path, shortest first, the path itself last. *)
Fixpoint prefixes (p : path) : list path :=
  match p with
  | [] => [[]]
  | c :: p' => [] :: map (cons c) (prefixes p')
  end.

(** [p.mkdir(parents=True, exist_ok=True)] *)
Definition mkdir_p (s : store) (p : path) : option store :=
  fold_left (fun acc q => match acc with
                          | Some s' => mkdir1 s' q
                          | None => None
                          end) (prefixes p) (Some s).

(** A computation on a state [S] that returns an [A] or raises: the state
    reached is kept in both cases, and [None] is a raised exception. *)
Definition io (S A : Type) : Type := S -> S * option A.

#[global] Instance io_ret {S} : MRet (io S) := fun A x s => (s, Some x).

#[global] Instance io_bind {S} : MBind (io S) := fun A B f m s =>
  match m s with
  | (s', Some x) => f x s'
  | (s', None) => (s', None)
  end.

(** A loop over a list, left when the body raises. *)
Fixpoint for_ {S A : Type} (l : list A) (body : A -> io S unit) : io S unit :=
  match l with
  | [] => mret tt
  | x :: l' => body x ;; for_ l' body
  end.

End Store.

Export Store(node, io).
Abbreviation path := Store.path.

(* ===================================================================== *)
(** * Requests to the API *)
(* ===================================================================== *)

Module Http.
Import Json Store.

(** How [requests.get(url, timeout=30)], [raise_for_status()] and
    [response.json()] end together: with the decoded document, with a
    [requests.RequestException], or with an exception of another class. *)
Inductive outcome : Type :=
  | Answer (doc : json)
  | RequestException
  | OtherException.

(** What the program has done on the network: the addresses it has asked
    for and the seconds it has slept between attempts, oldest first. *)
Record net := {
  sent : list str;
  slept : list Z
}.

Definition max_retries : nat := 5.
Definition retry_delay : Z := 1.

Section Client.
(** [respond url k]: how the request number [k] of the run, counted from
    0, ends when it asks for [url]. *)
Variable respond : str -> nat -> outcome.

Definition get (url : str) (w : net) : net * outcome :=
  ({| sent := sent w ++ [url]; slept := slept w |},
   respond url (length (sent w))).

(** [time.sleep(seconds)] *)
Definition sleep (seconds : Z) : io net unit :=
  fun w => ({| sent := sent w; slept := slept w ++ [seconds] |}, Some tt).

(** The loop [for attempt in range(max_retries)] of [_fetch_data], from
    [attempt] on, [todo] rounds being left.  The inner [option] is the
    value returned, [None] or a document; a function that leaves the loop at
    its end returns [None].  An exception that is not a [RequestException]
    is not caught. *)
Fixpoint attempts (url : str) (attempt todo : nat) : io net (option json) :=
  match todo with
  | O => mret (None : option json)
  | S todo' => fun w =>
      match get url w with
      | (w', Answer doc) => (w', Some (Some doc))
      | (w', OtherException) => (w', None)
      | (w', RequestException) =>
          if (attempt =? max_retries - 1)%nat then (w', Some None)
          else (sleep (retry_delay * 2 ^ Z.of_nat attempt) ;;
                attempts url (S attempt) todo') w'
      end
  end.

(** [EntitiesScraper._fetch_data] *)
Definition _fetch_data (url : str) : io net (option json) :=
  attempts url 0 max_retries.

End Client.

(** What [_fetch_data] does with a series of outcomes: the first that is
    not a [RequestException] decides, and when there is none the value is
    [None]. *)
Fixpoint settle (outcomes : list outcome) : option (option json) :=
  match outcomes with
  | [] => Some None
  | Answer doc :: _ => Some (Some doc)
  | OtherException :: _ => None
  | RequestException :: rest => settle rest
  end.

(** The requests made before the matter is settled. *)
Fixpoint requests_made (outcomes : list outcome) : nat :=
  match outcomes with
  | [] => 0
  | RequestException :: rest => S (requests_made rest)
  | _ :: _ => 1
  end.

End Http.

(* ===================================================================== *)
(** * monitor.py *)
(* ===================================================================== *)

Module Monitor.
Import Json Datetime Store.
Export Scraper(registry, year_entities).

(** The four values of [entity_type]. *)
Inductive tier : Type := Nasjonalt | Fylke | Kommune | Krets.

#[global] Instance tier_eq_dec : EqDecision tier.
Proof. solve_decision. Defined.

Definition tier_name (t : tier) : str :=
  match t with
  | Nasjonalt => lit "nasjonalt"
  | Fylke => lit "fylke"
  | Kommune => lit "kommune"
  | Krets => lit "krets"
  end.

(** [self.schedules]: polling intervals in seconds. *)
Definition schedules (t : tier) : Z :=
  match t with
  | Nasjonalt => 300
  | Fylke => 600
  | Kommune => 900
  | Krets => 3600
  end.

(** What [entities.json] holds when the monitor starts. *)
Inductive config_file : Type :=
  | NoFile
  | InvalidJson
  | Stored (reg : registry).

Section LoadEntities.
Variable lower : str -> str.
Variable isalnum : N -> bool.
Variable unquote : str -> str.
Variable fetch : str -> option (list Scraper.link).

(** [ElectionMonitor._load_entities]: the registry it returns, and the file
    it leaves behind.  The scraper is created on line 65 and so starts from
    [Scraper.fresh_entities]; [if scraped_entities] is false for the empty
    dict only. *)
Definition _load_entities (api_base_url : str) (election_years : list str)
  (file : config_file) : registry * config_file :=
  let existing_entities := match file with
                           | Stored reg => reg
                           | NoFile | InvalidJson => []
                           end in
  let scraped_entities :=
    Scraper.scrape_entities lower isalnum unquote fetch
      Scraper.fresh_entities api_base_url election_years in
  match scraped_entities with
  | _ :: _ => (scraped_entities, Stored scraped_entities)
  | [] => (existing_entities, file)
  end.
End LoadEntities.

(** [components] of [process_entity] (lines 151-152). *)
Definition components (entity_id : str) : list str :=
  let base_id := Py.join (lit "-") (Py.but_last (Py.split 45 entity_id)) in
  Py.split 45 base_id.

(** The endpoint that [process_entity] asks for (lines 146-168); [None] is
    the [IndexError] of a missing component. *)
Definition entity_url (t : tier) (entity_id year : str) : option str :=
  match t with
  | Nasjonalt => Some (lit "/" ++ year ++ lit "/st")
  | Fylke =>
      f ← Py.index (components entity_id) 1;
      Some (lit "/" ++ year ++ lit "/st/" ++ f)
  | Kommune =>
      f ← Py.index (components entity_id) 1;
      k ← Py.index (components entity_id) 2;
      Some (lit "/" ++ year ++ lit "/st/" ++ f ++ lit "/" ++ k)
  | Krets =>
      f ← Py.index (components entity_id) 1;
      k ← Py.index (components entity_id) 2;
      c ← Py.index (components entity_id) 3;
      Some (lit "/" ++ year ++ lit "/st/" ++ f ++ lit "/" ++ k ++ lit "/" ++ c)
  end.

(** [entity_path] of [process_entity] (lines 148 and 169), below
    [self.data_path]. *)
Definition entity_path (t : tier) (entity_id year : str) : path :=
  match t with
  | Nasjonalt => [year; tier_name t; lit "norge"]
  | _ => [year; tier_name t; entity_id]
  end.

(** [entity_path.parent / f"{entity_path.name}.json"] *)
Definition latest_link (entity_path : path) : path :=
  parent entity_path ++ [name entity_path ++ lit ".json"].

(** [ElectionMonitor._has_meaningful_changes].  [clean_data] returns its
    argument on its first line. *)
Definition clean_data (data : json) : json := data.

Definition _has_meaningful_changes (old_data new_data : json) : bool :=
  negb (bool_decide (dumps_sorted (clean_data old_data)
                     = dumps_sorted (clean_data new_data))).

(** Lifting of the store operations: a failed operation raises. *)
Definition attempt (f : Store.store -> option Store.store) : io Store.store unit :=
  fun s => match f s with
           | Some s' => (s', Some tt)
           | None => (s, None)
           end.

Definition inspect {A} (f : Store.store -> A) : io Store.store A :=
  fun s => (s, Some (f s)).

Definition load (p : path) : io Store.store json :=
  fun s => (s, read_json s p).

Definition dump (data : json) (p : path) : io Store.store unit :=
  fun s => write_json s p data.

(** [ElectionMonitor._save_snapshot] *)
Definition _save_snapshot (data : json) (entity_path : path) (timestamp : str)
  : io Store.store unit :=
  attempt (fun s => mkdir_p s entity_path) ;;
  let snapshot_path := entity_path ++ [timestamp ++ lit ".json"] in
  dump data snapshot_path ;;
  let symlink_path := latest_link entity_path in
  there ← inspect (fun s => exists_ s symlink_path);
  (if there : bool then attempt (fun s => unlink s symlink_path) else mret tt) ;;
  attempt (fun s => symlink_to s symlink_path
                      [name entity_path; timestamp ++ lit ".json"]).

(** [ElectionMonitor.process_entity].  [fetch] is what [_fetch_data]
    returns for an address at this call, and [now] what [datetime.now()]
    returns. *)
Definition process_entity (api_base_url : str) (fetch : str -> option json)
  (now : datetime) (t : tier) (entity_id year : str) : io Store.store unit :=
  match entity_url t entity_id year with
  | None => fun s => (s, None)
  | Some url =>
      let entity_path := entity_path t entity_id year in
      match fetch (api_base_url ++ url) with
      | None => mret tt
      | Some data =>
          if negb (truthy data) then mret tt
          else
            let timestamp := strftime now in
            let latest_link := latest_link entity_path in
            linked ← inspect (fun s => exists_ s latest_link
                                       && is_symlink s latest_link);
            if linked : bool then
              previous_data ← load latest_link;
              if _has_meaningful_changes previous_data data
              then _save_snapshot data entity_path timestamp
              else mret tt
            else _save_snapshot data entity_path timestamp
      end
  end.

(** A series of calls of [process_entity] for one entity; each event is the
    document that the request returned and the time of the call. *)
Definition process_all (api_base_url : str) (t : tier) (entity_id year : str)
  (events : list (json * datetime)) : io Store.store unit :=
  for_ events (fun e =>
    process_entity api_base_url (fun _ => Some (fst e)) (snd e) t entity_id year).

(** The file that holds the snapshot of an event. *)
Definition file_name (e : json * datetime) : str :=
  strftime (snd e) ++ lit ".json".

(** An entity that has never been saved: its directory can be made, holds
    nothing, and no pointer exists. *)
Definition fresh (s : store) (ep : path) : Prop :=
  (forall q, In q (prefixes ep) -> s !! q = None \/ s !! q = Some Dir) /\
  (forall x, s !! (ep ++ [x]) = None) /\
  s !! latest_link ep = None.

(** Every document of a series is a non-empty answer that differs from the
    one before it. *)
Fixpoint all_changes (previous : option json) (docs : list json) : Prop :=
  match docs with
  | [] => True
  | d :: ds =>
      truthy d = true /\
      match previous with
      | Some p => _has_meaningful_changes p d = true
      | None => True
      end /\
      all_changes (Some d) ds
  end.

(** One file for each event, holding what was fetched, and the pointer on
    the file of the last event. *)
Definition append_only (s : store) (ep : path)
  (events : list (json * datetime)) : Prop :=
  length (glob s ep (fun _ => true)) = length events /\
  (forall e, In e events -> s !! (ep ++ [file_name e]) = Some (File (fst e))) /\
  (forall e, Py.last_item events = Some e ->
     s !! latest_link ep = Some (Symlink [name ep; file_name e])).

(** The state of one entity after the events [done] have been saved. *)
Definition saved (s : store) (ep : path) (done : list (json * datetime)) : Prop :=
  (forall q, In q (prefixes ep) -> s !! q = None \/ s !! q = Some Dir) /\
  (done <> [] -> forall q, In q (prefixes ep) -> s !! q = Some Dir) /\
  (forall e, In e done -> s !! (ep ++ [file_name e]) = Some (File (fst e))) /\
  (forall x, ~ In x (map file_name done) -> s !! (ep ++ [x]) = None) /\
  s !! latest_link ep = match Py.last_item done with
                        | Some e => Some (Symlink [name ep; file_name e])
                        | None => None
                        end.

(** [last_run]: the time each tier was processed last, if ever. *)
Definition last_run : Type := tier -> option Z.

Definition no_run : last_run := fun _ => None.

Definition ran (t : tier) (time : Z) (lr : last_run) : last_run :=
  fun t' => if bool_decide (t' = t) then Some time else lr t'.

(** A tier is due when its interval has passed since it was last
    processed. *)
Definition due (current_time : Z) (lr : last_run) (t : tier) : bool :=
  (schedules t <=? current_time - default 0%Z (lr t))%Z.

(** One call [process_entity(entity_type, entity_id, year)]. *)
Definition call : Type := tier * str * str.

(** One of the four [if] blocks of the loop body (lines 201-221): the calls
    it makes and the [last_run] it leaves. *)
Definition poll (current_time : Z) (t : tier) (ids : list str) (year : str)
  (lr : last_run) : list call * last_run :=
  if due current_time lr t
  then (map (fun id => (t, id, year)) ids, ran t current_time lr)
  else ([], lr).

(** The body of [for year in self.election_years] (lines 198-221). *)
Definition run_year (entities : registry) (current_time : Z)
  (acc : list call * last_run) (year : str) : list call * last_run :=
  let year_config := default Scraper.no_entities (Scraper.reg_get year entities) in
  let '(c0, lr) := acc in
  let '(c1, lr) := poll current_time Nasjonalt [lit "norge"] year lr in
  let '(c2, lr) := poll current_time Fylke (Scraper.fylke year_config) year lr in
  let '(c3, lr) := poll current_time Kommune (Scraper.kommune year_config) year lr in
  let '(c4, lr) := poll current_time Krets (Scraper.krets year_config) year lr in
  (c0 ++ c1 ++ c2 ++ c3 ++ c4, lr).

(** One round of [while True] (lines 195-221), with [current_time] in
    seconds: the calls made, in order, when each of them returns, and the
    [last_run] the next round starts from. *)
Definition run_round (entities : registry) (election_years : list str)
  (current_time : Z) (lr : last_run) : list call * last_run :=
  fold_left (run_year entities current_time) election_years ([], lr).

(** The rounds of [while True] for which [times] gives what [time.time()]
    returns, starting from [lr]: the time and the calls of each round. *)
Fixpoint rounds (entities : registry) (election_years : list str)
  (times : list Z) (lr : last_run) : list (Z * list call) :=
  match times with
  | [] => []
  | current_time :: times' =>
      let r := run_round entities election_years current_time lr in
      (current_time, fst r) :: rounds entities election_years times' (snd r)
  end.

(** [ElectionMonitor.run], followed for as many rounds as [times] is long;
    [last_run] is empty when the loop is entered. *)
Definition run (entities : registry) (election_years : list str)
  (times : list Z) : list (Z * list call) :=
  rounds entities election_years times no_run.

(** The calls that [run_year] makes for a tier when it is due. *)
Definition calls_of (entities : registry) (year : str) (t : tier) : list call :=
  let year_config := default Scraper.no_entities (Scraper.reg_get year entities) in
  map (fun id => (t, id, year))
    match t with
    | Nasjonalt => [lit "norge"]
    | Fylke => Scraper.fylke year_config
    | Kommune => Scraper.kommune year_config
    | Krets => Scraper.krets year_config
    end.

(** [ElectionMonitor._fetch_data]: the loop of the scraper, on the address
    [f"{self.api_base_url}{url}"]. *)
Definition _fetch_data (respond : str -> nat -> Http.outcome)
  (api_base_url url : str) : io Http.net (option json) :=
  Http.attempts respond (api_base_url ++ url) 0 Http.max_retries.

(** The directories of a year that [_init_directories] makes (line 83). *)
Definition entity_types : list path :=
  [[lit "nasjonalt"; lit "norge"]; [lit "fylke"]; [lit "kommune"];
   [lit "kommune"; lit "krets"]].

(** [ElectionMonitor._init_directories] *)
Definition _init_directories (election_years : list str) : io Store.store unit :=
  for_ election_years (fun year =>
    let year_path := [year] in
    for_ entity_types (fun entity_type =>
      attempt (fun s => mkdir_p s (year_path ++ entity_type)))).

(** Nothing but directories stands where [_init_directories] is to make
    them. *)
Definition clear_for (election_years : list str) (s : store) : Prop :=
  forall year entity_type q,
    In year election_years -> In entity_type entity_types ->
    In q (prefixes ([year] ++ entity_type)) ->
    s !! q = None \/ s !! q = Some Dir.

(** What a series of [mkdir] calls leaves of [s]: the directories [P] are
    there, and nothing else has changed. *)
Definition made (P : path -> Prop) (s s' : store) : Prop :=
  (forall q, P q -> s' !! q = Some Dir) /\
  (forall q, s' !! q = s !! q \/ (s !! q = None /\ s' !! q = Some Dir /\ P q)).

(** The directory of an entity as [process_entity] keeps it: above it there
    are directories only, in it regular files only (no directory and no
    link), and the pointer, if it exists, is a link to one of these files
    that holds a document. *)
Definition tracked (s : store) (ep : path) : Prop :=
  (forall q, In q (prefixes ep) -> s !! q = None \/ s !! q = Some Dir) /\
  (forall x, s !! (ep ++ [x]) <> Some Dir /\
             forall target, s !! (ep ++ [x]) <> Some (Symlink target)) /\
  (s !! latest_link ep = None \/
   exists x d, s !! latest_link ep = Some (Symlink [name ep; x]) /\
               s !! (ep ++ [x]) = Some (File d)).

End Monitor.

Export Monitor(tier).

(* ===================================================================== *)
(** * cleanup.py *)
(* ===================================================================== *)

Module Cleanup.
Import Json Datetime Store.
Import Monitor(tier, Nasjonalt, Fylke, Kommune, Krets).

(** A value of [self.retention_periods]: a number of days, ['all'] or
    ['latest']. *)
Inductive retention : Type :=
  | Days (n : Z)
  | All
  | Latest.

(** [self.retention_periods['election_active' if is_active else
    'election_inactive'][entity_type]] *)
Definition retention_periods (is_active : bool) (t : tier) : retention :=
  if is_active then
    match t with
    | Nasjonalt => Days 365
    | Fylke => Days 180
    | Kommune => Days 90
    | Krets => Days 30
    end
  else
    match t with
    | Nasjonalt => All
    | Fylke | Kommune | Krets => Latest
    end.

(** [DataRetentionManager.is_election_active] *)
Definition is_election_active (timestamp : datetime) : bool :=
  bool_decide (dt_month timestamp ∈ [9; 10]%Z).

(** [DataRetentionManager.get_snapshots] *)
Definition get_snapshots (s : Store.store) (entity_path : path) : list path :=
  if negb (exists_ s entity_path) then []
  else
    Py.sorted name
      (List.filter
         (fun f => negb (bool_decide (name f = name entity_path ++ lit ".json")))
         (glob s entity_path (Py.endswith (lit ".json")))).

(** The state of a sweep: the store, and how many times the clock has been
    read. *)
Record world := {
  files : Store.store;
  ticks : nat
}.

(** A step of the sweep that leaves every file where it is, except that it
    may remove those at the paths [Q]. *)
Definition touches_only {A} (Q : path -> Prop) (m : io world A) : Prop :=
  forall w p, files (fst (m w)) !! p = files w !! p \/
              (Q p /\ files (fst (m w)) !! p = None).

(** [s] is what is left of [s0] after files were removed, the one at [p]
    not among them. *)
Definition left_with (s0 s : Store.store) (p : path) : Prop :=
  (forall q, is_Some (s !! q) -> is_Some (s0 !! q)) /\ s !! p = s0 !! p.

(** A step of the sweep under which a property of the store is kept. *)
Definition preserves {A : Type} (I : Store.store -> Prop) (m : io world A)
  : Prop :=
  forall w, I (files w) -> I (files (fst (m w))).

Section Sweep.
(** [clock k] is what the [k]-th call of [datetime.now()] returns. *)
Variable clock : nat -> datetime.

(** [datetime.strptime(_, "%Y-%m-%d__%H%M")]; [None] is [ValueError]. *)
Variable strptime : str -> option datetime.

(** [str.isdigit] *)
Variable isdigit : str -> bool.

(** [datetime.now()] *)
Definition now : io world datetime :=
  fun w => ({| files := files w; ticks := S (ticks w) |}, Some (clock (ticks w))).

Definition observe {A} (f : Store.store -> A) : io world A :=
  fun w => (w, Some (f (files w))).

(** [snapshot.unlink()] *)
Definition remove (p : path) : io world unit :=
  fun w => match unlink (files w) p with
           | Some s' => ({| files := s'; ticks := ticks w |}, Some tt)
           | None => (w, None)
           end.

(** [DataRetentionManager.should_retain_snapshot] *)
Definition should_retain_snapshot (snapshot : path) (t : tier)
  (is_active : bool) : io world bool :=
  match strptime (stem snapshot) with
  | None => mret true
  | Some timestamp =>
      match retention_periods is_active t with
      | All => mret true
      | Latest => mret true
      | Days n =>
          current ← now;
          mret (within_days current n timestamp)
      end
  end.

(** The loop of [cleanup_entity] (lines 83-86) over the snapshots [l]. *)
Definition prune (t : tier) (is_active : bool) (l : list path) : io world unit :=
  for_ l (fun snapshot =>
    keep ← should_retain_snapshot snapshot t is_active;
    if keep : bool then mret tt else remove snapshot).

(** [DataRetentionManager.cleanup_entity] *)
Definition cleanup_entity (entity_path : path) (t : tier) : io world unit :=
  snapshots ← observe (fun s => get_snapshots s entity_path);
  match Py.last_item snapshots with
  | None => mret tt
  | Some latest =>
      current ← now;
      let is_active := is_election_active current in
      prune t is_active (Py.but_last snapshots)
  end.

(** The three loops of [cleanup_year] have one shape: every directory of
    [dir] whose name starts with [prefix] is cleaned. *)
Definition cleanup_dirs (dir : path) (prefix : str) (t : tier) : io world unit :=
  found ← observe (fun s => glob s dir (Py.startswith prefix));
  for_ found (fun d =>
    isd ← observe (fun s => is_dir s d);
    if isd : bool then cleanup_entity d t else mret tt).

(** [DataRetentionManager.cleanup_year] *)
Definition cleanup_year (year : str) : io world unit :=
  let year_path := [year] in
  there ← observe (fun s => exists_ s year_path);
  if there : bool then
    cleanup_entity (year_path ++ [lit "nasjonalt"; lit "norge"]) Nasjonalt ;;
    cleanup_dirs (year_path ++ [lit "fylke"]) (lit "fylke-") Fylke ;;
    cleanup_dirs (year_path ++ [lit "kommune"]) (lit "kommune-") Kommune ;;
    cleanup_dirs (year_path ++ [lit "kommune"; lit "krets"]) (lit "krets-") Krets
  else mret tt.

(** [DataRetentionManager.run] *)
Definition run : io world unit :=
  found ← observe (fun s => glob s [] (fun _ => true));
  for_ found (fun year_dir =>
    isd ← observe (fun s => is_dir s year_dir);
    if (isd : bool) && isdigit (name year_dir)
    then cleanup_year (name year_dir)
    else mret tt).

End Sweep.

(** The directories that [cleanup_year] hands to [cleanup_entity]. *)
Definition entity_dirs (year : str) (d : path) : Prop :=
  d = [year; lit "nasjonalt"; lit "norge"] \/
  exists x, d = [year; lit "fylke"; x] \/ d = [year; lit "kommune"; x] \/
            d = [year; lit "kommune"; lit "krets"; x].

(** [p] is named as a snapshot of the entity directory [d]: an entry of
    [d] whose name ends in [.json] and is not [d]'s own name with that
    suffix. *)
Definition snapshot_of (d p : path) : Prop :=
  p <> [] /\ parent p = d /\ Py.endswith (lit ".json") (name p) = true /\
  name p <> name d ++ lit ".json".

(** The paths that a sweep of one year can reach. *)
Definition swept (year : str) (p : path) : Prop :=
  p <> [] /\
  (parent p = [year; lit "nasjonalt"; lit "norge"] \/
   exists d, parent p = [year; lit "fylke"; d] \/
             parent p = [year; lit "kommune"; d] \/
             parent p = [year; lit "kommune"; lit "krets"; d]).

End Cleanup.

(* ===================================================================== *)
(** * Example data *)
(* ===================================================================== *)

Module Examples.
Import Json Store Monitor.

(** The registry of the two examples below: Oslo is known for 2021. *)
Definition stored_registry : Scraper.registry :=
  [(lit "2021", {| Scraper.fylke := [lit "fylke-03-oslo"];
                   Scraper.kommune := [lit "kommune-03-0301-oslo"];
                   Scraper.krets := [] |})].

(** The API of the first example: it knows the county Vestland and, in it,
    the municipality Bergen, which has no districts. *)
Definition api_vestland (url : str) : option (list Scraper.link) :=
  if bool_decide (url = lit "https://valgresultat.no/api/2021/st")
  then Some [{| Scraper.nr := Some (lit "46");
                Scraper.hrefNavn := Some (lit "/2021/st/Vestland");
                Scraper.href := Some (lit "/2021/st/46");
                Scraper.harUnderordnet := true |}]
  else if bool_decide (url = lit "https://valgresultat.no/api/2021/st/46")
  then Some [{| Scraper.nr := Some (lit "4601");
                Scraper.hrefNavn := Some (lit "/2021/st/Vestland/Bergen");
                Scraper.href := Some (lit "/2021/st/46/4601");
                Scraper.harUnderordnet := false |}]
  else None.

(** The registry of the example below: one county in each of two years. *)
Definition two_year_registry : Scraper.registry :=
  [(lit "2021", {| Scraper.fylke := [lit "fylke-03-oslo"];
                   Scraper.kommune := []; Scraper.krets := [] |});
   (lit "2025", {| Scraper.fylke := [lit "fylke-03-oslo"];
                   Scraper.kommune := []; Scraper.krets := [] |})].

(** A time, to the minute. *)
Definition at_ (y m d h n : Z) : datetime :=
  {| Datetime.dt_year := y; Datetime.dt_month := m; Datetime.dt_day := d;
     Datetime.dt_hour := h; Datetime.dt_minute := n;
     Datetime.dt_second := 0; Datetime.dt_microsecond := 0 |}.

(** A payload: a count of votes. *)
Definition votes (n : Z) : json := Json.JDict [(lit "stemmer", Json.JInt n)].

(** Five fetches on election night 2021, each with a new count. *)
Definition election_night : list (json * datetime) :=
  [(votes 10, at_ 2021 9 13 21 0); (votes 20, at_ 2021 9 13 21 10);
   (votes 30, at_ 2021 9 13 21 20); (votes 40, at_ 2021 9 13 21 30);
   (votes 50, at_ 2021 9 13 21 40)].

(** The store after the monitor has followed a county, a municipality and a
    district through that night. *)
Definition store_2021 : Store.store :=
  let api := lit "https://valgresultat.no/api" in
  let y := lit "2021" in
  let s := fst (Monitor.process_all api Monitor.Fylke (lit "fylke-03-oslo") y
                  election_night ∅) in
  let s := fst (Monitor.process_all api Monitor.Kommune
                  (lit "kommune-03-0301-oslo") y election_night s) in
  fst (Monitor.process_all api Monitor.Krets
         (lit "krets-03-0301-0001-sentrum") y election_night s).

Definition oslo_fylke : path := [lit "2021"; lit "fylke"; lit "fylke-03-oslo"].
Definition oslo_kommune : path :=
  [lit "2021"; lit "kommune"; lit "kommune-03-0301-oslo"].
Definition sentrum_krets : path :=
  [lit "2021"; lit "krets"; lit "krets-03-0301-0001-sentrum"].

(** Two fetches in the same minute, 21:00:05 and 21:00:50. *)
Definition same_minute : list (json * datetime) :=
  [(votes 10, {| Datetime.dt_year := 2021; Datetime.dt_month := 9;
                 Datetime.dt_day := 13; Datetime.dt_hour := 21;
                 Datetime.dt_minute := 0; Datetime.dt_second := 5;
                 Datetime.dt_microsecond := 0 |});
   (votes 20, {| Datetime.dt_year := 2021; Datetime.dt_month := 9;
                 Datetime.dt_day := 13; Datetime.dt_hour := 21;
                 Datetime.dt_minute := 0; Datetime.dt_second := 50;
                 Datetime.dt_microsecond := 0 |})].


(** A document with a lone surrogate, as [response.json()] returns it for
    the text [{"navn": "\ud800"}]. *)
Definition lone_surrogate : json :=
  Json.JDict [(lit "navn", Json.JStr [55296%N])].

(** The times of three rounds of the polling loop: a first round, one a
    minute later and one ten minutes after the first. *)
Definition three_rounds : list Z := [1757750400; 1757750460; 1757751000]%Z.

(** An API whose national document lists a county without [href]. *)
Definition api_without_href (url : str) : option (list Scraper.link) :=
  Some [{| Scraper.nr := Some (lit "46");
           Scraper.hrefNavn := Some (lit "/2021/st/Vestland");
           Scraper.href := None;
           Scraper.harUnderordnet := true |}].

(** The store after one poll of Oslo at 21:00, and the same store once the
    snapshot file has been removed by hand, which leaves the pointer
    dangling. *)
Definition first_poll : Store.store :=
  fst (Monitor.process_entity (lit "https://valgresultat.no/api")
         (fun _ => Some (votes 10)) (at_ 2021 9 13 21 0) Monitor.Fylke
         (lit "fylke-03-oslo") (lit "2021") ∅).

Definition dangling_store : Store.store :=
  delete (oslo_fylke ++ [lit "2021-09-13__2100.json"]) first_poll.

End Examples.

Import Examples.

(* ===================================================================== *)
(** * Properties *)
(* ===================================================================== *)

(** ** Python string helpers *)

Section PyFacts.
Import Py.

Lemma startswith_app p s t :
  startswith p s = true -> startswith p (s ++ t) = true.
Proof.
  revert s; induction p as [|a p IH]; intros [|b s]; simpl; try easy.
  rewrite !andb_true_iff. intros [-> H]. auto.
Qed.

Lemma contains_app_l p s t :
  contains p (s ++ t) = false -> contains p s = false.
Proof.
  induction s as [|c s IH]; simpl.
  - destruct p as [|a p]; [|reflexivity].
    destruct t; simpl; intros H; discriminate H.
  - rewrite !orb_false_iff. intros [H1 H2]. split; [|auto].
    destruct (startswith p (c :: s)) eqn:E; [|reflexivity].
    apply (startswith_app _ _ t) in E. simpl in E. congruence.
Qed.

Lemma contains_app_r p s t :
  contains p (s ++ t) = false -> contains p t = false.
Proof.
  induction s as [|c s IH]; simpl; [easy|].
  rewrite orb_false_iff. intros [_ H]. auto.
Qed.

Lemma replace_from_Forall (P : N -> Prop) old new k s :
  Forall P new -> Forall P s -> Forall P (replace_from old new k s).
Proof.
  intros Hnew. revert k. induction s as [|c s IH]; intros k Hs; simpl.
  - constructor.
  - inversion Hs; subst. destruct k.
    + destruct (startswith old (c :: s)).
      * apply Forall_app; split; auto.
      * constructor; auto.
    + auto.
Qed.

Lemma replace_Forall (P : N -> Prop) old new s :
  Forall P new -> Forall P s -> Forall P (replace old new s).
Proof. apply replace_from_Forall. Qed.

(** Replacing a one-character pattern removes every occurrence of it. *)
Lemma replace_char_absent c new s :
  Forall (fun x => x <> c) new ->
  Forall (fun x => x <> c) (replace [c] new s).
Proof.
  intros Hnew. unfold replace.
  induction s as [|x s IH]; simpl; [constructor|].
  destruct (N.eqb_spec c x) as [->|Hne]; simpl.
  - apply Forall_app; split; auto.
  - constructor; auto.
Qed.

(** A one-character pattern that does not occur leaves the string alone. *)
Lemma replace_char_id c new s :
  Forall (fun x => x <> c) s -> replace [c] new s = s.
Proof.
  unfold replace. induction 1 as [|x s Hx Hs IH]; simpl; [reflexivity|].
  destruct (N.eqb_spec c x) as [->|Hne]; [congruence|].
  simpl. now rewrite IH.
Qed.

Lemma lstrip_suffix c s : exists p, s = p ++ lstrip c s.
Proof.
  induction s as [|x s [p Hp]]; simpl.
  - now exists [].
  - destruct (x =? c)%N.
    + exists (x :: p). simpl. congruence.
    + now exists [].
Qed.

Lemma rstrip_prefix c s : exists t, s = rstrip c s ++ t.
Proof.
  unfold rstrip. destruct (lstrip_suffix c (rev s)) as [p Hp].
  exists (rev p). rewrite <- rev_app_distr, <- Hp. now rewrite rev_involutive.
Qed.

Lemma strip_infix c s : exists p t, s = p ++ strip c s ++ t.
Proof.
  unfold strip. destruct (lstrip_suffix c s) as [p Hp].
  destruct (rstrip_prefix c (lstrip c s)) as [t Ht].
  exists p, t. now rewrite <- Ht.
Qed.

Lemma lstrip_no_lead c s : no_lead c (lstrip c s).
Proof.
  induction s as [|x s IH]; simpl; [exact I|].
  destruct (N.eqb_spec x c); [exact IH|]. simpl. assumption.
Qed.

Lemma no_lead_lstrip c s : no_lead c s -> lstrip c s = s.
Proof.
  destruct s as [|x s]; simpl; [reflexivity|].
  intros H. destruct (N.eqb_spec x c); congruence.
Qed.

Lemma rstrip_no_lead c s : no_lead c s -> no_lead c (rstrip c s).
Proof.
  intros H. destruct (rstrip_prefix c s) as [t Ht].
  destruct (rstrip c s) as [|x r]; [exact I|].
  rewrite Ht in H. exact H.
Qed.

Lemma rstrip_idem c s : rstrip c (rstrip c s) = rstrip c s.
Proof.
  unfold rstrip. rewrite rev_involutive.
  now rewrite (no_lead_lstrip c _ (lstrip_no_lead c (rev s))).
Qed.

Lemma strip_idem c s : strip c (strip c s) = strip c s.
Proof.
  unfold strip.
  rewrite (no_lead_lstrip c (rstrip c (lstrip c s))).
  - apply rstrip_idem.
  - apply rstrip_no_lead, lstrip_no_lead.
Qed.

Lemma strip_Forall (P : N -> Prop) c s : Forall P s -> Forall P (strip c s).
Proof.
  intros H. destruct (strip_infix c s) as (p & t & E).
  rewrite E in H. apply Forall_app in H as [_ H].
  now apply Forall_app in H as [H _].
Qed.

Lemma strip_contains p c s :
  contains p s = false -> contains p (strip c s) = false.
Proof.
  intros H. destruct (strip_infix c s) as (q & t & E).
  rewrite E in H. apply contains_app_r in H. now apply contains_app_l in H.
Qed.
End PyFacts.

(** ** [_normalize_name] *)

Section NormalizeFacts.
Import Py Scraper.

Lemma startswith_hyphens c s :
  startswith [45; 45]%N (c :: s) = true -> exists s', c = 45%N /\ s = 45%N :: s'.
Proof.
  cbn [startswith]. destruct s as [|d s]; rewrite ?andb_true_iff.
  - intros [_ H]. discriminate H.
  - intros (Hc & Hd & _). apply N.eqb_eq in Hc, Hd. subst. now exists s.
Qed.

Lemma collapse_skip_length k s :
  k <= 1 -> k <= length s ->
  length (replace_from [45; 45]%N [45%N] k s) + k <= length s.
Proof.
  revert k. induction s as [|c s IH]; intros k Hk Hlen.
  - cbn in *. lia.
  - cbn [replace_from]. destruct k as [|k].
    + destruct (startswith [45; 45]%N (c :: s)) eqn:E.
      * apply startswith_hyphens in E as (s' & -> & ->).
        change (length [45; 45]%N - 1) with 1.
        specialize (IH 1). cbn [length app] in *. lia.
      * specialize (IH 0). cbn [length] in *. lia.
    + assert (k = 0) as -> by lia. specialize (IH 0). cbn [length] in *. lia.
Qed.

Lemma replace_hyphens_shorter s :
  contains (lit "--") s = true ->
  length (replace (lit "--") (lit "-") s) < length s.
Proof.
  change (lit "--") with [45; 45]%N. change (lit "-") with [45%N].
  unfold replace. induction s as [|c s IH].
  - discriminate.
  - cbn [contains replace_from].
    destruct (startswith [45; 45]%N (c :: s)) eqn:E; cbn [orb].
    + intros _. apply startswith_hyphens in E as (s' & -> & ->).
      change (length [45; 45]%N - 1) with 1.
      pose proof (collapse_skip_length 1 (45%N :: s')) as H.
      cbn [length app] in *. lia.
    + intros H. apply IH in H. cbn [length]. lia.
Qed.

(** The loop of [_normalize_name] ends because no ["--"] is left, not
    because the unrolling ran out. *)
Lemma collapse_hyphens_done fuel s :
  length s <= fuel ->
  contains (lit "--") (collapse_hyphens fuel s) = false.
Proof.
  revert s. induction fuel as [|f IH]; intros s Hlen; simpl.
  - destruct s; [reflexivity|simpl in Hlen; lia].
  - destruct (contains (lit "--") s) eqn:E; [|exact E].
    apply IH. apply replace_hyphens_shorter in E. lia.
Qed.

Lemma collapse_hyphens_id fuel s :
  contains (lit "--") s = false -> collapse_hyphens fuel s = s.
Proof. intros H. destruct fuel; simpl; [reflexivity|now rewrite H]. Qed.

Lemma collapse_hyphens_Forall (P : N -> Prop) fuel s :
  P 45%N -> Forall P s -> Forall P (collapse_hyphens fuel s).
Proof.
  intros H45. revert s. induction fuel as [|f IH]; intros s Hs; simpl; [easy|].
  destruct (contains (lit "--") s); [|easy].
  apply IH, replace_Forall; [repeat constructor; exact H45|exact Hs].
Qed.

(** Folding a table of replacements keeps every property that the inserted
    texts have. *)
Lemma replacements_Forall (P : N -> Prop) (rs : list (str * str)) s :
  Forall (fun r => Forall P (snd r)) rs -> Forall P s ->
  Forall P (fold_left (fun n r => replace (fst r) (snd r) n) rs s).
Proof.
  intros Hrs. revert s. induction Hrs as [|r rs Hr _ IH]; intros s Hs; simpl.
  - exact Hs.
  - apply IH, replace_Forall; assumption.
Qed.

Lemma replacements_absent s :
  Forall (fun x => ~ In x rewritten)
         (fold_left (fun n r => replace (fst r) (snd r) n) replacements s).
Proof.
  assert (forall c, In c rewritten ->
            Forall (fun x => x <> c)
              (fold_left (fun n r => replace (fst r) (snd r) n) replacements s))
    as H.
  { intros c Hc. unfold replacements. cbn [fold_left fst snd].
    unfold rewritten in Hc. cbn [In] in Hc.
    repeat match goal with
    | H : _ \/ _ |- _ => destruct H as [H|H]
    | H : False |- _ => destruct H
    end; subst c;
    repeat first
      [ apply replace_char_absent; repeat constructor; discriminate
      | apply replace_Forall; [repeat constructor; discriminate|] ]. }
  apply List.Forall_forall. intros x Hx Hin.
  specialize (H x Hin). rewrite List.Forall_forall in H. now apply (H x).
Qed.

Lemma replacements_id s :
  Forall (fun x => ~ In x rewritten) s ->
  fold_left (fun n r => replace (fst r) (snd r) n) replacements s = s.
Proof.
  intros H. unfold replacements. cbn [fold_left fst snd].
  assert (forall c, In c rewritten -> Forall (fun x => x <> c) s) as Hc.
  { intros c Hin. rewrite List.Forall_forall in H. apply List.Forall_forall.
    intros a Ha ->. exact (H _ Ha Hin). }
  change (lit " ") with [32%N]. change (lit ".") with [46%N].
  change (lit ",") with [44%N]. change (lit "+") with [43%N].
  unfold ch_ae, ch_oslash, ch_aring.
  rewrite (replace_char_id 230%N _ s), (replace_char_id 248%N _ s),
    (replace_char_id 229%N _ s), (replace_char_id 32%N _ s),
    (replace_char_id 46%N _ s), (replace_char_id 44%N _ s),
    (replace_char_id 43%N _ s);
    try reflexivity; apply Hc; unfold rewritten; cbn [In]; tauto.
Qed.

Lemma filter_Forall_id {A} (f : A -> bool) l :
  Forall (fun x => f x = true) l -> List.filter f l = l.
Proof.
  induction 1 as [|x l Hx _ IH]; [reflexivity|].
  cbn. rewrite Hx. cbn. now rewrite IH.
Qed.

Lemma filter_keeps_Forall {A} (P : A -> Prop) (f : A -> bool) l :
  Forall P l -> Forall P (List.filter f l).
Proof.
  induction 1 as [|x l Hx _ IH]; [constructor|].
  cbn. destruct (f x); cbn; auto.
Qed.

Lemma filter_Forall_true {A} (f : A -> bool) l :
  Forall (fun x => f x = true) (List.filter f l).
Proof.
  induction l as [|x l IH]; [constructor|].
  cbn. destruct (f x) eqn:E; cbn; auto.
Qed.

Variable lower : str -> str.
Variable isalnum : N -> bool.

(** What is used of [str.lower]: the characters it produces are themselves
    lower-case, a string of lower-case characters is left alone, and the
    letters and the hyphen that the replacement table inserts are
    lower-case. *)
Hypothesis lower_chars : forall s, Forall (fun c => lower [c] = [c]) (lower s).
Hypothesis lower_fixed :
  forall s, Forall (fun c => lower [c] = [c]) s -> lower s = s.
Hypothesis lower_inserted : Forall (fun c => lower [c] = [c]) (lit "aeog-").

Lemma normalize_name_slug_like s :
  slug_like lower isalnum (_normalize_name lower isalnum s).
Proof.
  assert (Hins : forall c, In c (lit "aeog-") -> lower [c] = [c]).
  { apply List.Forall_forall. exact lower_inserted. }
  unfold _normalize_name, slug_like.
  set (s1 := fold_left _ replacements (lower s)).
  set (s2 := List.filter _ s1).
  assert (H1 : Forall (fun c => lower [c] = [c]) s1).
  { apply replacements_Forall; [|apply lower_chars].
    unfold replacements; repeat constructor; cbn [snd];
      apply Hins; cbn; tauto. }
  assert (H2 : Forall (fun x => ~ In x rewritten) s1)
    by apply replacements_absent.
  repeat split.
  - apply strip_Forall, collapse_hyphens_Forall; [apply Hins; cbn; tauto|].
    now apply filter_keeps_Forall.
  - apply strip_Forall, collapse_hyphens_Forall.
    + unfold rewritten. cbn [In]. intuition discriminate.
    + now apply filter_keeps_Forall.
  - apply strip_Forall, collapse_hyphens_Forall.
    + unfold ch_hyphen. now rewrite N.eqb_refl, orb_true_r.
    + apply filter_Forall_true.
  - apply strip_contains, collapse_hyphens_done. lia.
  - apply strip_idem.
Qed.

Lemma normalize_name_fixed r :
  slug_like lower isalnum r -> _normalize_name lower isalnum r = r.
Proof.
  intros (Hl & Hr & Ha & Hc & Hs). unfold _normalize_name.
  rewrite (lower_fixed r Hl), (replacements_id r Hr).
  rewrite (filter_Forall_id _ r Ha), (collapse_hyphens_id _ r Hc).
  exact Hs.
Qed.

(** C10.  Name normalisation is idempotent: normalising a name that is
    already the result of [_normalize_name] gives it back unchanged. *)
Theorem normalize_name_idempotent (s : str) :
  _normalize_name lower isalnum (_normalize_name lower isalnum s)
  = _normalize_name lower isalnum s.
Proof. apply normalize_name_fixed, normalize_name_slug_like. Qed.

End NormalizeFacts.

(** Example: the Latin-1 instance of [str.lower] meets the three
    assumptions, so the theorem applies to ["Møre og Romsdal"]. *)
Lemma lower_latin1_chars s :
  Forall (fun c => Py.lower_latin1 [c] = [c]) (Py.lower_latin1 s).
Proof.
  unfold Py.lower_latin1. induction s as [|c s IH]; cbn [map]; constructor; auto.
  destruct (Py.is_upper_latin1 c) eqn:E; [|now rewrite E].
  replace (Py.is_upper_latin1 (c + 32)) with false; [reflexivity|].
  symmetry. unfold Py.is_upper_latin1 in *.
  rewrite orb_true_iff, !andb_true_iff, !N.leb_le in E.
  rewrite orb_false_iff, !andb_false_iff, !N.leb_gt. lia.
Qed.

Lemma lower_latin1_fixed s :
  Forall (fun c => Py.lower_latin1 [c] = [c]) s -> Py.lower_latin1 s = s.
Proof.
  unfold Py.lower_latin1. induction 1 as [|c s Hc _ IH]; [reflexivity|].
  cbn [map] in *. injection Hc as Hc. now rewrite Hc, IH.
Qed.

Lemma normalize_name_idempotent_example :
  let name := [77; 248; 114; 101; 32; 111; 103; 32; 82; 111; 109; 115; 100;
               97; 108]%N in
  Scraper._normalize_name Py.lower_latin1 Py.isalnum_latin1 name
    = lit "more-og-romsdal" /\
  Scraper._normalize_name Py.lower_latin1 Py.isalnum_latin1
    (Scraper._normalize_name Py.lower_latin1 Py.isalnum_latin1 name)
  = Scraper._normalize_name Py.lower_latin1 Py.isalnum_latin1 name.
Proof.
  split; [reflexivity|].
  apply (normalize_name_idempotent Py.lower_latin1 Py.isalnum_latin1).
  - apply lower_latin1_chars.
  - apply lower_latin1_fixed.
  - repeat constructor.
Defined.

(** ** Entity IDs and the endpoint built from them *)

Section IdFacts.
Import Py.

Lemma split_not_nil sep s : split sep s <> [].
Proof.
  destruct s as [|c s]; cbn [split]; [discriminate|].
  destruct (c =? sep)%N; [discriminate|]. now destruct (split sep s).
Qed.

Lemma split_sep_free sep w : ~ In sep w -> split sep w = [w].
Proof.
  induction w as [|c w IH]; cbn [split In]; [reflexivity|].
  intros H. destruct (N.eqb_spec c sep) as [->|_]; [tauto|].
  rewrite IH; tauto.
Qed.

(** A word without separator, then a separator: the word is the first
    piece. *)
Lemma split_word sep w rest :
  ~ In sep w -> split sep (w ++ sep :: rest) = w :: split sep rest.
Proof.
  induction w as [|c w IH]; cbn [split In app].
  - intros _. now rewrite N.eqb_refl.
  - intros H. destruct (N.eqb_spec c sep) as [->|_]; [tauto|].
    rewrite IH; tauto.
Qed.

Lemma split_pieces sep s : Forall (fun w => ~ In sep w) (split sep s).
Proof.
  induction s as [|c s IH]; cbn [split].
  - repeat constructor. intros [].
  - destruct (N.eqb_spec c sep) as [->|Hne].
    + constructor; [intros []|exact IH].
    + destruct (split sep s) as [|w ws].
      * repeat constructor. cbn [In]. intuition congruence.
      * inversion IH; subst. constructor; [|assumption].
        cbn [In]. intuition congruence.
Qed.

Lemma join_split sep ws :
  ws <> [] -> Forall (fun w => ~ In sep w) ws ->
  split sep (join [sep] ws) = ws.
Proof.
  intros Hne H. induction H as [|w ws Hw Hws IH]; [congruence|].
  cbn [join]. destruct ws as [|w' ws].
  - now apply split_sep_free.
  - cbn [app]. rewrite split_word by exact Hw. f_equal. now apply IH.
Qed.

Lemma but_last_cons {A} (x : A) l : l <> [] -> but_last (x :: l) = x :: but_last l.
Proof. destruct l; [congruence|reflexivity]. Qed.

Lemma but_last_Forall {A} (P : A -> Prop) l : Forall P l -> Forall P (but_last l).
Proof.
  unfold but_last. induction 1 as [|x l Hx Hl IH]; [constructor|].
  cbn [removelast]. destruct l; [constructor|]. constructor; auto.
Qed.

(** The pieces that [process_entity] indexes: the words in front of the
    slug come back as they were put in. *)
Lemma components_words (ws : list str) (slug : str) :
  ws <> [] -> Forall (fun w => ~ In 45%N w) ws ->
  exists tail,
    Monitor.components (fold_right (fun w acc => w ++ 45%N :: acc) slug ws)
    = ws ++ tail.
Proof.
  intros Hne Hws. unfold Monitor.components.
  assert (split 45 (fold_right (fun w acc => w ++ 45%N :: acc) slug ws)
          = ws ++ split 45 slug) as ->.
  { clear Hne. induction Hws as [|w ws Hw _ IH]; [reflexivity|].
    cbn [fold_right app]. rewrite split_word by exact Hw. now rewrite IH. }
  exists (but_last (split 45 slug)).
  assert (but_last (ws ++ split 45 slug) = ws ++ but_last (split 45 slug)) as ->.
  { unfold but_last. apply removelast_app, split_not_nil. }
  change (lit "-") with [45%N]. apply join_split.
  - destruct ws; [congruence|discriminate].
  - apply Forall_app; split; [exact Hws|].
    apply but_last_Forall, split_pieces.
Qed.

Variable lower : str -> str.
Variable isalnum : N -> bool.
Variable unquote : str -> str.

(** C9.  For a county, a municipality and a district whose numeric codes
    hold no hyphen, the endpoint that [process_entity] builds from the ID
    made by the discoverer carries exactly those codes, whatever the slug
    is (with hyphens in it or not). *)
Theorem entity_url_roundtrip (f k c : Scraper.link) (fn kn cn year : str) :
  Scraper.nr f = Some fn -> Scraper.nr k = Some kn -> Scraper.nr c = Some cn ->
  ~ In 45%N fn -> ~ In 45%N kn -> ~ In 45%N cn ->
  (forall id, Scraper._create_fylke_id lower isalnum unquote f = Some id ->
     Py.index (Monitor.components id) 1 = Some fn /\
     Monitor.entity_url Monitor.Fylke id year
     = Some (lit "/" ++ year ++ lit "/st/" ++ fn)) /\
  (forall id, Scraper._create_kommune_id lower isalnum unquote f k = Some id ->
     Py.index (Monitor.components id) 1 = Some fn /\
     Py.index (Monitor.components id) 2 = Some kn /\
     Monitor.entity_url Monitor.Kommune id year
     = Some (lit "/" ++ year ++ lit "/st/" ++ fn ++ lit "/" ++ kn)) /\
  (forall id, Scraper._create_krets_id lower isalnum unquote f k c = Some id ->
     Py.index (Monitor.components id) 1 = Some fn /\
     Py.index (Monitor.components id) 2 = Some kn /\
     Py.index (Monitor.components id) 3 = Some cn /\
     Monitor.entity_url Monitor.Krets id year
     = Some (lit "/" ++ year ++ lit "/st/" ++ fn ++ lit "/" ++ kn
             ++ lit "/" ++ cn)).
Proof.
  intros Hf Hk Hc Hfn Hkn Hcn.
  unfold Scraper._create_fylke_id, Scraper._create_kommune_id,
    Scraper._create_krets_id, Monitor.entity_url.
  rewrite Hf, Hk, Hc.
  split; [|split].
  - intros id Hid. destruct (Scraper.hrefNavn f) as [h|]; [|discriminate].
    injection Hid as <-.
    destruct (components_words [lit "fylke"; fn] (Scraper.slug_of lower isalnum unquote h))
      as [tail E].
    { discriminate. }
    { repeat constructor; [cbn; intuition discriminate|exact Hfn]. }
    cbn [fold_right] in E.
    match goal with |- context [Monitor.components ?i] =>
      change i with (lit "fylke" ++ 45%N :: fn ++ 45%N :: Scraper.slug_of lower isalnum unquote h)
    end.
    rewrite E. split; reflexivity.
  - intros id Hid. destruct (Scraper.hrefNavn k) as [h|]; [|discriminate].
    injection Hid as <-.
    destruct (components_words [lit "kommune"; fn; kn]
                (Scraper.slug_of lower isalnum unquote h)) as [tail E].
    { discriminate. }
    { repeat constructor; [cbn; intuition discriminate|exact Hfn|exact Hkn]. }
    cbn [fold_right] in E.
    match goal with |- context [Monitor.components ?i] =>
      change i with (lit "kommune" ++ 45%N :: fn ++ 45%N :: kn ++ 45%N :: Scraper.slug_of lower isalnum unquote h)
    end.
    rewrite E. repeat split; reflexivity.
  - intros id Hid. destruct (Scraper.hrefNavn c) as [h|]; [|discriminate].
    injection Hid as <-.
    destruct (components_words [lit "krets"; fn; kn; cn]
                (Scraper.slug_of lower isalnum unquote h)) as [tail E].
    { discriminate. }
    { repeat constructor;
        [cbn; intuition discriminate|exact Hfn|exact Hkn|exact Hcn]. }
    cbn [fold_right] in E.
    match goal with |- context [Monitor.components ?i] =>
      change i with (lit "krets" ++ 45%N :: fn ++ 45%N :: kn ++ 45%N :: cn ++ 45%N :: Scraper.slug_of lower isalnum unquote h)
    end.
    rewrite E. repeat split; reflexivity.
Qed.

End IdFacts.

(** Example: district 0001 of Kristiansund, whose name has a space in it. *)
Lemma entity_url_roundtrip_example :
  let f := {| Scraper.nr := Some (lit "15");
              Scraper.hrefNavn := Some (lit "/2021/st/More og Romsdal");
              Scraper.href := Some (lit "/2021/st/15");
              Scraper.harUnderordnet := true |} in
  let k := {| Scraper.nr := Some (lit "1505");
              Scraper.hrefNavn := Some (lit "/2021/st/More og Romsdal/Kristiansund");
              Scraper.href := Some (lit "/2021/st/15/1505");
              Scraper.harUnderordnet := true |} in
  let c := {| Scraper.nr := Some (lit "0001");
              Scraper.hrefNavn :=
                Some (lit "/2021/st/More og Romsdal/Kristiansund/Indre by");
              Scraper.href := Some (lit "/2021/st/15/1505/0001");
              Scraper.harUnderordnet := false |} in
  Scraper._create_krets_id Py.lower_latin1 Py.isalnum_latin1 (fun s => s) f k c
    = Some (lit "krets-15-1505-0001-indre-by") /\
  Monitor.entity_url Monitor.Krets (lit "krets-15-1505-0001-indre-by") (lit "2021")
    = Some (lit "/2021/st/15/1505/0001").
Proof.
  intros f k c. split; [reflexivity|].
  assert (H : forall w : str, forallb (fun x => negb (x =? 45)%N) w = true ->
                ~ In 45%N w).
  { intros w Hw Hin. rewrite forallb_forall in Hw. apply Hw in Hin.
    discriminate Hin. }
  destruct (entity_url_roundtrip Py.lower_latin1 Py.isalnum_latin1 (fun s => s)
              f k c (lit "15") (lit "1505") (lit "0001") (lit "2021")
              eq_refl eq_refl eq_refl
              (H (lit "15") eq_refl) (H (lit "1505") eq_refl)
              (H (lit "0001") eq_refl)) as (_ & _ & Hkrets).
  destruct (Hkrets (lit "krets-15-1505-0001-indre-by") eq_refl)
    as (_ & _ & _ & E).
  exact E.
Defined.

(** ** Order on strings and [sorted] *)

Section OrderFacts.
Import Py.

Lemma compare_eq a b : compare a b = Eq -> a = b.
Proof.
  revert b. induction a as [|x a IH]; intros [|y b]; cbn [compare];
    try discriminate; [reflexivity|].
  destruct (N.compare_spec x y) as [->|_|_]; try discriminate.
  intros H. f_equal. auto.
Qed.

Lemma compare_refl a : compare a a = Eq.
Proof. induction a as [|x a IH]; cbn [compare]; [|rewrite N.compare_refl]; auto. Qed.

Lemma compare_antisym a b : compare b a = CompOpp (compare a b).
Proof.
  revert b. induction a as [|x a IH]; intros [|y b]; cbn [compare]; try reflexivity.
  rewrite (N.compare_antisym x y).
  destruct (x ?= y)%N; cbn [CompOpp]; auto.
Qed.

Lemma compare_lt_trans a b c :
  compare a b = Lt -> compare b c = Lt -> compare a c = Lt.
Proof.
  revert b c. induction a as [|x a IH]; intros [|y b] [|z c]; cbn [compare];
    try discriminate; try reflexivity.
  destruct (N.compare_spec x y) as [->|Hxy|Hxy]; try discriminate.
  - destruct (y ?= z)%N; try discriminate; eauto.
  - intros _. destruct (N.compare_spec y z) as [->|Hyz|Hyz]; try discriminate.
    + intros _. now apply N.compare_lt_iff in Hxy as ->.
    + intros _. assert (x < z)%N as H by lia.
      now apply N.compare_lt_iff in H as ->.
Qed.

Lemma leb_total a b : leb a b = true \/ leb b a = true.
Proof.
  unfold leb. rewrite (compare_antisym a b).
  destruct (compare a b); cbn [CompOpp]; auto.
Qed.

Lemma leb_antisym a b : leb a b = true -> leb b a = true -> a = b.
Proof.
  unfold leb. rewrite (compare_antisym a b).
  destruct (compare a b) eqn:E; cbn [CompOpp]; try discriminate.
  intros _ _. now apply compare_eq.
Qed.

Lemma leb_trans a b c : leb a b = true -> leb b c = true -> leb a c = true.
Proof.
  unfold leb.
  destruct (compare a b) eqn:Eab; try discriminate; intros _.
  - apply compare_eq in Eab as ->. auto.
  - destruct (compare b c) eqn:Ebc; try discriminate; intros _.
    + apply compare_eq in Ebc as <-. now rewrite Eab.
    + now rewrite (compare_lt_trans a b c Eab Ebc).
Qed.

Context {A : Type} (key : A -> str).

Lemma insert_sorted_perm x l : Permutation (insert_sorted key x l) (x :: l).
Proof.
  induction l as [|y l IH]; cbn [insert_sorted]; [reflexivity|].
  destruct (leb (key x) (key y)); [reflexivity|].
  rewrite IH. apply perm_swap.
Qed.

Lemma sorted_perm l : Permutation (sorted key l) l.
Proof.
  induction l as [|x l IH]; cbn [sorted]; [reflexivity|].
  now rewrite insert_sorted_perm, IH.
Qed.

Lemma insert_sorted_ordered x l :
  StronglySorted (key_le key) l -> StronglySorted (key_le key) (insert_sorted key x l).
Proof.
  induction 1 as [|y l Hl IH Hy]; cbn [insert_sorted].
  - repeat constructor.
  - destruct (leb (key x) (key y)) eqn:E.
    + constructor; [constructor; assumption|].
      constructor; [exact E|].
      rewrite List.Forall_forall in *. intros z Hz.
      exact (leb_trans _ _ _ E (Hy z Hz)).
    + constructor; [exact IH|].
      rewrite List.Forall_forall in *. intros z Hz.
      apply (Permutation_in _ (insert_sorted_perm x l)) in Hz as [<-|Hz]; auto.
      destruct (leb_total (key x) (key y)); unfold key_le; congruence.
Qed.

Lemma sorted_ordered l : StronglySorted (key_le key) (sorted key l).
Proof.
  induction l as [|x l IH]; cbn [sorted]; [constructor|].
  now apply insert_sorted_ordered.
Qed.

(** With distinct keys, any two orders of the same items sort alike. *)
Lemma sorted_unique l1 l2 :
  NoDup (map key l1) -> Permutation l1 l2 -> sorted key l1 = sorted key l2.
Proof.
  intros Hnd Hp.
  apply (StronglySorted_unique_strong (key_le key)); try apply sorted_ordered.
  - intros x1 x2 H1 H2 H12 H21.
    apply list_elem_of_In in H1, H2.
    apply (Permutation_in _ (sorted_perm l1)) in H1.
    apply (Permutation_in _ (sorted_perm l2)) in H2.
    apply (Permutation_in _ (Permutation_sym Hp)) in H2.
    pose proof (leb_antisym _ _ H12 H21) as Hk.
    clear -Hnd H1 H2 Hk. induction l1 as [|y l IH]; [destruct H1|].
    cbn [map] in Hnd. inversion Hnd as [|? ? Hy Hnd']; subst.
    destruct H1 as [->|H1], H2 as [->|H2]; auto.
    + exfalso. apply Hy, list_elem_of_In. rewrite Hk. now apply in_map.
    + exfalso. apply Hy, list_elem_of_In. rewrite <- Hk. now apply in_map.
  - now rewrite !sorted_perm.
Qed.

End OrderFacts.

(** Sorting looks at the keys only. *)
Lemma sorted_map {A B : Type} (key : A -> str) (key' : B -> str) (h : A -> B) l :
  (forall x, key' (h x) = key x) ->
  Py.sorted key' (map h l) = map h (Py.sorted key l).
Proof.
  intros Hk. induction l as [|x l IH]; [reflexivity|].
  cbn [map Py.sorted]. rewrite IH. generalize (Py.sorted key l) as m.
  induction m as [|y m IHm]; [reflexivity|].
  cbn [map Py.insert_sorted]. rewrite !Hk.
  destruct (Py.leb (key x) (key y)); [reflexivity|].
  cbn [map]. now rewrite IHm.
Qed.

(** ** JSON output and change detection *)

Section JsonFacts.
Import Json.

Lemma dumps_sorted_sort_keys j : dumps_sorted j = dumps (sort_keys j).
Proof.
  induction j as [| | | | |items IH|items IH] using json_induction;
    try reflexivity.
  - cbn [dumps_sorted sort_keys dumps]. do 3 f_equal.
    rewrite map_map. now apply map_ext_Forall.
  - cbn [dumps_sorted sort_keys dumps]. do 3 f_equal.
    set (C := fun kv : str * json => (fst kv, sort_keys (snd kv))).
    set (D := fun kv : str * json => (fst kv, dumps (snd kv))).
    assert (map (fun kv => (fst kv, dumps_sorted (snd kv))) items
            = map D (map C items)) as ->.
    { rewrite map_map. apply map_ext_Forall.
      eapply List.Forall_impl; [|exact IH]. intros [k v] Hv. cbn in *.
      unfold D, C. cbn. now rewrite Hv. }
    rewrite (sorted_map fst fst D) by reflexivity.
    rewrite map_map. reflexivity.
Qed.

Lemma dumps_starts_value j : starts_value (dumps j) = true.
Proof. destruct j; reflexivity. Qed.

Lemma commas_cons (c : list token) cs :
  commas (c :: cs)
  = c ++ match cs with [] => [] | _ :: _ => TComma :: commas cs end.
Proof. destruct cs; cbn [commas]; [now rewrite app_nil_r|reflexivity]. Qed.

(** Reading back a comma-separated sequence up to its closing bracket. *)
Lemma commas_inj {A} (pr : A -> list token) (close : token) :
  close = TRBracket \/ close = TRBrace ->
  (forall x, starts_value (pr x) = true) ->
  forall l1,
    Forall (fun x => forall y r1 r2,
              pr x ++ r1 = pr y ++ r2 -> x = y /\ r1 = r2) l1 ->
    forall l2 r1 r2,
      commas (map pr l1) ++ close :: r1 = commas (map pr l2) ++ close :: r2 ->
      l1 = l2 /\ r1 = r2.
Proof.
  intros Hclose Hstart l1 Hl1.
  assert (Hno : forall x cs r r',
            close :: r <> commas (pr x :: cs) ++ r').
  { intros x cs r r' E. rewrite commas_cons, <- app_assoc in E.
    specialize (Hstart x). destruct (pr x) as [|t ts]; [discriminate|].
    injection E as <- _. now destruct Hclose as [-> | ->]. }
  induction Hl1 as [|x l1 Hx _ IH]; intros [|y l2] r1 r2 E; cbn [map] in E.
  - cbn in E. injection E as <-. auto.
  - exfalso. exact (Hno _ _ _ _ E).
  - exfalso. symmetry in E. exact (Hno _ _ _ _ E).
  - rewrite !commas_cons, <- !app_assoc in E.
    apply Hx in E as [<- E]. destruct l1 as [|x1 l1], l2 as [|y1 l2];
      cbn [map app] in E.
    + injection E as <-. auto.
    + exfalso. injection E as E _. now destruct Hclose as [-> | ->].
    + exfalso. injection E as E _. now destruct Hclose as [-> | ->].
    + injection E as E. destruct (IH (y1 :: l2) r1 r2 E) as [-> ->]. auto.
Qed.

(** The output of [json.dumps] can be read back: it determines the
    document, and where the document ends. *)
Lemma dumps_prefix a :
  forall b r1 r2, dumps a ++ r1 = dumps b ++ r2 -> a = b /\ r1 = r2.
Proof.
  induction a as [|b0|z0|r0|s0|l1 IH|d1 IH] using json_induction;
    intros b r1 r2 E; destruct b as [| | | | |l2|d2];
    cbn [dumps app] in E; try discriminate E;
    try (injection E as <- <-; auto; fail);
    try (injection E as <-; auto; fail).
  - injection E as E. rewrite <- !app_assoc in E. cbn [app] in E.
    apply (commas_inj dumps TRBracket) in E as [-> ->];
      auto using dumps_starts_value.
  - injection E as E. rewrite <- !app_assoc in E. cbn [app] in E.
    apply (commas_inj (fun kv => TStr (fst kv) :: TColon :: dumps (snd kv))
             TRBrace) in E as [-> ->]; auto.
    eapply List.Forall_impl; [|exact IH].
    intros [k v] Hv [k' v'] s1 s2 E'. cbn in *.
    injection E' as <- E'. apply Hv in E' as [<- <-]. auto.
Qed.

Lemma dumps_inj a b : dumps a = dumps b -> a = b.
Proof.
  intros E. apply (dumps_prefix a b [] []). now rewrite !app_nil_r.
Qed.

Lemma well_formed_items d :
  fold_right (fun kv acc => well_formed (snd kv) /\ acc) True d ->
  Forall (fun kv : str * json => well_formed (snd kv)) d.
Proof. induction d as [|kv d IH]; cbn; [constructor|]. intros [H1 H2]. auto. Qed.

(** Documents with the same sorted form differ in key order only. *)
Lemma sort_keys_same a : forall b, sort_keys a = sort_keys b -> same_document a b.
Proof.
  induction a as [|b0|z0|r0|s0|l1 IH|d1 IH] using json_induction;
    intros b E; destruct b as [| | | | |l2|d2];
    cbn [sort_keys] in E; try discriminate E;
    try (injection E as <-); try constructor.
  - injection E as E. revert l2 E.
    induction IH as [|x l1 Hx _ IHl]; intros [|y l2] E; cbn [map] in E;
      try discriminate E; constructor; injection E; auto.
  - injection E as E.
    set (C := fun kv : str * json => (fst kv, sort_keys (snd kv))) in *.
    assert (Hp : Permutation (map C d2) (map C d1)).
    { rewrite <- (sorted_perm fst (map C d2)), <- E. apply sorted_perm. }
    apply Permutation_map_inv in Hp as (d1' & Heq & Hp).
    apply same_dict with d1'; [exact Hp|].
    apply (Permutation_Forall Hp) in IH. clear -IH Heq. revert d2 Heq.
    induction IH as [|[k v] d1' Hv _ IHd]; intros [|[k' v'] d2] E;
      cbn [map] in E; try discriminate E; constructor.
    + unfold C in E. cbn in *. injection E as -> E' _. split; auto.
    + apply IHd. now injection E.
Qed.

(** ... and the converse, for documents that Python can hold. *)
Lemma same_sort_keys a :
  forall b, well_formed a -> same_document a b -> sort_keys a = sort_keys b.
Proof.
  induction a as [|b0|z0|r0|s0|l1 IH|d1 IH] using json_induction;
    intros b Hwf Hs; inversion Hs as [| | | | |? l2 Hl|? d1' d2 Hp Hd]; subst;
    try reflexivity; cbn [sort_keys]; f_equal.
  - cbn [well_formed] in Hwf. clear Hs. revert Hwf.
    induction Hl as [|x y l1 l2 Hxy _ IHl]; intros Hwf; [reflexivity|].
    inversion IH; subst. cbn in Hwf. destruct Hwf as [Hx Hwf].
    cbn [map]. f_equal; auto.
  - cbn [well_formed] in Hwf. destruct Hwf as [Hnd Hwf].
    set (C := fun kv : str * json => (fst kv, sort_keys (snd kv))).
    transitivity (Py.sorted fst (map C d1')).
    + apply sorted_unique; [|now apply Permutation_map].
      rewrite map_map. exact Hnd.
    + f_equal. apply well_formed_items in Hwf.
      apply (Permutation_Forall Hp) in IH, Hwf. clear -IH Hwf Hd.
      induction Hd as [|[k v] [k' v'] d1' d2 [Hk Hv] _ IHd]; [reflexivity|].
      inversion IH; inversion Hwf; subst. cbn in *. subst k'.
      unfold C at 1 3. cbn. f_equal; auto. f_equal. auto.
Qed.

(** C7.  [_has_meaningful_changes] answers [False] exactly when the two
    documents are the same up to the order of the keys of their dicts: no
    field is left out of the comparison, and a difference in any value, at
    any depth, is a change. *)
Theorem has_meaningful_changes_iff (old_data new_data : json) :
  well_formed old_data ->
  Monitor._has_meaningful_changes old_data new_data = false
  <-> same_document old_data new_data.
Proof.
  intros Hwf. unfold Monitor._has_meaningful_changes, Monitor.clean_data.
  rewrite negb_false_iff, bool_decide_eq_true, !dumps_sorted_sort_keys.
  split.
  - intros E. apply sort_keys_same, dumps_inj, E.
  - intros Hs. f_equal. now apply same_sort_keys.
Qed.

End JsonFacts.

(** Example: the same document with its keys in another order, against a
    copy that differs in one nested value. *)
Lemma has_meaningful_changes_example :
  let old_data :=
    Json.JDict [(lit "tidspunkt", Json.JStr (lit "2021-09-13T21:00"));
                (lit "stemmer", Json.JDict [(lit "total", Json.JInt 10);
                                            (lit "fhs", Json.JInt 4)])] in
  let reordered :=
    Json.JDict [(lit "stemmer", Json.JDict [(lit "fhs", Json.JInt 4);
                                            (lit "total", Json.JInt 10)]);
                (lit "tidspunkt", Json.JStr (lit "2021-09-13T21:00"))] in
  let later :=
    Json.JDict [(lit "tidspunkt", Json.JStr (lit "2021-09-13T21:05"));
                (lit "stemmer", Json.JDict [(lit "total", Json.JInt 10);
                                            (lit "fhs", Json.JInt 4)])] in
  Json.well_formed old_data /\
  Json.same_document old_data reordered /\
  ~ Json.same_document old_data later.
Proof.
  intros old_data reordered later.
  assert (Hwf : Json.well_formed old_data).
  { cbn. repeat split; apply (bool_decide_unpack _); reflexivity. }
  split; [exact Hwf|]. split.
  - apply (has_meaningful_changes_iff old_data reordered Hwf). reflexivity.
  - intros H. apply (has_meaningful_changes_iff old_data later Hwf) in H.
    discriminate H.
Defined.

(** ** Loading the registry at start-up *)

Section LoadFacts.
Import Scraper Monitor.
Variable lower : str -> str.
Variable isalnum : N -> bool.
Variable unquote : str -> str.
Variable fetch : str -> option (list link).

(** When discovery returns anything, the stored registry plays no part in
    what [_load_entities] returns and writes. *)
Lemma load_entities_ignores_file api years file file' reg :
  reg <> [] ->
  scrape_entities lower isalnum unquote fetch fresh_entities api years = reg ->
  _load_entities lower isalnum unquote fetch api years file = (reg, Stored reg) /\
  _load_entities lower isalnum unquote fetch api years file' = (reg, Stored reg).
Proof.
  intros Hne E. unfold _load_entities. rewrite E.
  destruct reg; [congruence|]. auto.
Qed.

Lemma reg_get_set year e reg : reg_get year (reg_set year e reg) = Some e.
Proof.
  induction reg as [|[y e'] reg IH]; cbn [reg_set reg_get].
  - now rewrite bool_decide_eq_true_2.
  - destruct (bool_decide (y = year)) eqn:E; cbn [reg_get]; now rewrite E.
Qed.

Lemma reg_set_not_nil year e reg : reg_set year e reg <> [].
Proof.
  destruct reg as [|[y e'] reg]; cbn [reg_set]; [discriminate|].
  destruct (bool_decide (y = year)); discriminate.
Qed.

Lemma reg_set_lists_nothing year reg :
  lists_nothing reg -> lists_nothing (reg_set year no_entities reg).
Proof.
  unfold lists_nothing. induction 1 as [|[y e] reg He Hreg IH]; cbn [reg_set].
  - repeat constructor.
  - destruct (bool_decide (y = year)); constructor; auto.
Qed.

Lemma reg_get_lists_nothing year reg e :
  lists_nothing reg -> reg_get year reg = Some e -> e = no_entities.
Proof.
  unfold lists_nothing. induction 1 as [|[y e'] reg He _ IH]; cbn [reg_get].
  - discriminate.
  - destruct (bool_decide (y = year)); [|exact IH].
    intros [= <-]. exact He.
Qed.

Hypothesis all_fail : forall url, fetch url = None.

Lemma scan_year_all_fail base reg year :
  lists_nothing reg ->
  exists reg', scan_year lower isalnum unquote fetch base reg year = Some reg' /\
               reg' <> [] /\ lists_nothing reg'.
Proof.
  intros Hreg. unfold scan_year. rewrite all_fail.
  destruct (reg_get year reg) as [e|] eqn:E.
  - exists reg. repeat split; auto. intros ->. discriminate E.
  - exists (reg_set year no_entities reg). repeat split.
    + apply reg_set_not_nil.
    + now apply reg_set_lists_nothing.
Qed.

(** When every request fails, discovery still returns one entry for each
    year, with nothing in it; for a non-empty list of years that is not the
    empty dict. *)
Lemma scrape_entities_all_fail api years :
  years <> [] ->
  let reg := scrape_entities lower isalnum unquote fetch fresh_entities api years in
  reg <> [] /\ lists_nothing reg.
Proof.
  intros Hne. unfold scrape_entities.
  assert (H : forall reg, lists_nothing reg -> (years = [] -> reg <> []) ->
            exists reg', for_each (scan_year lower isalnum unquote fetch
                                     (Py.rstrip 47 api)) years reg = Some reg' /\
                         reg' <> [] /\ lists_nothing reg').
  { clear Hne. induction years as [|y ys IH]; intros reg Hreg Hnil; cbn [for_each].
    - exists reg. auto.
    - destruct (scan_year_all_fail (Py.rstrip 47 api) reg y Hreg)
        as (reg' & -> & Hne' & Hreg').
      apply IH; auto. }
  destruct (H fresh_entities) as (reg' & -> & ? & ?); auto.
  constructor.
Qed.

(** The file is then written over with that registry. *)
Lemma load_entities_all_fail api years file :
  years <> [] ->
  exists reg,
    _load_entities lower isalnum unquote fetch api years file = (reg, Stored reg) /\
    lists_nothing reg.
Proof.
  intros Hne. destruct (scrape_entities_all_fail api years Hne) as [Hreg Hnone].
  unfold _load_entities.
  destruct (scrape_entities _ _ _ _ _ _ _) as [|ye reg]; [congruence|].
  eauto.
Qed.

End LoadFacts.

(** C1.  The registry kept in [entities.json] is read but never handed to
    the scraper: unless discovery returns nothing, what [_load_entities]
    returns and writes is the same whatever the file held.  In the example,
    with Oslo stored and Vestland and Bergen discovered, every request
    succeeding, the registry returned and written back holds Vestland and
    Bergen only. *)
Theorem load_entities_loses_stored_ids :
  (forall (lower : str -> str) (isalnum : N -> bool) (unquote : str -> str)
          (fetch : str -> option (list Scraper.link)) (api : str)
          (years : list str) (file file' : Monitor.config_file),
     Scraper.scrape_entities lower isalnum unquote fetch Scraper.fresh_entities
       api years = [] \/
     Monitor._load_entities lower isalnum unquote fetch api years file
     = Monitor._load_entities lower isalnum unquote fetch api years file') /\
  Monitor._load_entities Py.lower_latin1 Py.isalnum_latin1 (fun s => s)
    api_vestland (lit "https://valgresultat.no/api") [lit "2021"]
    (Monitor.Stored stored_registry)
  = (let reg := [(lit "2021", {| Scraper.fylke := [lit "fylke-46-vestland"];
                                 Scraper.kommune := [lit "kommune-46-4601-bergen"];
                                 Scraper.krets := [] |})] in
     (reg, Monitor.Stored reg)).
Proof.
  split; [|reflexivity].
  intros lower isalnum unquote fetch api years file file'.
  destruct (Scraper.scrape_entities lower isalnum unquote fetch
              Scraper.fresh_entities api years) as [|ye reg] eqn:E;
    [now left|right].
  destruct (load_entities_ignores_file lower isalnum unquote fetch api years
              file file' (ye :: reg)) as [-> ->]; [discriminate|exact E|].
  reflexivity.
Qed.

(** C8.  When every request fails the scraper still returns an entry,
    without entities, for each year, which is not the empty dict: whatever
    the file held, [_load_entities] writes that registry over it and
    returns it.  In the example the stored Oslo is lost. *)
Theorem load_entities_total_failure_overwrites :
  (forall (lower : str -> str) (isalnum : N -> bool) (unquote : str -> str)
          (api year : str) (years : list str) (file : Monitor.config_file),
     exists reg,
       Monitor._load_entities lower isalnum unquote (fun _ => None) api
         (year :: years) file = (reg, Monitor.Stored reg) /\
       Scraper.lists_nothing reg) /\
  Monitor._load_entities Py.lower_latin1 Py.isalnum_latin1 (fun s => s)
    (fun _ => None) (lit "https://valgresultat.no/api") [lit "2021"]
    (Monitor.Stored stored_registry)
  = (let reg := [(lit "2021", Scraper.no_entities)] in
     (reg, Monitor.Stored reg)).
Proof.
  split; [|reflexivity].
  intros lower isalnum unquote api year years file.
  apply load_entities_all_fail; [reflexivity|discriminate].
Qed.

(** ** The polling loop *)

Section RunFacts.
Import Monitor.

Lemma poll_not_due current_time t ids year lr :
  due current_time lr t = false -> poll current_time t ids year lr = ([], lr).
Proof. unfold poll. now intros ->. Qed.

(** After its block a tier is not due any more in this round, and the
    other tiers are as they were. *)
Lemma poll_after current_time t ids year lr :
  let lr' := snd (poll current_time t ids year lr) in
  due current_time lr' t = false /\
  forall t', t' <> t -> lr' t' = lr t'.
Proof.
  unfold poll.
  destruct (due current_time lr t) eqn:E; cbn [snd]; [|auto].
  split.
  - unfold due, ran. rewrite bool_decide_eq_true_2 by reflexivity. cbn.
    rewrite Z.sub_diag. now destruct t.
  - intros t' Hne. unfold ran. now rewrite bool_decide_eq_false_2.
Qed.

Lemma run_year_settled entities current_time calls lr year :
  (forall t, due current_time lr t = false) ->
  run_year entities current_time (calls, lr) year = (calls, lr).
Proof.
  intros H. unfold run_year. rewrite !poll_not_due by apply H.
  now rewrite !app_nil_r.
Qed.

Lemma run_year_settles entities current_time calls lr year :
  forall t, due current_time
              (snd (run_year entities current_time (calls, lr) year)) t = false.
Proof.
  unfold run_year.
  set (e := default Scraper.no_entities (Scraper.reg_get year entities)).
  pose proof (poll_after current_time Nasjonalt [lit "norge"] year lr) as H1.
  destruct (poll current_time Nasjonalt [lit "norge"] year lr) as [c1 lr1].
  pose proof (poll_after current_time Fylke (Scraper.fylke e) year lr1) as H2.
  destruct (poll current_time Fylke (Scraper.fylke e) year lr1) as [c2 lr2].
  pose proof (poll_after current_time Kommune (Scraper.kommune e) year lr2) as H3.
  destruct (poll current_time Kommune (Scraper.kommune e) year lr2) as [c3 lr3].
  pose proof (poll_after current_time Krets (Scraper.krets e) year lr3) as H4.
  destruct (poll current_time Krets (Scraper.krets e) year lr3) as [c4 lr4].
  cbn [snd] in *. destruct H1 as [D1 F1], H2 as [D2 F2], H3 as [D3 F3],
    H4 as [D4 F4].
  unfold due in *. intros [].
  - rewrite F4, F3, F2 by discriminate. exact D1.
  - rewrite F4, F3 by discriminate. exact D2.
  - rewrite F4 by discriminate. exact D3.
  - exact D4.
Qed.

Lemma run_year_calls entities current_time calls lr year c :
  In c (fst (run_year entities current_time (calls, lr) year)) ->
  In c calls \/ snd c = year.
Proof.
  unfold run_year.
  set (e := default Scraper.no_entities (Scraper.reg_get year entities)).
  assert (P : forall t ids lr0 c, In c (fst (poll current_time t ids year lr0)) ->
                snd c = year).
  { intros t ids lr0 c0. unfold poll. destruct (due _ _ _); cbn [fst]; [|easy].
    rewrite in_map_iff. now intros (id & <- & _). }
  pose proof (P Nasjonalt [lit "norge"] lr) as P1.
  destruct (poll current_time Nasjonalt [lit "norge"] year lr) as [c1 lr1].
  pose proof (P Fylke (Scraper.fylke e) lr1) as P2.
  destruct (poll current_time Fylke (Scraper.fylke e) year lr1) as [c2 lr2].
  pose proof (P Kommune (Scraper.kommune e) lr2) as P3.
  destruct (poll current_time Kommune (Scraper.kommune e) year lr2) as [c3 lr3].
  pose proof (P Krets (Scraper.krets e) lr3) as P4.
  destruct (poll current_time Krets (Scraper.krets e) year lr3) as [c4 lr4].
  cbn [fst] in *. rewrite !in_app_iff. intuition auto.
Qed.

(** In one round only the first election year is ever processed: once a
    tier has been handled for the first year its [last_run] is the current
    time, and it is not due for any later year of the same round. *)
Lemma run_round_first_year_only entities year years current_time lr c :
  In c (fst (run_round entities (year :: years) current_time lr)) ->
  snd c = year.
Proof.
  unfold run_round. cbn [fold_left].
  pose proof (run_year_settles entities current_time [] lr year) as Hs.
  pose proof (run_year_calls entities current_time [] lr year c) as Hc.
  destruct (run_year entities current_time ([], lr) year) as [calls lr'].
  cbn [fst snd] in *.
  assert (fold_left (run_year entities current_time) years (calls, lr')
          = (calls, lr')) as ->.
  { induction years as [|y ys IH]; cbn [fold_left]; [reflexivity|].
    now rewrite run_year_settled. }
  intros H. destruct (Hc H) as [[]|E]. exact E.
Qed.

End RunFacts.

(** C3.  In one round of the loop only the first election year is
    processed, in every round and for every tier: the time of processing
    is kept for each tier, not for each tier and year, and is set inside
    the loop over the years.  In the example, the first round with the
    years 2021 and 2025 makes the calls for 2021 and none for 2025, although
    it leaves every tier marked as processed. *)
Theorem run_round_skips_later_years :
  (forall (entities : Scraper.registry) (year : str) (years : list str)
          (current_time : Z) (lr : Monitor.last_run),
     Forall (fun c : Monitor.call => snd c = year)
       (fst (Monitor.run_round entities (year :: years) current_time lr))) /\
  (let '(calls, lr) :=
     Monitor.run_round two_year_registry [lit "2021"; lit "2025"] 1757750400
       Monitor.no_run in
   calls = [(Monitor.Nasjonalt, lit "norge", lit "2021");
            (Monitor.Fylke, lit "fylke-03-oslo", lit "2021")] /\
   ~ In (Monitor.Fylke, lit "fylke-03-oslo", lit "2025") calls /\
   forall t, lr t = Some 1757750400%Z).
Proof.
  split.
  - intros entities year years current_time lr. apply List.Forall_forall.
    intros c. apply run_round_first_year_only.
  - cbn. split; [reflexivity|]. split.
    + intros [H|[H|[]]]; discriminate H.
    + now intros [].
Qed.

(** ** The retention sweep *)

Section SweepFacts.
Import Store Cleanup.
Import Monitor(tier, Nasjonalt, Fylke, Kommune, Krets).
Variable clock : nat -> datetime.
Variable strptime : str -> option datetime.

Lemma touches_ret {A} (Q : path -> Prop) (x : A) : touches_only Q (mret x).
Proof. intros w p. now left. Qed.

Lemma touches_bind {A B} (Q : path -> Prop) (m : io world A) (f : A -> io world B) :
  touches_only Q m -> (forall x, touches_only Q (f x)) ->
  touches_only Q (m ≫= f).
Proof.
  intros Hm Hf w p. unfold mbind, io_bind.
  specialize (Hm w p). destruct (m w) as [w1 [x|]]; cbn [fst] in *; [|exact Hm].
  destruct (Hf x w1 p) as [E|HQ]; [|now right]. rewrite E. exact Hm.
Qed.

Lemma touches_for {A} (Q : path -> Prop) (l : list A) (body : A -> io world unit) :
  (forall x, In x l -> touches_only Q (body x)) -> touches_only Q (for_ l body).
Proof.
  induction l as [|x l IH]; intros H; cbn [for_].
  - apply touches_ret.
  - apply touches_bind; [apply H; now left|].
    intros _. apply IH. intros y Hy. apply H. now right.
Qed.

Lemma touches_observe {A} (Q : path -> Prop) (f : store -> A) :
  touches_only Q (observe f).
Proof. intros w p. now left. Qed.

Lemma touches_now (Q : path -> Prop) : touches_only Q (now clock).
Proof. intros w p. now left. Qed.

Lemma touches_remove (Q : path -> Prop) q : Q q -> touches_only Q (remove q).
Proof.
  intros Hq w p. unfold remove, unlink.
  destruct (files w !! q) as [[]|] eqn:E; cbn [fst files]; try now left.
  all: destruct (decide (p = q)) as [->|Hne];
    [right; split; [exact Hq|apply lookup_delete_eq]
    |left; now rewrite lookup_delete_ne].
Qed.

Lemma touches_should_retain (Q : path -> Prop) snapshot t a :
  touches_only Q (should_retain_snapshot clock strptime snapshot t a).
Proof.
  unfold should_retain_snapshot. destruct (strptime _); [|apply touches_ret].
  destruct (retention_periods a t); try apply touches_ret.
  apply touches_bind; [apply touches_now|]. intros. apply touches_ret.
Qed.

Lemma touches_weaken {A} (Q Q' : path -> Prop) (m : io world A) :
  (forall p, Q p -> Q' p) -> touches_only Q m -> touches_only Q' m.
Proof. intros H Hm w p. destruct (Hm w p) as [|[? ?]]; auto. Qed.

(** The snapshots of an entity are entries of its directory, each listed
    once. *)
Lemma glob_In s dir f p :
  In p (glob s dir f) -> is_Some (s !! p) /\ p <> [] /\ parent p = dir.
Proof.
  unfold glob. destruct (is_dir s dir); [|intros []].
  rewrite filter_In, !andb_true_iff, negb_true_iff, bool_decide_eq_false,
    bool_decide_eq_true.
  intros (Hin & (Hne & Hpar) & _). repeat split; auto.
  apply in_map_iff in Hin as ([q x] & <- & Hin).
  apply list_elem_of_In, elem_of_map_to_list in Hin. cbn. eauto.
Qed.

Lemma glob_NoDup s dir f : List.NoDup (glob s dir f).
Proof.
  unfold glob. destruct (is_dir s dir); [|constructor].
  apply List.NoDup_filter, NoDup_ListNoDup.
  exact (NoDup_fst_map_to_list s).
Qed.

Lemma get_snapshots_In s dir p :
  In p (get_snapshots s dir) -> is_Some (s !! p) /\ p <> [] /\ parent p = dir.
Proof.
  unfold get_snapshots. destruct (exists_ s dir); cbn [negb]; [|intros []].
  intros H. apply (Permutation_in _ (sorted_perm _ _)) in H.
  apply filter_In in H as [H _]. now apply glob_In in H.
Qed.

Lemma get_snapshots_NoDup s dir : List.NoDup (get_snapshots s dir).
Proof.
  unfold get_snapshots. destruct (exists_ s dir); cbn [negb]; [|constructor].
  eapply Permutation_NoDup; [symmetry; apply sorted_perm|].
  apply List.NoDup_filter, glob_NoDup.
Qed.

Lemma last_item_snoc {A} (l : list A) x :
  Py.last_item l = Some x -> l = Py.but_last l ++ [x].
Proof.
  unfold Py.last_item, Py.but_last. intros H.
  destruct (rev l) as [|y r] eqn:E; [discriminate|]. injection H as ->.
  apply (f_equal (@rev A)) in E. rewrite rev_involutive in E. cbn in E.
  subst l. now rewrite removelast_last.
Qed.

Lemma In_but_last {A} (l : list A) x : In x (Py.but_last l) -> In x l.
Proof.
  unfold Py.but_last. induction l as [|y l IH]; cbn [removelast]; [easy|].
  destruct l; [intros []|]. intros [->|H]; [now left|right; auto].
Qed.

Lemma last_item_app {A} (l : list A) (x : A) : Py.last_item (l ++ [x]) = Some x.
Proof. unfold Py.last_item. now rewrite rev_unit. Qed.

Lemma last_item_In {A} (l : list A) (x : A) : Py.last_item l = Some x -> In x l.
Proof.
  intros H. rewrite (last_item_snoc l x H). apply in_or_app. right. now left.
Qed.

Lemma cleanup_entity_unfold dir t w :
  cleanup_entity clock strptime dir t w
  = match Py.last_item (get_snapshots (files w) dir) with
    | None => (w, Some tt)
    | Some _ =>
        (current ← now clock;
         prune clock strptime t (is_election_active current)
           (Py.but_last (get_snapshots (files w) dir))) w
    end.
Proof.
  unfold cleanup_entity. unfold mbind at 1, io_bind at 1, observe.
  now destruct (Py.last_item _).
Qed.

Lemma touches_prune t a l :
  touches_only (fun p => In p l) (prune clock strptime t a l).
Proof.
  apply touches_for. intros x Hx.
  apply touches_bind; [apply touches_should_retain|].
  intros [|]; [apply touches_ret|now apply touches_remove].
Qed.

(** What [cleanup_entity] may remove: snapshots other than the last. *)
Lemma cleanup_entity_touches dir t w p :
  files (fst (cleanup_entity clock strptime dir t w)) !! p = files w !! p \/
  (In p (Py.but_last (get_snapshots (files w) dir)) /\
   files (fst (cleanup_entity clock strptime dir t w)) !! p = None).
Proof.
  rewrite cleanup_entity_unfold.
  destruct (Py.last_item _) as [latest|]; [|now left].
  set (l := Py.but_last (get_snapshots (files w) dir)).
  assert (H : touches_only (fun p => In p l)
                (current ← now clock;
                 prune clock strptime t (is_election_active current) l)).
  { apply touches_bind; [apply touches_now|]. intros. apply touches_prune. }
  exact (H w p).
Qed.

(** ... all of them entries of the directory of the entity. *)
Lemma cleanup_entity_touches_dir dir t :
  touches_only (fun p => p <> [] /\ parent p = dir)
    (cleanup_entity clock strptime dir t).
Proof.
  intros w p.
  destruct (cleanup_entity_touches dir t w p) as [E|[H Hn]]; [now left|].
  right. apply In_but_last, get_snapshots_In in H. tauto.
Qed.


(** The newest snapshot is the one that sorts last by name. *)
Lemma get_snapshots_latest_last s dir latest p :
  Py.last_item (get_snapshots s dir) = Some latest ->
  In p (get_snapshots s dir) ->
  Py.leb (name p) (name latest) = true.
Proof.
  intros Hlast Hin. pose proof (last_item_snoc _ _ Hlast) as E.
  assert (Hs : StronglySorted (Py.key_le name) (get_snapshots s dir)).
  { unfold get_snapshots. destruct (negb _); [constructor|apply sorted_ordered]. }
  rewrite E in Hs, Hin. apply StronglySorted_app in Hs as (Hs & _ & _).
  apply in_app_or in Hin as [Hin|[<-|[]]].
  - apply Hs; [now apply list_elem_of_In|now left].
  - unfold Py.leb. now rewrite compare_refl.
Qed.

(** Outside the election months nothing at all is removed: both ['all']
    and ['latest'] make [should_retain_snapshot] answer [True]. *)
Lemma should_retain_inactive snapshot t w :
  should_retain_snapshot clock strptime snapshot t false w = (w, Some true).
Proof.
  unfold should_retain_snapshot.
  destruct (strptime _); [destruct t|]; reflexivity.
Qed.

Lemma prune_inactive t l w :
  prune clock strptime t false l w = (w, Some tt).
Proof.
  unfold prune. induction l as [|x l IH]; cbn [for_]; [reflexivity|].
  unfold mbind at 1, io_bind at 1. unfold mbind at 1, io_bind at 1.
  rewrite should_retain_inactive. exact IH.
Qed.

Lemma cleanup_entity_inactive dir t w :
  is_election_active (clock (ticks w)) = false ->
  files (fst (cleanup_entity clock strptime dir t w)) = files w.
Proof.
  intros Hm. rewrite cleanup_entity_unfold.
  destruct (Py.last_item _) as [latest|]; [|reflexivity].
  unfold mbind, io_bind, now. rewrite Hm. now rewrite prune_inactive.
Qed.

Lemma parent_snoc (d : path) (x : str) : parent (d ++ [x]) = d.
Proof. unfold parent. apply removelast_last. Qed.

Lemma parent_inv (p d : path) : p <> [] -> parent p = d -> exists x, p = d ++ [x].
Proof.
  intros Hne <-. exists (List.last p []). unfold parent.
  now apply app_removelast_last.
Qed.

Lemma cleanup_dirs_touches dir prefix t :
  touches_only (fun p => p <> [] /\ exists d, parent p = dir ++ [d])
    (cleanup_dirs clock strptime dir prefix t).
Proof.
  intros w p.
  set (found := glob (files w) dir (Py.startswith prefix)).
  set (body := fun d : path =>
    isd ← Cleanup.observe (fun s => is_dir s d);
    if isd : bool then cleanup_entity clock strptime d t else mret tt).
  assert (H : touches_only (fun p => p <> [] /\ exists d, parent p = dir ++ [d])
                (for_ found body)).
  { apply touches_for. intros d Hd. apply glob_In in Hd as (_ & Hne & Hpar).
    apply parent_inv in Hpar as [x ->]; [|exact Hne].
    apply touches_bind; [apply touches_observe|].
    intros [|]; [|apply touches_ret].
    eapply touches_weaken; [|apply cleanup_entity_touches_dir].
    intros q [Hq Hp]. split; [exact Hq|]. now exists x. }
  exact (H w p).
Qed.

(** [cleanup_year] reaches the directory of the country, the directories
    below [fylke] and [kommune], and those below [kommune/krets]. *)
Lemma cleanup_year_touches year :
  touches_only (swept year) (cleanup_year clock strptime year).
Proof.
  intros w p.
  set (rest :=
    cleanup_entity clock strptime [year; lit "nasjonalt"; lit "norge"] Nasjonalt ;;
    cleanup_dirs clock strptime [year; lit "fylke"] (lit "fylke-") Fylke ;;
    cleanup_dirs clock strptime [year; lit "kommune"] (lit "kommune-") Kommune ;;
    cleanup_dirs clock strptime [year; lit "kommune"; lit "krets"] (lit "krets-")
      Krets).
  assert (H : touches_only (swept year) rest).
  { unfold rest, swept. repeat (apply touches_bind; [|intros _]).
    - eapply touches_weaken; [|apply cleanup_entity_touches_dir].
      cbn beta. tauto.
    - eapply touches_weaken; [|apply cleanup_dirs_touches].
      cbn beta. intros q (Hq & d & Hd). split; [exact Hq|]. right. exists d. tauto.
    - eapply touches_weaken; [|apply cleanup_dirs_touches].
      cbn beta. intros q (Hq & d & Hd). split; [exact Hq|]. right. exists d. tauto.
    - eapply touches_weaken; [|apply cleanup_dirs_touches].
      cbn beta. intros q (Hq & d & Hd). split; [exact Hq|]. right. exists d. tauto. }
  change (cleanup_year clock strptime year w)
    with ((if exists_ (files w) [year] then rest else mret tt) w).
  destruct (exists_ (files w) [year]); [exact (H w p)|now left].
Qed.

(** Nothing below [{year}/krets] is among them. *)
Lemma not_swept_krets year y tail : ~ swept year (y :: lit "krets" :: tail).
Proof.
  intros [_ H]. unfold parent in H.
  destruct tail as [|c tail]; cbn [removelast] in H.
  - destruct H as [H|[d [H|[H|H]]]]; discriminate H.
  - destruct H as [H|[d [H|[H|H]]]]; injection H; intros; discriminate.
Qed.

(** A sweep of any year leaves everything below [{year}/krets], for every
    year, as it was. *)
Lemma cleanup_year_spares_krets year y tail w :
  files (fst (cleanup_year clock strptime year w)) !! (y :: lit "krets" :: tail)
  = files w !! (y :: lit "krets" :: tail).
Proof.
  destruct (cleanup_year_touches year w (y :: lit "krets" :: tail))
    as [E|[H _]]; [exact E|]. now apply not_swept_krets in H.
Qed.

Lemma name_snoc (d : path) (x : str) : name (d ++ [x]) = x.
Proof. unfold name. apply last_last. Qed.

Lemma same_parent_name (p q : path) :
  p <> [] -> q <> [] -> parent p = parent q -> name p = name q -> p = q.
Proof.
  intros Hp Hq Hpar Hname.
  destruct (parent_inv p _ Hp eq_refl) as [x Ex].
  destruct (parent_inv q _ Hq eq_refl) as [y Ey].
  rewrite Ex, Ey, !name_snoc in Hname. rewrite Ex, Ey, Hpar. now subst.
Qed.

(** The listing of [get_snapshots], entry by entry. *)
Lemma get_snapshots_iff (s : store) (dir q : path) :
  In q (get_snapshots s dir) <->
  exists_ s dir = true /\ is_dir s dir = true /\ is_Some (s !! q) /\
  q <> [] /\ parent q = dir /\
  Py.endswith (lit ".json") (name q) = true /\
  name q <> name dir ++ lit ".json".
Proof.
  unfold get_snapshots, glob.
  destruct (exists_ s dir); cbn [negb]; [|split; [intros []|intros [? _]; easy]].
  assert (Hperm : forall l : list path, In q (Py.sorted name l) <-> In q l).
  { intros l. split; apply Permutation_in; [|symmetry]; apply sorted_perm. }
  rewrite Hperm, filter_In, negb_true_iff, bool_decide_eq_false.
  destruct (is_dir s dir); [|split; [intros [[] _]|intros (_ & ? & _); easy]].
  rewrite filter_In, !andb_true_iff, negb_true_iff, bool_decide_eq_false,
    bool_decide_eq_true, in_map_iff.
  split.
  - intros ((([q' n] & <- & Hin) & (Hne & Hpar) & Hend) & Hname).
    apply list_elem_of_In, elem_of_map_to_list in Hin. cbn in *.
    repeat split; eauto.
  - intros (_ & _ & [n Hn] & Hne & Hpar & Hend & Hname).
    repeat split; auto. exists (q, n). split; [reflexivity|].
    now apply list_elem_of_In, elem_of_map_to_list.
Qed.

Lemma but_last_has_last {A} (l : list A) (x : A) :
  In x (Py.but_last l) -> exists z, Py.last_item l = Some z.
Proof.
  unfold Py.last_item. destruct l as [|y l]; [intros []|]. intros _.
  destruct (rev (y :: l)) as [|z r] eqn:E; [|eauto].
  apply (f_equal (@length _)) in E. rewrite length_rev in E. discriminate E.
Qed.

Section Latest.
Variable s0 : store.
Variable dir latest : path.
Hypothesis Hlast : Py.last_item (get_snapshots s0 dir) = Some latest.

(** As long as files are only removed and the newest snapshot is not, it
    stays the last of every later listing. *)
Lemma latest_stays_last (s : store) (d : path) :
  left_with s0 s latest -> ~ In latest (Py.but_last (get_snapshots s d)).
Proof.
  intros [Hsub Hsame] Hin.
  pose proof (last_item_In _ _ Hlast) as H0.
  apply get_snapshots_iff in H0 as (Hex & Hdir & _ & Hne & Hpar & _).
  destruct (but_last_has_last _ _ Hin) as [z Hz].
  pose proof (last_item_snoc _ _ Hz) as E.
  pose proof (get_snapshots_NoDup s d) as Hnd.
  assert (Hs : StronglySorted (Py.key_le name) (get_snapshots s d)).
  { unfold get_snapshots. destruct (negb _); [constructor|apply sorted_ordered]. }
  rewrite E in Hs, Hnd. apply StronglySorted_app in Hs as (Hle & _ & _).
  specialize (Hle latest z). unfold Py.key_le in Hle.
  pose proof (In_but_last _ _ Hin) as Hl.
  apply get_snapshots_iff in Hl as (_ & _ & _ & _ & Hpar' & _).
  pose proof (last_item_In _ _ Hz) as Hzin.
  apply get_snapshots_iff in Hzin as (_ & _ & Hzs & Hzne & Hzpar & Hzend & Hzname).
  assert (Hd : d = dir) by congruence. subst d.
  assert (Hz0 : In z (get_snapshots s0 dir)).
  { apply get_snapshots_iff. repeat split; auto; congruence. }
  pose proof (get_snapshots_latest_last _ _ _ _ Hlast Hz0) as Hge.
  assert (z = latest) as ->.
  { apply same_parent_name; auto; try congruence.
    apply leb_antisym; [exact Hge|].
    apply Hle; [now apply list_elem_of_In|now left]. }
  apply NoDup_remove_2 in Hnd. apply Hnd. now rewrite app_nil_r.
Qed.

Let kept (s : store) : Prop := left_with s0 s latest.

Lemma preserves_ret {A} (x : A) : preserves kept (mret x).
Proof. intros w H. exact H. Qed.

Lemma preserves_bind {A B} (m : io world A) (f : A -> io world B) :
  preserves kept m -> (forall x, preserves kept (f x)) ->
  preserves kept (m ≫= f).
Proof.
  intros Hm Hf w H. unfold mbind, io_bind. specialize (Hm w H).
  destruct (m w) as [w1 [x|]]; cbn [fst] in *; [|exact Hm].
  now apply Hf.
Qed.

Lemma preserves_for {A} (l : list A) (body : A -> io world unit) :
  (forall x, preserves kept (body x)) -> preserves kept (for_ l body).
Proof.
  intros H. induction l as [|x l IH]; cbn [for_].
  - apply preserves_ret.
  - apply preserves_bind; auto.
Qed.

Lemma preserves_observe {A} (f : store -> A) : preserves kept (observe f).
Proof. intros w H. exact H. Qed.

Lemma cleanup_entity_preserves d t :
  preserves kept (cleanup_entity clock strptime d t).
Proof.
  intros w [Hsub Hsame]. split.
  - intros q Hq. apply Hsub.
    destruct (cleanup_entity_touches d t w q) as [E|[_ E]]; rewrite E in Hq;
      [exact Hq|]. destruct Hq; discriminate.
  - destruct (cleanup_entity_touches d t w latest) as [E|[Hin _]].
    + now rewrite E.
    + exfalso. revert Hin. apply latest_stays_last. now split.
Qed.

Lemma cleanup_dirs_preserves d prefix t :
  preserves kept (cleanup_dirs clock strptime d prefix t).
Proof.
  intros w.
  set (found := glob (files w) d (Py.startswith prefix)).
  set (body := fun e : path =>
    isd ← observe (fun s => is_dir s e);
    if isd : bool then cleanup_entity clock strptime e t else mret tt).
  assert (H : preserves kept (for_ found body)).
  { apply preserves_for. intros e.
    apply preserves_bind; [apply preserves_observe|].
    intros [|]; [apply cleanup_entity_preserves|apply preserves_ret]. }
  exact (H w).
Qed.

Lemma cleanup_year_preserves year :
  preserves kept (cleanup_year clock strptime year).
Proof.
  intros w.
  set (rest :=
    cleanup_entity clock strptime [year; lit "nasjonalt"; lit "norge"] Nasjonalt ;;
    cleanup_dirs clock strptime [year; lit "fylke"] (lit "fylke-") Fylke ;;
    cleanup_dirs clock strptime [year; lit "kommune"] (lit "kommune-") Kommune ;;
    cleanup_dirs clock strptime [year; lit "kommune"; lit "krets"] (lit "krets-")
      Krets).
  assert (H : preserves kept rest).
  { unfold rest. repeat (apply preserves_bind; [|intros _]);
      auto using cleanup_entity_preserves, cleanup_dirs_preserves. }
  change (cleanup_year clock strptime year w)
    with ((if exists_ (files w) [year] then rest else mret tt) w).
  destruct (exists_ (files w) [year]); [exact (H w)|auto].
Qed.

Lemma run_preserves (isdigit : str -> bool) :
  preserves kept (run clock strptime isdigit).
Proof.
  intros w.
  set (found := glob (files w) [] (fun _ => true)).
  set (body := fun year_dir : path =>
    isd ← observe (fun s => is_dir s year_dir);
    if (isd : bool) && isdigit (name year_dir)
    then cleanup_year clock strptime (name year_dir)
    else mret tt).
  assert (H : preserves kept (for_ found body)).
  { apply preserves_for. intros e.
    apply preserves_bind; [apply preserves_observe|]. intros isd.
    destruct (isd && isdigit (name e));
      [apply cleanup_year_preserves|apply preserves_ret]. }
  exact (H w).
Qed.

End Latest.

(** A sweep of a year, and a whole run, leave the newest snapshot of every
    entity where it is. *)
Lemma sweep_keeps_latest (isdigit : str -> bool) dir w latest year :
  Py.last_item (get_snapshots (files w) dir) = Some latest ->
  files (fst (cleanup_year clock strptime year w)) !! latest = files w !! latest /\
  files (fst (run clock strptime isdigit w)) !! latest = files w !! latest.
Proof.
  intros Hlast.
  assert (H0 : left_with (files w) (files w) latest) by (split; auto).
  split.
  - now apply (cleanup_year_preserves (files w) dir latest Hlast year w).
  - now apply (run_preserves (files w) dir latest Hlast isdigit w).
Qed.

(** The same for a whole run of the retention manager, over every year
    directory. *)
Lemma run_spares_krets (isdigit : str -> bool) y tail w :
  files (fst (run clock strptime isdigit w)) !! (y :: lit "krets" :: tail)
  = files w !! (y :: lit "krets" :: tail).
Proof.
  set (found := glob (files w) [] (fun _ => true)).
  set (body := fun year_dir : path =>
    isd ← observe (fun s => is_dir s year_dir);
    if (isd : bool) && isdigit (name year_dir)
    then cleanup_year clock strptime (name year_dir)
    else mret tt).
  assert (H : touches_only (fun p => exists year, swept year p)
                (for_ found body)).
  { apply touches_for. intros d _.
    apply touches_bind; [apply touches_observe|]. intros isd.
    destruct (isd && isdigit (name d)); [|apply touches_ret].
    eapply touches_weaken; [|apply cleanup_year_touches]. cbn beta. eauto. }
  destruct (H w (y :: lit "krets" :: tail)) as [E|[[year Hs] _]]; [exact E|].
  now apply not_swept_krets in Hs.
Qed.

End SweepFacts.

(** ** File names written by [strftime] sort by time *)

Section StrftimeFacts.
Import Py Datetime.

Lemma compare_div10 (n m : N) :
  (n ?= m)%N = match (n / 10 ?= m / 10)%N with
               | Eq => (n mod 10 ?= m mod 10)%N
               | c => c
               end.
Proof.
  pose proof (N.div_mod n 10 ltac:(discriminate)) as Hn.
  pose proof (N.div_mod m 10 ltac:(discriminate)) as Hm.
  pose proof (N.mod_lt n 10 ltac:(discriminate)) as Hn'.
  pose proof (N.mod_lt m 10 ltac:(discriminate)) as Hm'.
  revert Hn Hm Hn' Hm'.
  generalize (n / 10)%N (n mod 10)%N (m / 10)%N (m mod 10)%N.
  intros q1 r1 q2 r2 Hn Hm Hn' Hm'.
  destruct (N.compare_spec q1 q2); destruct (N.compare_spec r1 r2);
    destruct (N.compare_spec n m); try reflexivity; lia.
Qed.

Lemma compare_add48 (a b : N) : (48 + a ?= 48 + b)%N = (a ?= b)%N.
Proof.
  destruct (N.compare_spec a b); destruct (N.compare_spec (48 + a) (48 + b));
    try reflexivity; lia.
Qed.

(** Numbers written with the same number of digits compare as their digits
    do. *)
Lemma compare_digits w : forall n m x y,
  (n < 10 ^ N.of_nat w)%N -> (m < 10 ^ N.of_nat w)%N ->
  compare (digits w n ++ x) (digits w m ++ y)
  = match (n ?= m)%N with Eq => compare x y | c => c end.
Proof.
  induction w as [|w IH]; intros n m x y Hn Hm.
  - cbn in Hn, Hm. assert (n = 0%N) as -> by lia. assert (m = 0%N) as -> by lia.
    reflexivity.
  - rewrite Nat2N.inj_succ, N.pow_succ_r' in Hn, Hm.
    cbn [digits]. rewrite <- !app_assoc. cbn [app].
    rewrite IH by (apply N.Div0.div_lt_upper_bound; assumption).
    cbn [compare]. rewrite compare_add48, (compare_div10 n m).
    now destruct (n / 10 ?= m / 10)%N.
Qed.

Lemma strftime_app d s :
  strftime d ++ s
  = digits 4 (Z.to_N (dt_year d)) ++ 45%N ::
    (digits 2 (Z.to_N (dt_month d)) ++ 45%N ::
     (digits 2 (Z.to_N (dt_day d)) ++ 95%N :: 95%N ::
      (digits 2 (Z.to_N (dt_hour d)) ++
       (digits 2 (Z.to_N (dt_minute d)) ++ s)))).
Proof. unfold strftime. now rewrite <- !app_assoc. Qed.

(** The name that [strftime] gives to an earlier minute sorts first. *)
Lemma strftime_compare d1 d2 s1 s2 :
  full_width d1 -> full_width d2 ->
  compare (strftime d1 ++ s1) (strftime d2 ++ s2)
  = match compare_minutes d1 d2 with Eq => compare s1 s2 | c => c end.
Proof.
  intros (Hy1 & Hm1 & Hd1 & Hh1 & Hn1) (Hy2 & Hm2 & Hd2 & Hh2 & Hn2).
  rewrite !strftime_app.
  unfold compare_minutes, minute_fields. cbn [compare_fields].
  repeat (rewrite compare_digits by (cbn; lia);
          rewrite Z2N.inj_compare by lia;
          cbn [compare]; rewrite ?N.compare_refl).
  destruct (dt_year d1 ?= dt_year d2)%Z; try reflexivity.
  destruct (dt_month d1 ?= dt_month d2)%Z; try reflexivity.
  destruct (dt_day d1 ?= dt_day d2)%Z; try reflexivity.
  destruct (dt_hour d1 ?= dt_hour d2)%Z; try reflexivity.
  destruct (dt_minute d1 ?= dt_minute d2)%Z; reflexivity.
Qed.


End StrftimeFacts.

(** ** The newest snapshot *)


(** *** Examples *)

(** C2.  Outside the election months [cleanup_entity] removes nothing,
    for any tier: [should_retain_snapshot] answers [True] for ['latest'],
    and nothing else removes the older snapshots.  In the example, a sweep
    in March with the policy ['latest'] for a county leaves all five
    snapshots of Oslo, not one. *)
Theorem keep_latest_removes_nothing :
  (forall (clock : nat -> datetime) (strptime : str -> option datetime)
          (dir : path) (t : tier) (w : Cleanup.world),
     Cleanup.is_election_active (clock (Cleanup.ticks w)) = true \/
     Cleanup.files (fst (Cleanup.cleanup_entity clock strptime dir t w))
     = Cleanup.files w) /\
  (let w := {| Cleanup.files := store_2021; Cleanup.ticks := 0 |} in
   let w' := fst (Cleanup.cleanup_entity (fun _ => at_ 2022 3 15 4 0)
                    Datetime.strptime_fixed oslo_fylke Monitor.Fylke w) in
   Cleanup.is_election_active (at_ 2022 3 15 4 0) = false /\
   Cleanup.retention_periods false Monitor.Fylke = Cleanup.Latest /\
   length (Cleanup.get_snapshots store_2021 oslo_fylke) = 5 /\
   length (Cleanup.get_snapshots (Cleanup.files w') oslo_fylke) = 5).
Proof.
  split.
  - intros clock strptime dir t w.
    destruct (Cleanup.is_election_active (clock (Cleanup.ticks w))) eqn:E;
      [now left|right]. now apply cleanup_entity_inactive.
  - vm_compute. repeat split; reflexivity.
Qed.

(** C4.  The sweep never reaches the snapshots of a district.  The monitor
    keeps them below [{year}/krets/{id}], the sweep looks for districts
    below [{year}/kommune/krets]: whatever the store, the clock and the
    year swept, everything below the directory of a district is the same
    after [cleanup_year] and after a whole [run].  In the example, a sweep
    of 2021 in September 2025 leaves one of the five snapshots of the
    municipality and all five of the district. *)
Theorem sweep_misses_districts :
  (forall (clock : nat -> datetime) (strptime : str -> option datetime)
          (isdigit : str -> bool) (swept_year id year : str) (below : path)
          (w : Cleanup.world),
     let p := Monitor.entity_path Monitor.Krets id year ++ below in
     Cleanup.files (fst (Cleanup.cleanup_year clock strptime swept_year w)) !! p
     = Cleanup.files w !! p /\
     Cleanup.files (fst (Cleanup.run clock strptime isdigit w)) !! p
     = Cleanup.files w !! p) /\
  (let w := {| Cleanup.files := store_2021; Cleanup.ticks := 0 |} in
   let w' := fst (Cleanup.cleanup_year (fun _ => at_ 2025 9 20 4 0)
                    Datetime.strptime_fixed (lit "2021") w) in
   Monitor.entity_path Monitor.Krets (lit "krets-03-0301-0001-sentrum")
     (lit "2021") = sentrum_krets /\
   length (Cleanup.get_snapshots store_2021 oslo_kommune) = 5 /\
   length (Cleanup.get_snapshots (Cleanup.files w') oslo_kommune) = 1 /\
   length (Cleanup.get_snapshots store_2021 sentrum_krets) = 5 /\
   length (Cleanup.get_snapshots (Cleanup.files w') sentrum_krets) = 5).
Proof.
  split.
  - intros clock strptime isdigit swept_year id year below w. cbn zeta.
    split.
    + apply cleanup_year_spares_krets.
    + apply run_spares_krets.
  - vm_compute. repeat split; reflexivity.
Qed.



(** ** Saving snapshots *)

Section SaveFacts.
Import Json Datetime Store Monitor.

Lemma resolve_S (f : nat) (s : store) (p : path) :
  resolve (S f) s p = match s !! p with
                      | Some (Symlink t) => resolve f s (parent p ++ t)
                      | _ => Some p
                      end.
Proof. reflexivity. Qed.

Lemma resolve_plain (f : nat) (s : store) (p : path) :
  (forall t, s !! p <> Some (Symlink t)) -> resolve (S f) s p = Some p.
Proof.
  intros H. rewrite resolve_S. destruct (s !! p) as [[]|] eqn:E; try reflexivity.
  now destruct (H target).
Qed.

Lemma is_dir_Dir (s : store) (p : path) : s !! p = Some Dir -> is_dir s p = true.
Proof.
  intros H. unfold is_dir, max_links. rewrite resolve_plain; [now rewrite H|].
  intros t. rewrite H. discriminate.
Qed.

Lemma exists_None (s : store) (p : path) : s !! p = None -> exists_ s p = false.
Proof.
  intros H. unfold exists_, max_links. rewrite resolve_plain; [|now rewrite H].
  rewrite H. apply bool_decide_eq_false. now intros [x Hx].
Qed.

Lemma resolve_link_file (s : store) (p t : path) (d : json) :
  s !! p = Some (Symlink t) -> s !! (parent p ++ t) = Some (File d) ->
  resolve max_links s p = Some (parent p ++ t).
Proof.
  intros Hp Ht. change max_links with (S (S 38)). rewrite resolve_S, Hp.
  apply resolve_plain. intros t'. rewrite Ht. discriminate.
Qed.

Lemma prefixes_In (q p : path) : In q (prefixes p) <-> exists r, p = q ++ r.
Proof.
  revert q. induction p as [|c p IH]; intros q; cbn [prefixes In].
  - split.
    + intros [<-|[]]. now exists [].
    + intros [r E]. symmetry in E. apply app_eq_nil in E as [-> _]. now left.
  - rewrite in_map_iff. split.
    + intros [<-|(q' & <- & Hq')]; [now exists (c :: p)|].
      apply IH in Hq' as [r ->]. now exists r.
    + intros [r E]. destruct q as [|c' q]; [now left|]. right.
      injection E as <- E. exists q. split; [reflexivity|].
      apply IH. now exists r.
Qed.

Lemma mkdir_fold (l : list path) : forall s : store,
  (forall q, In q l -> s !! q = None \/ s !! q = Some Dir) ->
  exists s1 : store,
    fold_left (fun acc q => match acc with
                            | Some s' => mkdir1 s' q
                            | None => None
                            end) l (Some s) = Some s1 /\
    (forall q, In q l -> s1 !! q = Some Dir) /\
    (forall q, ~ In q l -> s1 !! q = s !! q) /\
    (forall q, s !! q = Some Dir -> s1 !! q = Some Dir).
Proof.
  induction l as [|p l IH]; intros s H; cbn [fold_left].
  - exists s. repeat split; auto. intros q [].
  - assert (exists s0 : store, mkdir1 s p = Some s0 /\ s0 !! p = Some Dir /\
              (forall q, q <> p -> s0 !! q = s !! q)) as (s0 & -> & Hp & Hq).
    { unfold mkdir1. destruct (H p (or_introl eq_refl)) as [E|E]; rewrite E.
      - exists (<[p := Dir]> s). split; [reflexivity|]. split.
        + apply lookup_insert_eq.
        + intros q Hne. now apply lookup_insert_ne.
      - rewrite (is_dir_Dir s p E). exists s. auto. }
    destruct (IH s0) as (s1 & E1 & Hin & Hout & Hkeep).
    { intros q Hq0. destruct (decide (q = p)) as [->|Hne]; [now right|].
      rewrite (Hq q Hne). apply H. now right. }
    exists s1. split; [exact E1|]. repeat split.
    + intros q [<-|Hq0]; auto.
    + intros q Hq0. rewrite Hout by (cbn [In] in Hq0; tauto).
      apply Hq. intros ->. apply Hq0. now left.
    + intros q Hq0. apply Hkeep.
      destruct (decide (q = p)) as [->|Hne]; [exact Hp|]. now rewrite Hq.
Qed.

Lemma mkdir_p_ok (s : store) (ep : path) :
  (forall q, In q (prefixes ep) -> s !! q = None \/ s !! q = Some Dir) ->
  exists s1 : store,
    mkdir_p s ep = Some s1 /\
    (forall q, In q (prefixes ep) -> s1 !! q = Some Dir) /\
    (forall q, ~ In q (prefixes ep) -> s1 !! q = s !! q).
Proof.
  intros H. destruct (mkdir_fold (prefixes ep) s H) as (s1 & E & H1 & H2 & _).
  exists s1. auto.
Qed.

(** Where the files of an entity are, relative to its directory. *)
Lemma parent_name (ep : path) : ep <> [] -> parent ep ++ [name ep] = ep.
Proof. intros H. symmetry. now apply app_removelast_last. Qed.

Lemma snapshot_not_prefix (ep : path) (x : str) : ~ In (ep ++ [x]) (prefixes ep).
Proof.
  rewrite prefixes_In. intros [r E]. apply (f_equal (@length _)) in E.
  rewrite !length_app in E. cbn in E. lia.
Qed.

Lemma link_not_prefix (ep : path) : ep <> [] -> ~ In (latest_link ep) (prefixes ep).
Proof.
  intros Hne. rewrite prefixes_In. intros [r E]. unfold latest_link in E.
  rewrite <- (parent_name ep Hne) in E at 1. rewrite <- app_assoc in E.
  apply app_inv_head in E. injection E as E _.
  apply (f_equal (@length _)) in E. rewrite length_app in E.
  cbn in E. lia.
Qed.

Lemma link_not_snapshot (ep : path) (x : str) :
  ep <> [] -> latest_link ep <> ep ++ [x].
Proof.
  intros Hne E. unfold latest_link in E.
  pose proof (f_equal (@length _) (parent_name ep Hne)) as H.
  apply (f_equal (@length _)) in E.
  rewrite length_app in H. rewrite !length_app in E. cbn in E, H. lia.
Qed.

Lemma link_target (ep : path) (x : str) :
  ep <> [] -> parent (latest_link ep) ++ [name ep; x] = ep ++ [x].
Proof.
  intros Hne. unfold latest_link. rewrite parent_snoc.
  transitivity ((parent ep ++ [name ep]) ++ [x]).
  - now rewrite <- app_assoc.
  - now rewrite parent_name.
Qed.

Lemma parent_is_prefix (ep : path) : In (parent ep) (prefixes ep).
Proof.
  apply prefixes_In. destruct ep as [|c ep]; [now exists []|].
  exists [name (c :: ep)]. symmetry. now apply parent_name.
Qed.

Lemma self_is_prefix (ep : path) : In ep (prefixes ep).
Proof. apply prefixes_In. exists []. now rewrite app_nil_r. Qed.

(** What the pointer of a saved entity leads to. *)
Lemma saved_link (s : store) (ep : path) (done : list (json * datetime))
  (e : json * datetime) :
  ep <> [] -> saved s ep done -> Py.last_item done = Some e ->
  exists_ s (latest_link ep) = true /\
  is_symlink s (latest_link ep) = true /\
  read_json s (latest_link ep) = Some (fst e).
Proof.
  intros Hne (_ & _ & Hfiles & _ & Hlink) Hlast. rewrite Hlast in Hlink.
  pose proof (Hfiles e (last_item_In _ _ Hlast)) as Hf.
  rewrite <- (link_target ep (file_name e) Hne) in Hf.
  pose proof (resolve_link_file s _ _ _ Hlink Hf) as Hr.
  unfold exists_, is_symlink, read_json. rewrite Hr, Hf, Hlink.
  repeat split.
Qed.

(** Writing to a place that is free, or taken by a regular file, in a
    directory that exists. *)
Lemma write_json_plain (s : store) (p : path) (d : json) :
  (forall t, s !! p <> Some (Symlink t)) -> s !! p <> Some Dir ->
  is_dir s (parent p) = true ->
  write_json s p d = if Json.encodable d
                     then (<[p := File d]> s, Some tt)
                     else (<[p := Broken]> s, None).
Proof.
  intros Hl Hd Hpar. unfold write_json, max_links.
  rewrite resolve_plain by exact Hl. rewrite Hpar.
  destruct (s !! p) as [[]|]; try reflexivity. now destruct Hd.
Qed.

(** One more snapshot, under a name not used before. *)
Lemma save_snapshot_saved (s : store) (ep : path)
  (done : list (json * datetime)) (d : json) (now : datetime) :
  ep <> [] -> saved s ep done -> Json.encodable d = true ->
  ~ In (file_name (d, now)) (map file_name done) ->
  exists s' : store,
    _save_snapshot d ep (strftime now) s = (s', Some tt) /\
    saved s' ep (done ++ [(d, now)]).
Proof.
  intros Hne Hs Henc Hnew.
  pose proof Hs as (Hdirs & _ & Hfiles & Hnone & Hlink).
  set (snap := ep ++ [strftime now ++ lit ".json"]).
  set (link := latest_link ep) in *.
  set (target := [name ep; strftime now ++ lit ".json"]).
  destruct (mkdir_p_ok s ep Hdirs) as (s1 & Emk & Hd1 & Ho1).
  assert (H1snap : s1 !! snap = None).
  { unfold snap. rewrite Ho1 by apply snapshot_not_prefix. now apply Hnone. }
  assert (Ewr : write_json s1 snap d = (<[snap := File d]> s1, Some tt)).
  { rewrite write_json_plain, Henc; try reflexivity; try now rewrite H1snap.
    unfold snap. rewrite parent_snoc.
    apply is_dir_Dir, Hd1, self_is_prefix. }
  set (s2 := <[snap := File d]> s1) in *.
  assert (H2link : s2 !! link = s !! link).
  { unfold s2, link, snap. rewrite lookup_insert_ne by
      (intros E; symmetry in E; now apply link_not_snapshot in E).
    apply Ho1. now apply link_not_prefix. }
  assert (H2dir : forall q, In q (prefixes ep) -> s2 !! q = Some Dir).
  { intros q Hq. unfold s2, snap. rewrite lookup_insert_ne; [now apply Hd1|].
    intros <-. now apply snapshot_not_prefix in Hq. }
  assert (H2files : forall e, In e done ->
            s2 !! (ep ++ [file_name e]) = Some (File (fst e))).
  { intros e He. unfold s2, snap. rewrite lookup_insert_ne.
    - rewrite Ho1 by apply snapshot_not_prefix. now apply Hfiles.
    - intros E. apply app_inj_tail in E as [_ E].
      apply Hnew. unfold file_name at 1. cbn [snd]. rewrite E.
      now apply in_map. }
  assert (Hpar : is_dir s2 (parent link) = true).
  { apply is_dir_Dir. unfold link, latest_link. rewrite parent_snoc.
    apply H2dir, parent_is_prefix. }
  assert (exists s3 : store,
            _save_snapshot d ep (strftime now) s = (s3, Some tt) /\
            s3 !! link = Some (Symlink target) /\
            forall q, q <> link -> s3 !! q = s2 !! q) as (s3 & E3 & H3link & H3o).
  { unfold _save_snapshot. fold snap link target.
    unfold mbind, io_bind, attempt, inspect, dump, mret, io_ret.
    rewrite Emk, Ewr. fold s2.
    destruct (Py.last_item done) as [e0|] eqn:Elast.
    - assert (Hex : exists_ s2 link = true).
      { unfold exists_. rewrite Hlink in H2link.
        rewrite (resolve_link_file s2 link [name ep; file_name e0] (fst e0)).
        - unfold link. rewrite (link_target ep _ Hne).
          rewrite H2files by now apply last_item_In.
          apply bool_decide_eq_true. eauto.
        - exact H2link.
        - unfold link. rewrite (link_target ep _ Hne).
          apply H2files. now apply last_item_In. }
      rewrite Hex. unfold unlink. rewrite H2link, Hlink.
      unfold symlink_to. rewrite lookup_delete_eq.
      assert (is_dir (delete link s2) (parent link) = true) as ->.
      { apply is_dir_Dir. rewrite lookup_delete_ne.
        - unfold link, latest_link. rewrite parent_snoc.
          apply H2dir, parent_is_prefix.
        - intros E. pose proof (parent_is_prefix ep) as Hp.
          unfold link, latest_link in E. rewrite parent_snoc in E.
          rewrite <- E in Hp. now apply link_not_prefix in Hp. }
      eexists. split; [reflexivity|]. split.
      + apply lookup_insert_eq.
      + intros q Hq. rewrite lookup_insert_ne by congruence.
        now rewrite lookup_delete_ne by congruence.
    - rewrite Hlink in H2link.
      rewrite (exists_None s2 link H2link).
      unfold symlink_to. rewrite H2link, Hpar.
      eexists. split; [reflexivity|]. split.
      + apply lookup_insert_eq.
      + intros q Hq. now rewrite lookup_insert_ne by congruence. }
  exists s3. split; [exact E3|].
  assert (Hpre : forall q, In q (prefixes ep) -> s3 !! q = Some Dir).
  { intros q Hq. rewrite H3o; [now apply H2dir|].
    intros ->. now apply link_not_prefix in Hq. }
  assert (Hsnapshot : forall x, s3 !! (ep ++ [x]) = s2 !! (ep ++ [x])).
  { intros x. apply H3o. intros E. symmetry in E.
    now apply link_not_snapshot in E. }
  repeat split.
  - intros q Hq. right. now apply Hpre.
  - intros _. exact Hpre.
  - intros e He. rewrite Hsnapshot. apply in_app_or in He as [He|[<-|[]]].
    + now apply H2files.
    + unfold file_name. cbn [snd fst]. fold snap. apply lookup_insert_eq.
  - intros x Hx. rewrite Hsnapshot. rewrite map_app, in_app_iff in Hx.
    cbn [map In] in Hx. unfold s2, snap. rewrite lookup_insert_ne.
    + rewrite Ho1 by apply snapshot_not_prefix. apply Hnone. tauto.
    + intros E. apply app_inj_tail in E as [_ E].
      apply Hx. right. left. unfold file_name. cbn [snd]. exact E.
  - rewrite last_item_app. exact H3link.
Qed.

(** One call of [process_entity] whose answer is detected as a change. *)
Lemma process_entity_saved (api : str) (t : tier) (id year : str) (s : store)
  (done : list (json * datetime)) (d : json) (now : datetime) :
  is_Some (entity_url t id year) ->
  saved s (entity_path t id year) done ->
  truthy d = true -> Json.encodable d = true ->
  match Py.last_item done with
  | Some e => _has_meaningful_changes (fst e) d = true
  | None => True
  end ->
  ~ In (file_name (d, now)) (map file_name done) ->
  exists s' : store,
    process_entity api (fun _ => Some d) now t id year s = (s', Some tt) /\
    saved s' (entity_path t id year) (done ++ [(d, now)]).
Proof.
  intros [url Hurl] Hs Hd Henc Hch Hnew.
  assert (Hne : entity_path t id year <> []) by (destruct t; discriminate).
  destruct (save_snapshot_saved s _ done d now Hne Hs Henc Hnew)
    as (s' & E & Hs').
  exists s'. split; [|exact Hs'].
  unfold process_entity. rewrite Hurl, Hd. cbn [negb].
  set (save := _save_snapshot d (entity_path t id year) (strftime now)) in *.
  unfold mbind, io_bind, inspect, load.
  destruct (Py.last_item done) as [e|] eqn:Elast.
  - destruct (saved_link s _ done e Hne Hs Elast) as (E1 & E2 & E3).
    rewrite E1, E2. cbn [andb]. rewrite E3, Hch. exact E.
  - destruct Hs as (_ & _ & _ & _ & Hlink). rewrite Elast in Hlink.
    rewrite (exists_None s _ Hlink). exact E.
Qed.

Lemma process_all_saved (api : str) (t : tier) (id year : str)
  (events : list (json * datetime)) :
  forall (s : store) (done : list (json * datetime)),
  is_Some (entity_url t id year) ->
  saved s (entity_path t id year) done ->
  all_changes (option_map fst (Py.last_item done)) (map fst events) ->
  forallb Json.encodable (map fst events) = true ->
  List.NoDup (map file_name (done ++ events)) ->
  exists s' : store,
    process_all api t id year events s = (s', Some tt) /\
    saved s' (entity_path t id year) (done ++ events).
Proof.
  induction events as [|[d now] events IH]; intros s done Hurl Hs Hch Henc Hnd.
  - exists s. rewrite app_nil_r. auto.
  - cbn [map all_changes fst] in Hch. destruct Hch as (Hd & Hprev & Hch).
    cbn [map fst forallb] in Henc. apply andb_true_iff in Henc as [Hencd Henc].
    rewrite map_app in Hnd. cbn [map] in Hnd.
    pose proof (NoDup_remove_2 _ _ _ Hnd) as Hnew.
    destruct (process_entity_saved api t id year s done d now Hurl Hs Hd Hencd)
      as (s1 & E1 & Hs1).
    { destruct (Py.last_item done); [exact Hprev|exact I]. }
    { intros H. apply Hnew. apply in_or_app. now left. }
    destruct (IH s1 (done ++ [(d, now)]) Hurl Hs1) as (s' & E' & Hs').
    { now rewrite last_item_app. }
    { exact Henc. }
    { rewrite <- app_assoc. cbn [app]. rewrite map_app. exact Hnd. }
    exists s'. rewrite <- app_assoc in Hs'. split; [|exact Hs'].
    unfold process_all in *. cbn [for_]. unfold mbind at 1, io_bind at 1.
    cbn [fst snd]. now rewrite E1.
Qed.

Lemma glob_complete (s : store) (dir : path) (x : str) :
  is_dir s dir = true -> is_Some (s !! (dir ++ [x])) ->
  In (dir ++ [x]) (glob s dir (fun _ => true)).
Proof.
  intros Hdir [n Hn]. unfold glob. rewrite Hdir. apply filter_In. split.
  - apply in_map_iff. exists (dir ++ [x], n). split; [reflexivity|].
    now apply list_elem_of_In, elem_of_map_to_list.
  - rewrite parent_snoc, !andb_true_iff, negb_true_iff, bool_decide_eq_false,
      bool_decide_eq_true. repeat split. now destruct dir.
Qed.

Lemma saved_append_only (s : store) (ep : path)
  (events : list (json * datetime)) :
  List.NoDup (map file_name events) -> saved s ep events ->
  append_only s ep events.
Proof.
  intros Hnd (_ & Hmade & Hfiles & Hnone & Hlink). repeat split.
  - rewrite <- (length_map (fun e => ep ++ [file_name e]) events).
    apply Permutation_length, Permutation.NoDup_Permutation.
    + apply glob_NoDup.
    + rewrite <- (map_map file_name (fun x => ep ++ [x])).
      apply Finite.Injective_map_NoDup; [|exact Hnd].
      intros x y E. now apply app_inj_tail in E.
    + intros p. rewrite in_map_iff. split.
      * intros Hp. apply glob_In in Hp as ([n Hn] & Hne & Hpar).
        apply parent_inv in Hpar as [x ->]; [|exact Hne].
        destruct (List.in_dec (List.list_eq_dec N.eq_dec) x (map file_name events))
          as [Hin|Hout].
        -- apply in_map_iff in Hin as (e & <- & He). eauto.
        -- rewrite (Hnone x Hout) in Hn. discriminate.
      * intros (e & <- & He). apply glob_complete.
        -- apply is_dir_Dir, Hmade; [|apply self_is_prefix].
           intros ->. destruct He.
        -- rewrite (Hfiles e He). eauto.
  - exact Hfiles.
  - intros e He. now rewrite He in Hlink.
Qed.

Lemma fresh_saved (s : store) (ep : path) : fresh s ep -> saved s ep [].
Proof.
  intros (Hdirs & Hnone & Hlink). repeat split; auto.
  - congruence.
  - intros e [].
Qed.

End SaveFacts.

(** C6, as amended.  For an entity that has never been saved, a series of
    fetches that each return a non-empty document differing from the one
    before, every string of which can be written as UTF-8, made in minutes
    that are all different, ends without an error and leaves one file for
    each fetch, holding what that fetch returned, and the pointer on the
    file of the last fetch. *)
Theorem snapshots_append_only (api : str) (t : tier) (id year : str)
  (events : list (json * datetime)) (s : Store.store) :
  is_Some (Monitor.entity_url t id year) ->
  Monitor.fresh s (Monitor.entity_path t id year) ->
  Monitor.all_changes None (map fst events) ->
  forallb Json.encodable (map fst events) = true ->
  List.NoDup (map Monitor.file_name events) ->
  snd (Monitor.process_all api t id year events s) = Some tt /\
  Monitor.append_only (fst (Monitor.process_all api t id year events s))
    (Monitor.entity_path t id year) events.
Proof.
  intros Hurl Hfresh Hch Henc Hnd.
  destruct (process_all_saved api t id year events s [] Hurl
              (fresh_saved _ _ Hfresh) Hch Henc Hnd) as (s' & -> & Hs').
  split; [reflexivity|]. now apply saved_append_only.
Qed.

(** C6 as stated fails, in two ways.  Two fetches in one minute both
    succeed and are detected as changes, yet one file exists afterwards, not
    two, and what the first fetch wrote has been written over by the second.
    And one fetch of a document with a lone surrogate succeeds and is the
    first for its entity, yet [json.dump] raises while it writes: the file
    is left with the beginning of the document, and there is no pointer. *)
Lemma snapshots_not_append_only :
  let api := lit "https://valgresultat.no/api" in
  (let r := Monitor.process_all api Monitor.Fylke (lit "fylke-03-oslo")
              (lit "2021") same_minute ∅ in
   Monitor.fresh ∅ oslo_fylke /\
   Monitor.all_changes None (map fst same_minute) /\
   snd r = Some tt /\
   length (Store.glob (fst r) oslo_fylke (fun _ => true)) = 1 /\
   fst r !! (oslo_fylke ++ [lit "2021-09-13__2100.json"])
     = Some (Store.File (votes 20)) /\
   ~ Monitor.append_only (fst r) oslo_fylke same_minute) /\
  (let r := Monitor.process_all api Monitor.Fylke (lit "fylke-03-oslo")
              (lit "2021") [(lone_surrogate, at_ 2021 9 13 21 0)] ∅ in
   Monitor.all_changes None [lone_surrogate] /\
   snd r = None /\
   fst r !! (oslo_fylke ++ [lit "2021-09-13__2100.json"])
     = Some Store.Broken /\
   fst r !! Monitor.latest_link oslo_fylke = None /\
   ~ Monitor.append_only (fst r) oslo_fylke
       [(lone_surrogate, at_ 2021 9 13 21 0)]).
Proof.
  intros api. split.
  - intros r. split; [|split; [|split; [|split; [|split]]]].
    + repeat split; intros; apply lookup_empty || (left; apply lookup_empty).
    + cbn. repeat split.
    + vm_compute. reflexivity.
    + vm_compute. reflexivity.
    + vm_compute. reflexivity.
    + intros [H _]. vm_compute in H. discriminate H.
  - intros r. split; [|split; [|split; [|split]]].
    + cbn. repeat split.
    + vm_compute. reflexivity.
    + vm_compute. reflexivity.
    + vm_compute. reflexivity.
    + intros (_ & H & _).
      specialize (H _ (or_introl eq_refl)). vm_compute in H. discriminate H.
Qed.

(** Example for the amended C6: the five fetches of election night. *)
Lemma snapshots_append_only_example :
  let api := lit "https://valgresultat.no/api" in
  let r := Monitor.process_all api Monitor.Fylke (lit "fylke-03-oslo")
             (lit "2021") election_night ∅ in
  snd r = Some tt /\ Monitor.append_only (fst r) oslo_fylke election_night.
Proof.
  intros api r.
  apply (snapshots_append_only api Monitor.Fylke (lit "fylke-03-oslo")
           (lit "2021") election_night ∅).
  - vm_compute. eauto.
  - repeat split; intros; apply lookup_empty || (left; apply lookup_empty).
  - cbn. repeat split.
  - vm_compute. reflexivity.
  - apply NoDup_ListNoDup, (bool_decide_unpack _). vm_compute. reflexivity.
Defined.

(* ===================================================================== *)
(** * Further properties *)
(* ===================================================================== *)

(** ** Requests and retries *)
Section FetchFacts.
Import Json Store Http.
Variable respond : str -> nat -> outcome.

Lemma requests_made_pos (o : outcome) (l : list outcome) :
  (1 <= requests_made (o :: l))%nat.
Proof. destruct o; cbn [requests_made]; lia. Qed.

Lemma requests_made_le (l : list outcome) :
  (requests_made l <= length l)%nat.
Proof.
  induction l as [|o l IH]; [reflexivity|].
  destruct o; cbn [requests_made length]; lia.
Qed.

(** The loop from [attempt] on, against the outcomes of the requests it
    makes. *)
Lemma attempts_spec (url : str) : forall (todo attempt : nat) (w : net),
  (attempt + todo = max_retries)%nat ->
  let outcomes := map (fun i => respond url (length (sent w) + i)) (seq 0 todo) in
  let r := attempts respond url attempt todo w in
  snd r = settle outcomes /\
  sent (fst r) = sent w ++ repeat url (requests_made outcomes) /\
  slept (fst r) = slept w ++ map (fun i => 2 ^ Z.of_nat i)%Z
                               (seq attempt (requests_made outcomes - 1)).
Proof.
  induction todo as [|todo IH]; intros attempt w Hsum; cbn zeta.
  - cbn. now rewrite !app_nil_r.
  - cbn [seq map attempts]. unfold get. rewrite Nat.add_0_r.
    destruct (respond url (length (sent w))) eqn:E;
      cbn [settle requests_made fst snd sent slept repeat Nat.sub seq map];
      rewrite ?app_nil_r; auto.
    destruct (Nat.eqb_spec attempt (max_retries - 1)) as [Hlast|Hmore].
    + assert (todo = 0%nat) as -> by (unfold max_retries in *; lia).
      cbn. now rewrite app_nil_r.
    + unfold mbind, io_bind, sleep. cbn [sent slept].
      set (w2 := {| sent := sent w ++ [url];
                    slept := slept w ++ [(retry_delay * 2 ^ Z.of_nat attempt)%Z] |}).
      specialize (IH (S attempt) w2 ltac:(lia)). cbn zeta in IH.
      assert (Hshift :
        map (fun i => respond url (length (sent w2) + i)) (seq 0 todo)
        = map (fun i => respond url (length (sent w) + i)) (seq 1 todo)).
      { rewrite <- seq_shift, map_map. apply map_ext. intros i.
        unfold w2. cbn [sent]. rewrite length_app. cbn [length].
        f_equal. lia. }
      rewrite Hshift in IH.
      set (rest := map (fun i => respond url (length (sent w) + i)) (seq 1 todo)) in *.
      destruct IH as (H1 & H2 & H3). rewrite H1, H2, H3.
      split; [reflexivity|]. split.
      * unfold w2. cbn [sent]. now rewrite <- app_assoc.
      * unfold w2. cbn [slept]. rewrite <- app_assoc. f_equal.
        assert (Hpos : (1 <= requests_made rest)%nat).
        { unfold rest. destruct todo as [|todo];
            [|apply requests_made_pos].
          exfalso. apply Hmore. unfold max_retries in Hsum |- *. lia. }
        replace (requests_made rest - 0)%nat
          with (S (requests_made rest - 1)) by lia.
        cbn [seq map app]. unfold retry_delay. now rewrite Z.mul_1_l.
Qed.

End FetchFacts.

(** X1.  [_fetch_data], in the scraper and in the monitor, makes at least
    one and at most five requests for the same address, whatever the
    answers are, and sleeps 1, 2, 4 and 8 seconds between them: one sleep
    less than there are requests, so never after the last attempt and never
    more than 15 seconds in all. *)
Theorem fetch_data_bounded (respond : str -> nat -> Http.outcome)
  (api_base_url url : str) (w : Http.net) :
  (let r := Http._fetch_data respond url w in
   exists k : nat,
     (1 <= k <= 5)%nat /\
     Http.sent (fst r) = Http.sent w ++ repeat url k /\
     Http.slept (fst r) = Http.slept w ++ firstn (k - 1) [1; 2; 4; 8]%Z) /\
  (let r := Monitor._fetch_data respond api_base_url url w in
   exists k : nat,
     (1 <= k <= 5)%nat /\
     Http.sent (fst r) = Http.sent w ++ repeat (api_base_url ++ url) k /\
     Http.slept (fst r) = Http.slept w ++ firstn (k - 1) [1; 2; 4; 8]%Z).
Proof.
  assert (H : forall u,
    let r := Http.attempts respond u 0 Http.max_retries w in
    exists k : nat,
     (1 <= k <= 5)%nat /\
     Http.sent (fst r) = Http.sent w ++ repeat u k /\
     Http.slept (fst r) = Http.slept w ++ firstn (k - 1) [1; 2; 4; 8]%Z).
  { intros u. cbn zeta.
    destruct (attempts_spec respond u Http.max_retries 0 w eq_refl)
      as (_ & H2 & H3).
    set (outcomes := map _ (seq 0 Http.max_retries)) in *.
    exists (Http.requests_made outcomes).
    assert (Hk : (1 <= Http.requests_made outcomes <= 5)%nat).
    { split; [apply requests_made_pos|].
      etransitivity; [apply requests_made_le|].
      unfold outcomes. now rewrite length_map, length_seq. }
    split; [exact Hk|]. split; [exact H2|]. rewrite H3. f_equal.
    destruct Hk as [Hk1 Hk5].
    destruct (Http.requests_made outcomes) as [|[|[|[|[|[|k]]]]]];
      try lia; reflexivity. }
  split; [apply H|apply (H (api_base_url ++ url))].
Qed.

(** X2.  The value of [_fetch_data] is decided by the first of the next
    five outcomes that is not a [RequestException]: an answer is returned,
    an exception of another class goes to the caller; when all five are
    [RequestException] the value is [None]. *)
Theorem fetch_data_first_outcome (respond : str -> nat -> Http.outcome)
  (api_base_url url : str) (w : Http.net) :
  let outcomes u :=
    map (fun i => respond u (length (Http.sent w) + i)%nat) (seq 0 5) in
  snd (Http._fetch_data respond url w) = Http.settle (outcomes url) /\
  snd (Monitor._fetch_data respond api_base_url url w)
  = Http.settle (outcomes (api_base_url ++ url)).
Proof.
  cbn zeta. split.
  - apply (attempts_spec respond url Http.max_retries 0 w eq_refl).
  - apply (attempts_spec respond (api_base_url ++ url) Http.max_retries 0 w eq_refl).
Qed.

(** ** The directories made at start-up *)
Section InitFacts.
Import Json Store Monitor.

(** A directory that is there with everything above it is left alone. *)
Lemma mkdir_p_there (s : store) (p : path) :
  (forall q, In q (prefixes p) -> s !! q = Some Dir) -> mkdir_p s p = Some s.
Proof.
  unfold mkdir_p. induction (prefixes p) as [|q l IH]; intros H; cbn [fold_left].
  - reflexivity.
  - unfold mkdir1 at 2. rewrite (H q (or_introl eq_refl)).
    rewrite (is_dir_Dir s q (H q (or_introl eq_refl))).
    apply IH. intros q' Hq'. apply H. now right.
Qed.

Lemma mkdirs_made {A : Type} (f : A -> path) (l : list A) : forall s : store,
  (forall x q, In x l -> In q (prefixes (f x)) ->
     s !! q = None \/ s !! q = Some Dir) ->
  exists s' : store,
    for_ l (fun x => attempt (fun s0 => mkdir_p s0 (f x))) s = (s', Some tt) /\
    made (fun q => exists x, In x l /\ In q (prefixes (f x))) s s'.
Proof.
  induction l as [|x l IH]; intros s H; cbn [for_].
  - exists s. split; [reflexivity|]. split.
    + intros q (x & [] & _).
    + intros q. now left.
  - destruct (mkdir_p_ok s (f x)) as (s1 & E1 & Hin1 & Hout1).
    { intros q Hq. apply (H x q); [now left|exact Hq]. }
    assert (H1 : forall q, s1 !! q = s !! q \/
                           (s !! q = None /\ s1 !! q = Some Dir /\
                            In q (prefixes (f x)))).
    { intros q. destruct (decide (q ∈ prefixes (f x))) as [Hq|Hq].
      - apply list_elem_of_In in Hq. rewrite (Hin1 q Hq).
        destruct (H x q (or_introl eq_refl) Hq) as [E|E]; rewrite E; auto.
      - left. apply Hout1. intros Hq'. now apply Hq, list_elem_of_In. }
    destruct (IH s1) as (s' & E' & Hmade & Hframe).
    { intros y q Hy Hq. destruct (H1 q) as [E|(_ & E & _)]; rewrite E; auto.
      apply (H y q); [now right|exact Hq]. }
    exists s'. split.
    { unfold mbind, io_bind, attempt. now rewrite E1. }
    split.
    + intros q (y & [<-|Hy] & Hq).
      * destruct (Hframe q) as [E|(E & _ & _)].
        -- rewrite E. now apply Hin1.
        -- rewrite (Hin1 q Hq) in E. discriminate E.
      * apply Hmade. eauto.
    + intros q. destruct (Hframe q) as [E|(E & Ed & y & Hy & Hq)].
      * rewrite E. destruct (H1 q) as [E1'|(En & Ed & Hq)]; [now left|].
        right. repeat split; auto. exists x. split; [now left|exact Hq].
      * destruct (H1 q) as [E1'|(En & Ed' & Hq')].
        -- right. rewrite <- E1'. repeat split; auto.
           exists y. split; [now right|exact Hq].
        -- rewrite Ed' in E. discriminate E.
Qed.

(** The same loop over directories that are all there. *)
Lemma mkdirs_there {A : Type} (f : A -> path) (l : list A) (s : store) :
  (forall x q, In x l -> In q (prefixes (f x)) -> s !! q = Some Dir) ->
  for_ l (fun x => attempt (fun s0 => mkdir_p s0 (f x))) s = (s, Some tt).
Proof.
  induction l as [|x l IH]; intros H; cbn [for_]; [reflexivity|].
  unfold mbind, io_bind, attempt.
  rewrite mkdir_p_there by (intros q Hq; apply (H x q); [now left|exact Hq]).
  apply IH. intros y q Hy Hq. apply (H y q); [now right|exact Hq].
Qed.

Lemma init_directories_made (years : list str) : forall s : store,
  clear_for years s ->
  exists s' : store,
    _init_directories years s = (s', Some tt) /\
    made (fun q => exists year entity_type,
                     In year years /\ In entity_type entity_types /\
                     In q (prefixes ([year] ++ entity_type))) s s'.
Proof.
  unfold _init_directories.
  induction years as [|year years IH]; intros s H; cbn [for_].
  - exists s. split; [reflexivity|]. split.
    + intros q (y & et & [] & _).
    + intros q. now left.
  - destruct (mkdirs_made (fun et => [year] ++ et) entity_types s)
      as (s1 & E1 & Hmade1 & Hframe1).
    { intros et q Het Hq. apply (H year et q); auto. now left. }
    destruct (IH s1) as (s' & E' & Hmade & Hframe).
    { intros y et q Hy Het Hq.
      destruct (Hframe1 q) as [E|(_ & E & _)]; rewrite E; auto.
      apply (H y et q); auto. now right. }
    exists s'. split.
    { unfold mbind, io_bind. rewrite E1. exact E'. }
    split.
    + intros q (y & et & [<-|Hy] & Het & Hq).
      * destruct (Hframe q) as [E|(E & _ & _)].
        -- rewrite E. apply Hmade1. eauto.
        -- rewrite Hmade1 in E by eauto. discriminate E.
      * apply Hmade. eauto.
    + intros q. destruct (Hframe q) as [E|(E & Ed & y & et & Hy & Het & Hq)].
      * rewrite E. destruct (Hframe1 q) as [E1'|(En & Ed & et & Het & Hq)];
          [now left|].
        right. repeat split; auto. exists year, et. repeat split; auto. now left.
      * destruct (Hframe1 q) as [E1'|(En & Ed' & _)].
        -- right. rewrite <- E1'. repeat split; auto.
           exists y, et. repeat split; auto. now right.
        -- rewrite Ed' in E. discriminate E.
Qed.

Lemma init_directories_there (years : list str) (s : store) :
  (forall year entity_type q,
     In year years -> In entity_type entity_types ->
     In q (prefixes ([year] ++ entity_type)) -> s !! q = Some Dir) ->
  _init_directories years s = (s, Some tt).
Proof.
  unfold _init_directories.
  induction years as [|year years IH]; intros H; cbn [for_]; [reflexivity|].
  unfold mbind, io_bind.
  rewrite (mkdirs_there (fun et => [year] ++ et) entity_types s).
  - apply IH. intros y et q Hy. apply H. now right.
  - intros et q Het Hq. apply (H year et q); auto. now left.
Qed.

End InitFacts.

(** X3.  On a store where nothing but directories stands in the way,
    [_init_directories] ends without an error and leaves the four
    directories of every year; what was in the store is unchanged, and all
    that is new are directories at or above these four.  The directory
    [{year}/krets], below which [process_entity] keeps the districts, is not
    made. *)
Theorem init_directories_makes_directories (election_years : list str)
  (s : Store.store) :
  Monitor.clear_for election_years s ->
  let r := Monitor._init_directories election_years s in
  snd r = Some tt /\
  (forall year entity_type,
     In year election_years -> In entity_type Monitor.entity_types ->
     fst r !! ([year] ++ entity_type) = Some Store.Dir) /\
  (forall q, fst r !! q = s !! q \/
             (s !! q = None /\ fst r !! q = Some Store.Dir /\
              exists year entity_type,
                In year election_years /\ In entity_type Monitor.entity_types /\
                In q (Store.prefixes ([year] ++ entity_type)))) /\
  (forall year id,
     s !! Store.parent (Monitor.entity_path Monitor.Krets id year) = None ->
     fst r !! Store.parent (Monitor.entity_path Monitor.Krets id year) = None).
Proof.
  intros H. cbn zeta.
  destruct (init_directories_made election_years s H) as (s' & -> & Hmade & Hframe).
  cbn [fst snd]. split; [reflexivity|]. split; [|split].
  - intros year et Hy Het. apply Hmade. exists year, et.
    repeat split; auto. apply self_is_prefix.
  - exact Hframe.
  - intros year id Hn.
    destruct (Hframe (Store.parent (Monitor.entity_path Monitor.Krets id year)))
      as [E|(_ & _ & y & et & _ & Het & Hq)]; [now rewrite E|].
    exfalso. unfold Monitor.entity_types in Het. cbn in Het, Hq.
    intuition (subst; cbn in *; intuition discriminate).
Qed.

(** Example: the years 2021 and 2025 on an empty store. *)
Lemma init_directories_makes_directories_example :
  let r := Monitor._init_directories [lit "2021"; lit "2025"] ∅ in
  snd r = Some tt /\
  fst r !! [lit "2025"; lit "kommune"; lit "krets"] = Some Store.Dir /\
  fst r !! [lit "2025"; lit "krets"] = None.
Proof.
  assert (H : Monitor.clear_for [lit "2021"; lit "2025"] ∅).
  { intros year et q _ _ _. left. apply lookup_empty. }
  pose proof (init_directories_makes_directories [lit "2021"; lit "2025"] ∅ H)
    as R.
  cbv zeta in R. destruct R as (H1 & H2 & _ & H4).
  split; [exact H1|]. split.
  - apply (H2 (lit "2025") [lit "kommune"; lit "krets"]).
    + right. now left.
    + unfold Monitor.entity_types. cbn [In]. tauto.
  - apply (H4 (lit "2025") (lit "krets-03-0301-0001-sentrum")).
    apply lookup_empty.
Defined.

(** X4.  [_init_directories] is idempotent: run again on the store that
    it has left, it changes nothing. *)
Theorem init_directories_idempotent (election_years : list str)
  (s : Store.store) :
  Monitor.clear_for election_years s ->
  let s' := fst (Monitor._init_directories election_years s) in
  Monitor._init_directories election_years s' = (s', Some tt).
Proof.
  intros H. cbn zeta.
  destruct (init_directories_made election_years s H) as (s' & -> & Hmade & _).
  cbn [fst]. apply init_directories_there.
  intros year et q Hy Het Hq. apply Hmade. eauto.
Qed.

Lemma init_directories_idempotent_example :
  let s' := fst (Monitor._init_directories [lit "2021"; lit "2025"] ∅) in
  Monitor._init_directories [lit "2021"; lit "2025"] s' = (s', Some tt).
Proof.
  apply (init_directories_idempotent [lit "2021"; lit "2025"] ∅).
  intros year et q _ _ _. left. apply lookup_empty.
Defined.

(** ** The rounds of the polling loop *)
Section LoopFacts.
Import Monitor.

Lemma due_ran_other (current_time time : Z) (t t' : tier) (lr : last_run) :
  t <> t' -> due current_time (ran t' time lr) t = due current_time lr t.
Proof.
  intros Hne. unfold due, ran. now rewrite bool_decide_eq_false_2.
Qed.

(** The tiers, in the order of the four blocks of the loop body. *)
Lemma run_year_due (entities : registry) (current_time : Z)
  (calls : list call) (lr : last_run) (year : str) :
  let r := run_year entities current_time (calls, lr) year in
  fst r = calls ++ concat (map (fun t => if due current_time lr t
                                         then calls_of entities year t else [])
                               [Nasjonalt; Fylke; Kommune; Krets]) /\
  forall t, snd r t = if due current_time lr t then Some current_time else lr t.
Proof.
  cbn zeta. unfold run_year, poll, calls_of.
  set (e := default Scraper.no_entities (Scraper.reg_get year entities)).
  destruct (due current_time lr Nasjonalt) eqn:E1;
    rewrite ?due_ran_other by discriminate;
    destruct (due current_time lr Fylke) eqn:E2;
    rewrite ?due_ran_other by discriminate;
    destruct (due current_time lr Kommune) eqn:E3;
    rewrite ?due_ran_other by discriminate;
    destruct (due current_time lr Krets) eqn:E4;
    cbn [fst snd map concat]; rewrite ?E1, ?E2, ?E3, ?E4, ?app_nil_r;
    (split; [reflexivity|]);
    intros []; rewrite ?E1, ?E2, ?E3, ?E4; reflexivity.
Qed.

Lemma run_round_due (entities : registry) (year : str) (years : list str)
  (current_time : Z) (lr : last_run) :
  let r := run_round entities (year :: years) current_time lr in
  fst r = concat (map (fun t => if due current_time lr t
                                then calls_of entities year t else [])
                      [Nasjonalt; Fylke; Kommune; Krets]) /\
  forall t, snd r t = if due current_time lr t then Some current_time else lr t.
Proof.
  cbn zeta. unfold run_round. cbn [fold_left].
  pose proof (run_year_settles entities current_time [] lr year) as Hs.
  pose proof (run_year_due entities current_time [] lr year) as Hd.
  destruct (run_year entities current_time ([], lr) year) as [calls lr'].
  cbn [fst snd app] in *.
  assert (fold_left (run_year entities current_time) years (calls, lr')
          = (calls, lr')) as ->.
  { induction years as [|y ys IH]; cbn [fold_left]; [reflexivity|].
    now rewrite run_year_settled. }
  exact Hd.
Qed.

Lemma calls_of_tier (entities : registry) (year : str) (t : tier) (c : call) :
  In c (calls_of entities year t) -> fst (fst c) = t.
Proof.
  unfold calls_of. rewrite in_map_iff. now intros (id & <- & _).
Qed.

(** What a round does to one tier: it is processed only when due, and then
    its time is the time of the round. *)
Lemma run_round_tier (entities : registry) (years : list str)
  (current_time : Z) (lr : last_run) :
  let r := run_round entities years current_time lr in
  (forall c, In c (fst r) ->
     due current_time lr (fst (fst c)) = true /\
     snd r (fst (fst c)) = Some current_time) /\
  (forall t, snd r t = lr t \/
             (due current_time lr t = true /\ snd r t = Some current_time)).
Proof.
  destruct years as [|year years]; cbn zeta.
  - split; [intros c []|now left].
  - destruct (run_round_due entities year years current_time lr) as [Hc Hl].
    split.
    + intros c Hin. rewrite Hc in Hin. apply in_concat in Hin as (l & Hl' & Hin).
      apply in_map_iff in Hl' as (t & <- & _).
      destruct (due current_time lr t) eqn:E; [|destruct Hin].
      apply calls_of_tier in Hin. rewrite Hin, Hl, E. auto.
    + intros t. rewrite Hl. destruct (due current_time lr t); auto.
Qed.

Lemma schedules_pos (t : tier) : (0 < schedules t)%Z.
Proof. now destruct t. Qed.

(** A tier processed in a round was last processed at least its interval
    before. *)
Lemma rounds_after (entities : registry) (years : list str) (times : list Z) :
  forall (lr : last_run) (j : nat) (Tj : Z) (cj : list call) (c : call) (T0 : Z),
  nth_error (rounds entities years times lr) j = Some (Tj, cj) -> In c cj ->
  lr (fst (fst c)) = Some T0 ->
  (schedules (fst (fst c)) <= Tj - T0)%Z.
Proof.
  induction times as [|T times IH]; intros lr j Tj cj c T0 Hj Hc H0;
    cbn [rounds] in Hj; [now destruct j|].
  destruct (run_round_tier entities years T lr) as [Hcalls Hlr].
  destruct j as [|j]; cbn [nth_error] in Hj.
  - injection Hj as <- <-. destruct (Hcalls c Hc) as [Hdue _].
    unfold due in Hdue. rewrite H0 in Hdue. cbn in Hdue. lia.
  - destruct (Hlr (fst (fst c))) as [E|[Hdue E]].
    + eapply (IH _ j Tj cj c T0); eauto. now rewrite E.
    + pose proof (IH _ j Tj cj c T Hj Hc E) as H.
      unfold due in Hdue. rewrite H0 in Hdue. cbn in Hdue.
      pose proof (schedules_pos (fst (fst c))). lia.
Qed.

Lemma rounds_spacing (entities : registry) (years : list str) (times : list Z) :
  forall (lr : last_run) (i j : nat) (Ti Tj : Z) (ci cj : list call) (c c' : call),
  (i < j)%nat ->
  nth_error (rounds entities years times lr) i = Some (Ti, ci) ->
  nth_error (rounds entities years times lr) j = Some (Tj, cj) ->
  In c ci -> In c' cj -> fst (fst c) = fst (fst c') ->
  (schedules (fst (fst c)) <= Tj - Ti)%Z.
Proof.
  induction times as [|T times IH]; intros lr i j Ti Tj ci cj c c' Hij Hi Hj Hc Hc' Ht;
    cbn [rounds] in Hi, Hj; [now destruct i|].
  destruct j as [|j]; [lia|]. cbn [nth_error] in Hj.
  destruct i as [|i]; cbn [nth_error] in Hi.
  - injection Hi as <- <-.
    destruct (run_round_tier entities years T lr) as [Hcalls _].
    destruct (Hcalls c Hc) as [_ E]. rewrite Ht in *.
    exact (rounds_after entities years times _ j Tj cj c' T Hj Hc' E).
  - eapply (IH _ i j Ti Tj ci cj c c'); eauto. lia.
Qed.

End LoopFacts.

(** X5.  The calls of one round of the loop: for the first year of the
    list and for each tier that is due when the round starts, in the order
    nasjonalt, fylke, kommune, krets, one call for each entity of the
    registry.  The round leaves its own time as the time of these tiers, and
    the time of the others as it was. *)
Theorem run_round_processes_due_tiers (entities : Scraper.registry)
  (year : str) (years : list str) (current_time : Z) (lr : Monitor.last_run) :
  let r := Monitor.run_round entities (year :: years) current_time lr in
  fst r = concat (map (fun t => if Monitor.due current_time lr t
                                then Monitor.calls_of entities year t else [])
                      [Monitor.Nasjonalt; Monitor.Fylke; Monitor.Kommune;
                       Monitor.Krets]) /\
  forall t, snd r t = if Monitor.due current_time lr t then Some current_time
                      else lr t.
Proof.
  apply run_round_due.
Qed.

(** X6.  The loop keeps the polling intervals: when entities of the same
    tier are processed in two rounds, the later round comes at least the
    interval of the tier after the earlier one. *)
Theorem run_keeps_polling_intervals (entities : Scraper.registry)
  (election_years : list str) (times : list Z) (i j : nat) (Ti Tj : Z)
  (ci cj : list Monitor.call) (c c' : Monitor.call) :
  (i < j)%nat ->
  nth_error (Monitor.run entities election_years times) i = Some (Ti, ci) ->
  nth_error (Monitor.run entities election_years times) j = Some (Tj, cj) ->
  In c ci -> In c' cj -> fst (fst c) = fst (fst c') ->
  (Monitor.schedules (fst (fst c)) <= Tj - Ti)%Z.
Proof.
  apply rounds_spacing.
Qed.

(** Example: Oslo is polled in the first round and, ten minutes later, in
    the third, but not in the round between them. *)
Lemma run_keeps_polling_intervals_example :
  let rounds := Monitor.run two_year_registry [lit "2021"; lit "2025"]
                  three_rounds in
  let oslo := (Monitor.Fylke, lit "fylke-03-oslo", lit "2021") in
  let norge := (Monitor.Nasjonalt, lit "norge", lit "2021") in
  nth_error rounds 0 = Some (1757750400%Z, [norge; oslo]) /\
  nth_error rounds 1 = Some (1757750460%Z, []) /\
  nth_error rounds 2 = Some (1757751000%Z, [norge; oslo]) /\
  (Monitor.schedules Monitor.Fylke <= 1757751000 - 1757750400)%Z.
Proof.
  intros rounds oslo norge.
  split; [reflexivity|]. split; [reflexivity|]. split; [reflexivity|].
  apply (run_keeps_polling_intervals two_year_registry
           [lit "2021"; lit "2025"] three_rounds 0 2 1757750400 1757751000
           [norge; oslo] [norge; oslo] oslo oslo).
  - lia.
  - reflexivity.
  - reflexivity.
  - right. now left.
  - right. now left.
  - reflexivity.
Defined.

(** ** The shape of names and IDs *)
Section SlugFacts.
Import Py Scraper.

Lemma no_lead_startswith (c : N) (s : str) :
  no_lead c s -> startswith [c] s = false.
Proof.
  destruct s as [|x s]; cbn [no_lead startswith]; [reflexivity|].
  intros H. destruct (N.eqb_spec c x) as [->|_]; [now destruct H|reflexivity].
Qed.

Lemma strip_no_lead (c : N) (s : str) : no_lead c (strip c s).
Proof. unfold strip. apply rstrip_no_lead, lstrip_no_lead. Qed.

Lemma strip_no_trail (c : N) (s : str) : no_lead c (rev (strip c s)).
Proof. unfold strip, rstrip. rewrite rev_involutive. apply lstrip_no_lead. Qed.

End SlugFacts.

(** X7.  A normalised name is URL-safe: it is made of alphanumeric
    characters and single hyphens, and neither starts nor ends with a
    hyphen.  This holds for every name, whatever [str.lower] and
    [str.isalnum] do. *)
Theorem normalize_name_url_safe (lower : str -> str) (isalnum : N -> bool)
  (name : str) :
  let slug := Scraper._normalize_name lower isalnum name in
  Forall (fun c => isalnum c = true \/ c = Scraper.ch_hyphen) slug /\
  Py.contains (lit "--") slug = false /\
  Py.startswith (lit "-") slug = false /\
  Py.endswith (lit "-") slug = false.
Proof.
  cbn zeta. unfold Scraper._normalize_name.
  set (s1 := fold_left _ Scraper.replacements (lower name)).
  set (s2 := List.filter _ s1).
  split; [|split; [|split]].
  - apply strip_Forall, collapse_hyphens_Forall; [now right|].
    eapply List.Forall_impl; [|apply filter_Forall_true].
    cbn beta. intros c Hc. apply orb_true_iff in Hc as [Hc|Hc]; [now left|].
    right. now apply N.eqb_eq.
  - apply strip_contains, collapse_hyphens_done. lia.
  - apply (no_lead_startswith 45), strip_no_lead.
  - unfold Py.endswith. apply (no_lead_startswith 45), strip_no_trail.
Qed.

Section UrlFacts.
Import Py Monitor.

Lemma split_length (sep : N) (s : str) :
  length (split sep s) = S (count_occ N.eq_dec s sep).
Proof.
  induction s as [|c s IH]; cbn [split count_occ]; [reflexivity|].
  destruct (N.eqb_spec c sep) as [->|Hne].
  - destruct (N.eq_dec sep sep); [|congruence]. cbn [length]. now rewrite IH.
  - destruct (N.eq_dec c sep); [congruence|].
    destruct (split sep s); cbn [length] in *; [discriminate|exact IH].
Qed.

Lemma but_last_length {A} (l : list A) : length (but_last l) = pred (length l).
Proof.
  unfold but_last. induction l as [|x l IH]; [reflexivity|].
  cbn [removelast]. destruct l; [reflexivity|].
  cbn [length] in *. now rewrite IH.
Qed.

(** The number of pieces that [process_entity] can index. *)
Lemma components_length (entity_id : str) :
  length (components entity_id)
  = Nat.max 1 (count_occ N.eq_dec entity_id 45%N).
Proof.
  unfold components.
  pose proof (split_length 45 entity_id) as Hs.
  pose proof (split_pieces 45 entity_id) as Hp.
  pose proof (but_last_length (split 45 entity_id)) as Hb.
  rewrite Hs in Hb. cbn [pred] in Hb.
  destruct (but_last (split 45 entity_id)) as [|w ws] eqn:E.
  - cbn in Hb |- *. rewrite <- Hb. reflexivity.
  - change (lit "-") with [45%N]. rewrite join_split.
    + rewrite Hb. cbn [length] in Hb. lia.
    + discriminate.
    + rewrite <- E. apply but_last_Forall, Hp.
Qed.

Lemma index_is_Some {A} (l : list A) (i : nat) :
  is_Some (index l i) <-> (i < length l)%nat.
Proof.
  unfold index. rewrite <- nth_error_Some. split.
  - intros [x ->]. discriminate.
  - destruct (nth_error l i); [eauto|congruence].
Qed.

End UrlFacts.

(** X8.  [process_entity] finds the components that it indexes exactly
    when the ID has enough hyphens: none is needed for the country, two for
    a county, three for a municipality, four for a district.  With fewer it
    raises [IndexError]. *)
Theorem entity_url_index_error (t : tier) (entity_id year : str) :
  is_Some (Monitor.entity_url t entity_id year) <->
  (match t with
   | Monitor.Nasjonalt => 0
   | Monitor.Fylke => 2
   | Monitor.Kommune => 3
   | Monitor.Krets => 4
   end <= count_occ N.eq_dec entity_id 45%N)%nat.
Proof.
  pose proof (components_length entity_id) as Hlen.
  pose proof (index_is_Some (Monitor.components entity_id)) as Hi.
  assert (Hn : forall i, (i < length (Monitor.components entity_id))%nat ->
            exists w, Py.index (Monitor.components entity_id) i = Some w).
  { intros i H. apply Hi in H. exact H. }
  assert (Hs : forall i w, Py.index (Monitor.components entity_id) i = Some w ->
            (i < length (Monitor.components entity_id))%nat).
  { intros i w H. apply Hi. rewrite H. eauto. }
  unfold Monitor.entity_url.
  destruct t.
  - split; [lia|eauto].
  - split.
    + intros [u Hu]. apply bind_Some in Hu as (f & Hf & _).
      apply Hs in Hf. lia.
    + intros H. destruct (Hn 1%nat ltac:(lia)) as [f ->]. cbn. eauto.
  - split.
    + intros [u Hu]. apply bind_Some in Hu as (f & _ & Hu).
      apply bind_Some in Hu as (k & Hk & _). apply Hs in Hk. lia.
    + intros H. destruct (Hn 1%nat ltac:(lia)) as [f ->].
      destruct (Hn 2%nat ltac:(lia)) as [k ->]. cbn. eauto.
  - split.
    + intros [u Hu]. apply bind_Some in Hu as (f & _ & Hu).
      apply bind_Some in Hu as (k & _ & Hu).
      apply bind_Some in Hu as (c & Hc & _). apply Hs in Hc. lia.
    + intros H. destruct (Hn 1%nat ltac:(lia)) as [f ->].
      destruct (Hn 2%nat ltac:(lia)) as [k ->].
      destruct (Hn 3%nat ltac:(lia)) as [c ->]. cbn. eauto.
Qed.

(** ** What discovery lists *)
Section DiscoveryFacts.
Import Scraper.
Variable lower : str -> str.
Variable isalnum : N -> bool.
Variable unquote : str -> str.
Variable fetch : str -> option (list link).

Lemma grown_refl (Pf Pk Pc : str -> Prop) (e : year_entities) :
  grown Pf Pk Pc e e.
Proof.
  split; [|split; [|split]]; try tauto;
    exists []; (split; [now rewrite app_nil_r|constructor]).
Qed.

Lemma grown_trans (Pf Pk Pc : str -> Prop) (e1 e2 e3 : year_entities) :
  grown Pf Pk Pc e1 e2 -> grown Pf Pk Pc e2 e3 -> grown Pf Pk Pc e1 e3.
Proof.
  intros ((f1 & Ef1 & Hf1) & (k1 & Ek1 & Hk1) & (c1 & Ec1 & Hc1) & H1)
         ((f2 & Ef2 & Hf2) & (k2 & Ek2 & Hk2) & (c2 & Ec2 & Hc2) & H2).
  split; [|split; [|split]].
  - exists (f1 ++ f2). rewrite Ef2, Ef1, app_assoc. split; [reflexivity|].
    apply Forall_app; auto.
  - exists (k1 ++ k2). rewrite Ek2, Ek1, app_assoc. split; [reflexivity|].
    apply Forall_app; auto.
  - exists (c1 ++ c2). rewrite Ec2, Ec1, app_assoc. split; [reflexivity|].
    apply Forall_app; auto.
  - auto.
Qed.

Lemma NoDup_add_last (l : list str) (x : str) :
  List.NoDup l -> ~ In x l -> List.NoDup (l ++ [x]).
Proof.
  intros Hl Hx. apply NoDup_ListNoDup, NoDup_app. repeat split.
  - now apply NoDup_ListNoDup.
  - intros y Hy Hy'. apply list_elem_of_In in Hy.
    apply list_elem_of_singleton in Hy'. now subst.
  - apply NoDup_singleton.
Qed.

Lemma grown_add_fylke (Pf Pk Pc : str -> Prop) (id : str) (e : year_entities) :
  Pf id -> ~ In id (fylke e) -> grown Pf Pk Pc e (add_fylke id e).
Proof.
  intros HP Hnew. unfold add_fylke, grown, listed_once. cbn.
  split; [|split; [|split]].
  - exists [id]. auto.
  - exists []. now rewrite app_nil_r.
  - exists []. now rewrite app_nil_r.
  - intros (H1 & H2 & H3). repeat split; auto. now apply NoDup_add_last.
Qed.

Lemma grown_add_kommune (Pf Pk Pc : str -> Prop) (id : str) (e : year_entities) :
  Pk id -> ~ In id (kommune e) -> grown Pf Pk Pc e (add_kommune id e).
Proof.
  intros HP Hnew. unfold add_kommune, grown, listed_once. cbn.
  split; [|split; [|split]].
  - exists []. now rewrite app_nil_r.
  - exists [id]. auto.
  - exists []. now rewrite app_nil_r.
  - intros (H1 & H2 & H3). repeat split; auto. now apply NoDup_add_last.
Qed.

Lemma grown_add_krets (Pf Pk Pc : str -> Prop) (id : str) (e : year_entities) :
  Pc id -> ~ In id (krets e) -> grown Pf Pk Pc e (add_krets id e).
Proof.
  intros HP Hnew. unfold add_krets, grown, listed_once. cbn.
  split; [|split; [|split]].
  - exists []. now rewrite app_nil_r.
  - exists []. now rewrite app_nil_r.
  - exists [id]. auto.
  - intros (H1 & H2 & H3). repeat split; auto. now apply NoDup_add_last.
Qed.

Lemma grown_fylke_In (Pf Pk Pc : str -> Prop) (e e' : year_entities) (id : str) :
  grown Pf Pk Pc e e' -> In id (fylke e) -> In id (fylke e').
Proof. intros ((m & -> & _) & _) H. apply in_or_app. now left. Qed.

Lemma for_each_cons {A S : Type} (body : S -> A -> option S) (x : A)
  (l : list A) (s s' : S) :
  for_each body (x :: l) s = Some s' ->
  exists s1, body s x = Some s1 /\ for_each body l s1 = Some s'.
Proof.
  cbn [for_each]. destruct (body s x) as [s1|]; [eauto|discriminate].
Qed.

(** A loop whose every step is in a reflexive and transitive relation. *)
Lemma for_each_related {A S : Type} (R : S -> S -> Prop)
  (body : S -> A -> option S) (l : list A) :
  (forall s, R s s) -> (forall s1 s2 s3, R s1 s2 -> R s2 s3 -> R s1 s3) ->
  (forall s x s', In x l -> body s x = Some s' -> R s s') ->
  forall s s', for_each body l s = Some s' -> R s s'.
Proof.
  intros Hrefl Htrans. induction l as [|x l IH]; intros Hstep s s' H.
  - injection H as <-. apply Hrefl.
  - apply for_each_cons in H as (s1 & H1 & H).
    apply (Htrans s s1 s').
    + apply (Hstep s x); [now left|exact H1].
    + apply IH; [|exact H]. intros s0 y s0' Hy. apply Hstep. now right.
Qed.

(** The loop over the districts of a municipality. *)
Lemma scan_krets_grown (Pf Pk Pc : str -> Prop) (f k : link) (cs : list link) :
  forall e : year_entities,
  (forall c id, In c cs -> _create_krets_id lower isalnum unquote f k c = Some id -> Pc id) ->
  grown Pf Pk Pc e (scan_krets lower isalnum unquote f k cs e).
Proof.
  unfold scan_krets. induction cs as [|c cs IH]; intros e H; cbn [fold_left].
  - apply grown_refl.
  - eapply grown_trans; [|apply IH; intros c' id Hc'; apply H; now right].
    destruct (_create_krets_id lower isalnum unquote f k c) as [id|] eqn:E; [|apply grown_refl].
    case_bool_decide as Hin; [apply grown_refl|].
    apply grown_add_krets.
    + apply (H c id); [now left|exact E].
    + intros Hin'. now apply Hin, list_elem_of_In.
Qed.

(** The loop over the municipalities of a county. *)
Lemma scan_kommune_grown (Pf Pk Pc : str -> Prop) (base : str) (f : link)
  (ks : list link) (e e' : year_entities) :
  (forall k id, In k ks -> _create_kommune_id lower isalnum unquote f k = Some id -> Pk id) ->
  (forall k h cs c id,
     In k ks -> harUnderordnet k = true -> href k = Some h ->
     fetch (base ++ h) = Some cs -> In c cs ->
     _create_krets_id lower isalnum unquote f k c = Some id -> Pc id) ->
  scan_kommune lower isalnum unquote fetch base f ks e = Some e' ->
  grown Pf Pk Pc e e'.
Proof.
  intros Hk Hc. unfold scan_kommune.
  apply for_each_related; [apply grown_refl|apply grown_trans|].
  clear e e'. intros e k e1 Hin.
  destruct (_create_kommune_id lower isalnum unquote f k) as [id|] eqn:E;
    [|intros [= <-]; apply grown_refl].
  case_bool_decide as Hi; [intros [= <-]; apply grown_refl|].
  assert (Hadd : grown Pf Pk Pc e (add_kommune id e)).
  { apply grown_add_kommune.
    - apply (Hk k id); [exact Hin|exact E].
    - intros Hin'. now apply Hi, list_elem_of_In. }
  destruct (harUnderordnet k) eqn:Hu; [|now intros [= <-]].
  destruct (href k) as [h|] eqn:Hh; [|intros [=]].
  destruct (fetch (base ++ h)) as [cs|] eqn:Hf; [|now intros [= <-]].
  intros [= <-]. eapply grown_trans; [exact Hadd|].
  apply scan_krets_grown. intros c id' Hc' E'.
  apply (Hc k h cs c id'); auto.
Qed.

(** The loop over the counties of a year. *)
Lemma scan_fylke_grown (Pf Pk Pc : str -> Prop) (base : str) (fs : list link)
  (e e' : year_entities) :
  (forall f id, In f fs -> _create_fylke_id lower isalnum unquote f = Some id -> Pf id) ->
  (forall f h ks k id,
     In f fs -> href f = Some h -> fetch (base ++ h) = Some ks -> In k ks ->
     _create_kommune_id lower isalnum unquote f k = Some id -> Pk id) ->
  (forall f h ks k h' cs c id,
     In f fs -> href f = Some h -> fetch (base ++ h) = Some ks -> In k ks ->
     harUnderordnet k = true -> href k = Some h' ->
     fetch (base ++ h') = Some cs -> In c cs ->
     _create_krets_id lower isalnum unquote f k c = Some id -> Pc id) ->
  scan_fylke lower isalnum unquote fetch base fs e = Some e' ->
  grown Pf Pk Pc e e'.
Proof.
  intros Hf Hk Hc. unfold scan_fylke.
  apply for_each_related; [apply grown_refl|apply grown_trans|].
  clear e e'. intros e f e1 Hin.
  destruct (_create_fylke_id lower isalnum unquote f) as [id|] eqn:E;
    [|intros [= <-]; apply grown_refl].
  case_bool_decide as Hi; [intros [= <-]; apply grown_refl|].
  assert (Hadd : grown Pf Pk Pc e (add_fylke id e)).
  { apply grown_add_fylke.
    - apply (Hf f id); [exact Hin|exact E].
    - intros Hin'. now apply Hi, list_elem_of_In. }
  destruct (href f) as [h|] eqn:Hh; [|intros [=]].
  destruct (fetch (base ++ h)) as [ks|] eqn:Hfe; [|now intros [= <-]].
  intros Hscan. eapply grown_trans; [exact Hadd|].
  apply (scan_kommune_grown Pf Pk Pc base f ks _ _); [| |exact Hscan].
  - intros k id' Hk' E'. apply (Hk f h ks k id'); auto.
  - intros k h' cs c id' Hk' Hu Hh' Hcs Hc' E'.
    apply (Hc f h ks k h' cs c id'); auto.
Qed.

(** Every county of the document is listed afterwards. *)
Lemma scan_fylke_complete (base : str) (fs : list link) :
  forall e e' : year_entities,
  scan_fylke lower isalnum unquote fetch base fs e = Some e' ->
  forall f id, In f fs -> _create_fylke_id lower isalnum unquote f = Some id -> In id (fylke e').
Proof.
  induction fs as [|f fs IH]; intros e e' H f' id Hin Hid; [destruct Hin|].
  unfold scan_fylke in H. apply for_each_cons in H as (e1 & E1 & H).
  fold (scan_fylke lower isalnum unquote fetch base fs e1) in H.
  destruct Hin as [<-|Hin]; [|exact (IH e1 e' H f' id Hin Hid)].
  assert (H1 : In id (fylke e1)).
  { rewrite Hid in E1. case_bool_decide as Hi.
    - injection E1 as <-. now apply list_elem_of_In.
    - assert (Hadd : In id (fylke (add_fylke id e))).
      { cbn. apply in_or_app. right. now left. }
      destruct (href f) as [h|]; [|discriminate].
      destruct (fetch (base ++ h)) as [ks|]; [|now injection E1 as <-].
      eapply (grown_fylke_In (fun _ => True) (fun _ => True) (fun _ => True));
        [|exact Hadd].
      eapply scan_kommune_grown; [| |exact E1]; auto. }
  eapply (grown_fylke_In (fun _ => True) (fun _ => True) (fun _ => True));
    [|exact H1].
  eapply scan_fylke_grown; [| | |exact H]; auto.
Qed.

(** A document whose counties are all listed adds nothing. *)
Lemma scan_fylke_known (base : str) (fs : list link) (e : year_entities) :
  (forall f id, In f fs -> _create_fylke_id lower isalnum unquote f = Some id -> In id (fylke e)) ->
  scan_fylke lower isalnum unquote fetch base fs e = Some e.
Proof.
  unfold scan_fylke. induction fs as [|f fs IH]; intros H; cbn [for_each];
    [reflexivity|].
  destruct (_create_fylke_id lower isalnum unquote f) as [id|] eqn:E.
  - rewrite bool_decide_eq_true_2.
    + apply IH. intros f' id' Hf'. apply H. now right.
    + apply list_elem_of_In, (H f id); [now left|exact E].
  - apply IH. intros f' id' Hf'. apply H. now right.
Qed.

Lemma reg_get_set_other (year year' : str) (e : year_entities) (reg : registry) :
  year' <> year -> reg_get year' (reg_set year e reg) = reg_get year' reg.
Proof.
  intros Hne. induction reg as [|[y e0] reg IH]; cbn [reg_set reg_get].
  - now rewrite bool_decide_eq_false_2 by congruence.
  - case_bool_decide as Hy; cbn [reg_get].
    + subst y. now rewrite !bool_decide_eq_false_2 by congruence.
    + case_bool_decide; [reflexivity|exact IH].
Qed.

Lemma reg_set_same (year : str) (e : year_entities) (reg : registry) :
  reg_get year reg = Some e -> reg_set year e reg = reg.
Proof.
  induction reg as [|[y e0] reg IH]; cbn [reg_set reg_get]; [discriminate|].
  case_bool_decide as Hy.
  - now intros [= ->].
  - intros H. now rewrite IH.
Qed.

(** One year of the loop: the other years are as they were, and the year
    itself has the entry that the scan of its counties leaves. *)
Lemma scan_year_entry (base : str) (reg reg' : registry) (year : str) :
  scan_year lower isalnum unquote fetch base reg year = Some reg' ->
  (forall year', year' <> year -> reg_get year' reg' = reg_get year' reg) /\
  exists e',
    reg_get year reg' = Some e' /\
    let e := default no_entities (reg_get year reg) in
    match fetch (base ++ lit "/" ++ year ++ lit "/st") with
    | None => e' = e
    | Some fs => scan_fylke lower isalnum unquote fetch base fs e = Some e'
    end.
Proof.
  unfold scan_year.
  set (reg1 := match reg_get year reg with
               | Some _ => reg
               | None => reg_set year no_entities reg
               end).
  assert (H1 : forall year', year' <> year -> reg_get year' reg1 = reg_get year' reg).
  { intros y Hy. unfold reg1. destruct (reg_get year reg); [reflexivity|].
    now apply reg_get_set_other. }
  assert (H2 : reg_get year reg1
               = Some (default no_entities (reg_get year reg))).
  { unfold reg1. destruct (reg_get year reg) as [e|] eqn:E; [exact E|].
    apply reg_get_set. }
  rewrite H2. cbn [default].
  destruct (fetch (base ++ lit "/" ++ year ++ lit "/st")) as [fs|].
  - destruct (scan_fylke _ _ _ _ _ _ _) as [e'|] eqn:E; [|discriminate].
    intros [= <-]. split.
    + intros y Hy. rewrite reg_get_set_other by exact Hy. now apply H1.
    + exists e'. split; [apply reg_get_set|reflexivity].
  - intros [= <-]. split; [exact H1|]. eauto.
Qed.

(** The loop over the years. *)
Lemma scan_years (base : str) (years : list str) :
  forall reg0 reg : registry,
  for_each (scan_year lower isalnum unquote fetch base) years reg0 = Some reg ->
  (forall year, is_Some (reg_get year reg0) \/ In year years ->
                is_Some (reg_get year reg)) /\
  (forall year e,
     reg_get year reg = Some e ->
     (is_Some (reg_get year reg0) \/ In year years) /\
     grown (offered_fylke lower isalnum unquote fetch base year)
           (offered_kommune lower isalnum unquote fetch base year)
           (offered_krets lower isalnum unquote fetch base year)
           (default no_entities (reg_get year reg0)) e) /\
  (forall year e fs f id,
     In year years -> reg_get year reg = Some e ->
     fetch (base ++ lit "/" ++ year ++ lit "/st") = Some fs -> In f fs ->
     _create_fylke_id lower isalnum unquote f = Some id -> In id (fylke e)).
Proof.
  induction years as [|y years IH]; intros reg0 reg; cbn [for_each].
  - intros [= <-]. split; [|split].
    + intros year [H|[]]. exact H.
    + intros year e E. split; [left; rewrite E; eauto|].
      rewrite E. apply grown_refl.
    + intros year e fs f id [].
  - destruct (scan_year lower isalnum unquote fetch base reg0 y) as [reg1|] eqn:E1;
      [|discriminate].
    intros Hrest. destruct (IH reg1 reg Hrest) as (Hkeys & Hgrown & Hcomplete).
    destruct (scan_year_entry base reg0 reg1 y E1) as (Hother & e1 & Hy1 & Hscan).
    cbn zeta in Hscan.
    assert (Hstep : forall year,
              grown (offered_fylke lower isalnum unquote fetch base year)
                    (offered_kommune lower isalnum unquote fetch base year)
                    (offered_krets lower isalnum unquote fetch base year)
                    (default no_entities (reg_get year reg0))
                    (default no_entities (reg_get year reg1))).
    { intros year. destruct (decide (year = y)) as [->|Hne].
      - rewrite Hy1. change (default no_entities (Some e1)) with e1.
        destruct (fetch (base ++ lit "/" ++ y ++ lit "/st")) as [fs|] eqn:Hf.
        + eapply scan_fylke_grown; [| | |exact Hscan].
          * intros f id Hin Hid. exists fs, f. repeat split; auto.
          * intros f h ks k id Hin Hh Hks Hk Hid. exists fs, f, h, ks, k.
            repeat split; auto.
          * intros f h ks k h' cs c id Hin Hh Hks Hk Hu Hh' Hcs Hc Hid.
            exists fs, f, h, ks, k, h', cs, c. repeat split; auto.
        + rewrite Hscan. apply grown_refl.
      - rewrite (Hother year Hne). apply grown_refl. }
    assert (Hkeys1 : forall year, is_Some (reg_get year reg0) \/ year = y ->
                                  is_Some (reg_get year reg1)).
    { intros year [H | ->]; [|rewrite Hy1; eauto].
      destruct (decide (year = y)) as [->|Hne]; [rewrite Hy1; eauto|].
      now rewrite (Hother year Hne). }
    split; [|split].
    + intros year [H|[<-|H]]; apply Hkeys; auto.
    + intros year e E. destruct (Hgrown year e E) as [Hk Hg]. split.
      * destruct Hk as [Hk|Hk]; [|right; now right].
        destruct (decide (year = y)) as [->|Hne]; [right; now left|].
        left. now rewrite <- (Hother year Hne).
      * eapply grown_trans; [apply Hstep|exact Hg].
    + intros year e fs f id [<-|Hin] E Hf Hfin Hid.
      * destruct (Hgrown y e E) as [_ Hg]. rewrite Hy1 in Hg. cbn [default] in Hg.
        apply (grown_fylke_In _ _ _ _ _ _ Hg).
        rewrite Hf in Hscan.
        exact (scan_fylke_complete base fs _ e1 Hscan f id Hfin Hid).
      * exact (Hcomplete year e fs f id Hin E Hf Hfin Hid).
Qed.

Lemma grown_extends (Pf Pk Pc : str -> Prop) (e e' : year_entities) :
  grown Pf Pk Pc e e' -> extends e e'.
Proof.
  intros ((f & Ef & _) & (k & Ek & _) & (c & Ec & _) & _).
  repeat split; eauto.
Qed.

Lemma listed_once_nothing : listed_once no_entities.
Proof. repeat split; constructor. Qed.

(** [scrape_entities] ends with the registry of the loop, or with the empty
    dict after an exception. *)
Lemma scrape_entities_cases (entities : registry) (api : str) (years : list str) :
  let reg := scrape_entities lower isalnum unquote fetch entities api years in
  for_each (scan_year lower isalnum unquote fetch (Py.rstrip 47 api)) years
    entities = Some reg \/
  (for_each (scan_year lower isalnum unquote fetch (Py.rstrip 47 api)) years
     entities = None /\ reg = []).
Proof.
  cbn zeta. unfold scrape_entities.
  destruct (for_each _ years entities); auto.
Qed.

(** A second pass over the same documents. *)
Lemma scan_years_again (base : str) (reg : registry) (years done : list str) :
  (forall year, In year years -> In year done) ->
  (forall year, In year done -> is_Some (reg_get year reg)) ->
  (forall year e fs f id,
     In year done -> reg_get year reg = Some e ->
     fetch (base ++ lit "/" ++ year ++ lit "/st") = Some fs -> In f fs ->
     _create_fylke_id lower isalnum unquote f = Some id -> In id (fylke e)) ->
  for_each (scan_year lower isalnum unquote fetch base) years reg = Some reg.
Proof.
  intros Hsub Hkeys Hcomplete.
  induction years as [|y years IH]; cbn [for_each]; [reflexivity|].
  assert (Hy : In y done) by (apply Hsub; now left).
  destruct (Hkeys y Hy) as [e E].
  assert (scan_year lower isalnum unquote fetch base reg y = Some reg) as ->.
  { unfold scan_year. rewrite E. cbv beta iota zeta. rewrite E.
    change (default no_entities (Some e)) with e.
    destruct (fetch (base ++ lit "/" ++ y ++ lit "/st")) as [fs|] eqn:Hf;
      [|reflexivity].
    rewrite scan_fylke_known.
    - now rewrite reg_set_same by exact E.
    - intros f id Hin Hid. exact (Hcomplete y e fs f id Hy E Hf Hin Hid). }
  apply IH. intros year Hin. apply Hsub. now right.
Qed.

End DiscoveryFacts.

(** X9.  [scrape_entities] lists no ID twice: if no list of the registry
    that it starts from holds an ID twice, none of the registry that it
    returns does. *)
Theorem scrape_entities_lists_once (lower : str -> str) (isalnum : N -> bool)
  (unquote : str -> str) (fetch : str -> option (list Scraper.link))
  (entities : Scraper.registry) (api_base_url : str)
  (election_years : list str) :
  (forall year e, Scraper.reg_get year entities = Some e ->
                  Scraper.listed_once e) ->
  forall year e,
    Scraper.reg_get year
      (Scraper.scrape_entities lower isalnum unquote fetch entities
         api_base_url election_years) = Some e ->
    Scraper.listed_once e.
Proof.
  intros Hold year e.
  destruct (scrape_entities_cases lower isalnum unquote fetch entities
              api_base_url election_years) as [H|[_ ->]]; [|discriminate].
  intros E.
  destruct (scan_years lower isalnum unquote fetch _ _ _ _ H) as (_ & Hg & _).
  destruct (Hg year e E) as [_ (_ & _ & _ & Honce)]. apply Honce.
  destruct (Scraper.reg_get year entities) as [e0|] eqn:E0; cbn [default].
  - now apply (Hold year).
  - apply listed_once_nothing.
Qed.

(** Example: a scraper that knows Oslo discovers Vestland and Bergen. *)
Lemma scrape_entities_lists_once_example :
  let e := {| Scraper.fylke := [lit "fylke-03-oslo"; lit "fylke-46-vestland"];
              Scraper.kommune := [lit "kommune-03-0301-oslo";
                                  lit "kommune-46-4601-bergen"];
              Scraper.krets := [] |} in
  Scraper.reg_get (lit "2021")
    (Scraper.scrape_entities Py.lower_latin1 Py.isalnum_latin1 (fun s => s)
       api_vestland stored_registry (lit "https://valgresultat.no/api")
       [lit "2021"]) = Some e /\
  Scraper.listed_once e.
Proof.
  intros e.
  assert (E : Scraper.reg_get (lit "2021")
                (Scraper.scrape_entities Py.lower_latin1 Py.isalnum_latin1
                   (fun s => s) api_vestland stored_registry
                   (lit "https://valgresultat.no/api") [lit "2021"]) = Some e)
    by (vm_compute; reflexivity).
  split; [exact E|].
  apply (scrape_entities_lists_once Py.lower_latin1 Py.isalnum_latin1
           (fun s => s) api_vestland stored_registry
           (lit "https://valgresultat.no/api") [lit "2021"]) with (year := lit "2021");
    [|exact E].
  intros year e0. unfold stored_registry. cbn [Scraper.reg_get].
  destruct (bool_decide (lit "2021" = year)); [|discriminate].
  intros [= <-]. unfold Scraper.listed_once. cbn.
  repeat split; repeat (constructor; [intros []|]); constructor.
Defined.

(** X10.  Unless it ends with the empty dict, [scrape_entities] only
    adds: every year of the registry that it starts from is in the result
    with its three lists extended at their ends, and every election year has
    an entry. *)
Theorem scrape_entities_only_adds (lower : str -> str) (isalnum : N -> bool)
  (unquote : str -> str) (fetch : str -> option (list Scraper.link))
  (entities : Scraper.registry) (api_base_url : str)
  (election_years : list str) :
  let reg := Scraper.scrape_entities lower isalnum unquote fetch entities
               api_base_url election_years in
  reg = [] \/
  ((forall year e, Scraper.reg_get year entities = Some e ->
      exists e', Scraper.reg_get year reg = Some e' /\ Scraper.extends e e') /\
   (forall year, In year election_years ->
      is_Some (Scraper.reg_get year reg))).
Proof.
  cbn zeta.
  destruct (scrape_entities_cases lower isalnum unquote fetch entities
              api_base_url election_years) as [H|[_ ->]]; [right|now left].
  destruct (scan_years lower isalnum unquote fetch _ _ _ _ H) as (Hk & Hg & _).
  split.
  - intros year e E.
    destruct (Hk year) as [e' E']; [left; rewrite E; eauto|].
    exists e'. split; [exact E'|].
    destruct (Hg year e' E') as [_ Hgrown]. rewrite E in Hgrown.
    now apply grown_extends in Hgrown.
  - intros year Hin. apply Hk. now right.
Qed.

(** X11.  From a new scraper, what [scrape_entities] lists for a year is
    what the API offers for it: the year is an election year, the counties
    are exactly the IDs of the descriptors of the national document, every
    municipality comes from the document of one of these counties, and every
    district from the document of a municipality that says it has
    districts. *)
Theorem scrape_entities_lists_what_is_offered (lower : str -> str)
  (isalnum : N -> bool) (unquote : str -> str)
  (fetch : str -> option (list Scraper.link)) (api_base_url : str)
  (election_years : list str) (year : str) (e : Scraper.year_entities) :
  let base := Py.rstrip 47 api_base_url in
  Scraper.reg_get year
    (Scraper.scrape_entities lower isalnum unquote fetch Scraper.fresh_entities
       api_base_url election_years) = Some e ->
  In year election_years /\
  (forall id, In id (Scraper.fylke e) <->
              Scraper.offered_fylke lower isalnum unquote fetch base year id) /\
  (forall id, In id (Scraper.kommune e) ->
              Scraper.offered_kommune lower isalnum unquote fetch base year id) /\
  (forall id, In id (Scraper.krets e) ->
              Scraper.offered_krets lower isalnum unquote fetch base year id).
Proof.
  cbn zeta.
  destruct (scrape_entities_cases lower isalnum unquote fetch
              Scraper.fresh_entities api_base_url election_years)
    as [H|[_ ->]]; [|discriminate].
  intros E.
  destruct (scan_years lower isalnum unquote fetch _ _ _ _ H) as (_ & Hg & Hc).
  destruct (Hg year e E) as [Hin ((f & Ef & Hf) & (k & Ek & Hk) & (c & Ec & Hcs) & _)].
  cbn in Ef, Ek, Ec. subst.
  assert (Hyear : In year election_years).
  { destruct Hin as [[? Hin]|Hin]; [discriminate Hin|exact Hin]. }
  split; [exact Hyear|]. split; [|split].
  - intros id. split.
    + intros Hid. rewrite List.Forall_forall in Hf. now apply Hf.
    + intros (fs & f0 & Hfs & Hf0 & Hid).
      exact (Hc year e fs f0 id Hyear E Hfs Hf0 Hid).
  - intros id. rewrite List.Forall_forall in Hk. apply Hk.
  - intros id. rewrite List.Forall_forall in Hcs. apply Hcs.
Qed.

(** Example: Vestland is listed because the national document offers it. *)
Lemma scrape_entities_lists_what_is_offered_example :
  Scraper.offered_fylke Py.lower_latin1 Py.isalnum_latin1 (fun s => s)
    api_vestland (Py.rstrip 47 (lit "https://valgresultat.no/api"))
    (lit "2021") (lit "fylke-46-vestland").
Proof.
  pose proof (scrape_entities_lists_what_is_offered Py.lower_latin1
                Py.isalnum_latin1 (fun s => s) api_vestland
                (lit "https://valgresultat.no/api") [lit "2021"] (lit "2021")
                {| Scraper.fylke := [lit "fylke-46-vestland"];
                   Scraper.kommune := [lit "kommune-46-4601-bergen"];
                   Scraper.krets := [] |}) as H.
  cbv zeta in H. destruct H as (_ & Hf & _); [vm_compute; reflexivity|].
  apply Hf. now left.
Defined.

(** X12.  A second pass adds nothing: started from a registry that it
    has returned, and with the API answering as before, [scrape_entities]
    returns that registry. *)
Theorem scrape_entities_second_pass (lower : str -> str) (isalnum : N -> bool)
  (unquote : str -> str) (fetch : str -> option (list Scraper.link))
  (entities : Scraper.registry) (api_base_url : str)
  (election_years : list str) :
  let reg := Scraper.scrape_entities lower isalnum unquote fetch entities
               api_base_url election_years in
  reg <> [] ->
  Scraper.scrape_entities lower isalnum unquote fetch reg api_base_url
    election_years = reg.
Proof.
  cbn zeta.
  destruct (scrape_entities_cases lower isalnum unquote fetch entities
              api_base_url election_years) as [H|[_ ->]]; [|congruence].
  intros _.
  destruct (scan_years lower isalnum unquote fetch _ _ _ _ H) as (Hk & _ & Hc).
  unfold Scraper.scrape_entities at 1.
  rewrite (scan_years_again lower isalnum unquote fetch _ _ election_years
             election_years); auto.
Qed.

Lemma scrape_entities_second_pass_example :
  let reg := Scraper.scrape_entities Py.lower_latin1 Py.isalnum_latin1
               (fun s => s) api_vestland Scraper.fresh_entities
               (lit "https://valgresultat.no/api") [lit "2021"] in
  Scraper.scrape_entities Py.lower_latin1 Py.isalnum_latin1 (fun s => s)
    api_vestland reg (lit "https://valgresultat.no/api") [lit "2021"] = reg.
Proof.
  apply (scrape_entities_second_pass Py.lower_latin1 Py.isalnum_latin1
           (fun s => s) api_vestland Scraper.fresh_entities
           (lit "https://valgresultat.no/api") [lit "2021"]).
  vm_compute. discriminate.
Defined.

(** X13.  A county descriptor with [nr] and [hrefNavn] but without
    [href], first in the national document, ends discovery: the [KeyError]
    reaches the handler of [scrape_entities], which returns the empty dict,
    and [_load_entities] answers with the stored registry and leaves the
    file as it is. *)
Theorem missing_href_aborts_discovery (lower : str -> str)
  (isalnum : N -> bool) (unquote : str -> str)
  (fetch : str -> option (list Scraper.link)) (api_base_url year : str)
  (years : list str) (f : Scraper.link) (fs : list Scraper.link) (id : str)
  (file : Monitor.config_file) :
  fetch (Py.rstrip 47 api_base_url ++ lit "/" ++ year ++ lit "/st")
    = Some (f :: fs) ->
  Scraper._create_fylke_id lower isalnum unquote f = Some id ->
  Scraper.href f = None ->
  Scraper.scrape_entities lower isalnum unquote fetch Scraper.fresh_entities
    api_base_url (year :: years) = [] /\
  Monitor._load_entities lower isalnum unquote fetch api_base_url
    (year :: years) file
  = (match file with Monitor.Stored reg => reg | _ => [] end, file).
Proof.
  intros Hfetch Hid Hhref.
  assert (E : Scraper.scrape_entities lower isalnum unquote fetch
                Scraper.fresh_entities api_base_url (year :: years) = []).
  { unfold Scraper.scrape_entities, Scraper.fresh_entities.
    cbn [Scraper.for_each]. unfold Scraper.scan_year at 1.
    cbn [Scraper.reg_get Scraper.reg_set].
    rewrite bool_decide_eq_true_2 by reflexivity. cbn [default].
    rewrite Hfetch. cbn [Scraper.scan_fylke Scraper.for_each].
    rewrite Hid. cbn [Scraper.no_entities Scraper.fylke].
    rewrite bool_decide_eq_false_2 by apply not_elem_of_nil.
    now rewrite Hhref. }
  split; [exact E|]. unfold Monitor._load_entities. rewrite E.
  now destruct file.
Qed.

(** Example: with Oslo stored, the monitor starts with Oslo. *)
Lemma missing_href_aborts_discovery_example :
  Monitor._load_entities Py.lower_latin1 Py.isalnum_latin1 (fun s => s)
    api_without_href (lit "https://valgresultat.no/api") [lit "2021"]
    (Monitor.Stored stored_registry)
  = (stored_registry, Monitor.Stored stored_registry).
Proof.
  destruct (missing_href_aborts_discovery Py.lower_latin1 Py.isalnum_latin1
              (fun s => s) api_without_href (lit "https://valgresultat.no/api")
              (lit "2021") []
              {| Scraper.nr := Some (lit "46");
                 Scraper.hrefNavn := Some (lit "/2021/st/Vestland");
                 Scraper.href := None;
                 Scraper.harUnderordnet := true |}
              [] (lit "fylke-46-vestland") (Monitor.Stored stored_registry))
    as [_ H]; [reflexivity|vm_compute; reflexivity|reflexivity|exact H].
Defined.

Section BaseUrlFacts.
Import Py.

Lemma rstrip_snoc (c : N) (s : str) : rstrip c (s ++ [c]) = rstrip c s.
Proof.
  unfold rstrip. rewrite rev_app_distr. cbn [rev app lstrip].
  now rewrite N.eqb_refl.
Qed.

Lemma rstrip_repeat (c : N) (n : nat) (s : str) :
  rstrip c (s ++ repeat c n) = rstrip c s.
Proof.
  induction n as [|n IH]; [now rewrite app_nil_r|].
  cbn [repeat]. rewrite repeat_cons, app_assoc, rstrip_snoc. exact IH.
Qed.

End BaseUrlFacts.

(** X14.  Slashes at the end of the API base URL make no difference to
    discovery, nor to [_load_entities]. *)
Theorem trailing_slashes_ignored (lower : str -> str) (isalnum : N -> bool)
  (unquote : str -> str) (fetch : str -> option (list Scraper.link))
  (entities : Scraper.registry) (api_base_url : str) (n : nat)
  (election_years : list str) (file : Monitor.config_file) :
  Scraper.scrape_entities lower isalnum unquote fetch entities
    (api_base_url ++ repeat 47%N n) election_years
  = Scraper.scrape_entities lower isalnum unquote fetch entities
      api_base_url election_years /\
  Monitor._load_entities lower isalnum unquote fetch
    (api_base_url ++ repeat 47%N n) election_years file
  = Monitor._load_entities lower isalnum unquote fetch
      api_base_url election_years file.
Proof.
  unfold Monitor._load_entities, Scraper.scrape_entities.
  now rewrite rstrip_repeat.
Qed.

(** ** What counts as a change *)
Section ChangeFacts.
Import Json Monitor.

Lemma dumps_sorted_eq_sort_keys (a b : json) :
  dumps_sorted a = dumps_sorted b <-> sort_keys a = sort_keys b.
Proof.
  rewrite !dumps_sorted_sort_keys. split; [apply dumps_inj|now intros ->].
Qed.

Lemma has_changes_false (a b : json) :
  _has_meaningful_changes a b = false <-> sort_keys a = sort_keys b.
Proof.
  unfold _has_meaningful_changes, clean_data.
  rewrite negb_false_iff, bool_decide_eq_true. apply dumps_sorted_eq_sort_keys.
Qed.

End ChangeFacts.

(** X15.  No field is left out of the comparison: two dicts that differ
    in the value under one key, whichever key it is, are reported as changed
    exactly when the two values are.  (The lines of [clean_data] that would
    drop [tidspunkt] are never reached.) *)
Theorem change_under_any_key_is_detected (before after : list (str * json))
  (key : str) (old_value new_value : json) :
  NoDup (map fst (before ++ (key, old_value) :: after)) ->
  Monitor._has_meaningful_changes
    (Json.JDict (before ++ (key, old_value) :: after))
    (Json.JDict (before ++ (key, new_value) :: after))
  = Monitor._has_meaningful_changes old_value new_value.
Proof.
  intros Hnd.
  destruct (Monitor._has_meaningful_changes old_value new_value) eqn:E.
  - apply not_false_iff_true. intros H. apply not_false_iff_true in E.
    apply E. clear E. apply has_changes_false in H. apply has_changes_false.
    cbn [Json.sort_keys] in H. injection H as H.
    set (h := fun kv : str * json => (fst kv, Json.sort_keys (snd kv))) in *.
    assert (Hp : Permutation (map h (before ++ (key, old_value) :: after))
                             (map h (before ++ (key, new_value) :: after))).
    { etransitivity; [symmetry; apply (sorted_perm fst)|].
      rewrite H. apply sorted_perm. }
    assert (Hin : In (h (key, old_value))
                     (map h (before ++ (key, new_value) :: after))).
    { apply (Permutation_in _ Hp), in_map, in_or_app. right. now left. }
    apply in_map_iff in Hin as ([k v] & Hkv & Hin).
    unfold h in Hkv. cbn [fst snd] in Hkv. injection Hkv as -> Hv.
    apply in_app_or in Hin as [Hin|[Hin|Hin]].
    + exfalso. rewrite map_app in Hnd. apply NoDup_app in Hnd as (_ & Hd & _).
      apply (Hd key).
      * apply list_elem_of_In. apply (in_map fst) in Hin. exact Hin.
      * cbn [map fst]. left.
    + now injection Hin as <-.
    + exfalso. rewrite map_app in Hnd. apply NoDup_app in Hnd as (_ & _ & Hd).
      cbn [map fst] in Hd. apply NoDup_cons in Hd as [Hd _].
      apply Hd, list_elem_of_In. apply (in_map fst) in Hin. exact Hin.
  - apply has_changes_false in E. apply has_changes_false.
    cbn [Json.sort_keys]. rewrite !map_app. cbn [map fst snd]. now rewrite E.
Qed.

(** Example: a new [tidspunkt] alone is a change. *)
Lemma change_under_any_key_is_detected_example :
  Monitor._has_meaningful_changes
    (Json.JDict [(lit "stemmer", Json.JInt 10);
                 (lit "tidspunkt", Json.JStr (lit "2021-09-13T21:00"))])
    (Json.JDict [(lit "stemmer", Json.JInt 10);
                 (lit "tidspunkt", Json.JStr (lit "2021-09-13T21:05"))])
  = true.
Proof.
  etransitivity.
  - apply (change_under_any_key_is_detected [(lit "stemmer", Json.JInt 10)] []
             (lit "tidspunkt") (Json.JStr (lit "2021-09-13T21:00"))
             (Json.JStr (lit "2021-09-13T21:05"))).
    apply (bool_decide_unpack _). vm_compute. reflexivity.
  - vm_compute. reflexivity.
Defined.

(** ** The pointer to the newest snapshot *)
Section PointerFacts.
Import Json Datetime Store Monitor.

Lemma has_changes_refl (d : json) : _has_meaningful_changes d d = false.
Proof.
  unfold _has_meaningful_changes. now rewrite bool_decide_eq_true_2.
Qed.

Lemma has_changes_trans (a b c : json) :
  _has_meaningful_changes a b = false -> _has_meaningful_changes b c = false ->
  _has_meaningful_changes a c = false.
Proof.
  unfold _has_meaningful_changes.
  rewrite !negb_false_iff, !bool_decide_eq_true. congruence.
Qed.

(** Nothing is in the way in an empty store. *)
Lemma tracked_empty (ep : path) : tracked ∅ ep.
Proof.
  split; [|split].
  - intros q _. left. apply lookup_empty.
  - intros x. rewrite lookup_empty. split; [|intros target]; discriminate.
  - left. apply lookup_empty.
Qed.

(** What the pointer of a tracked entity leads to. *)
Lemma tracked_link (s : store) (ep : path) (x : str) (d : json) :
  ep <> [] ->
  s !! latest_link ep = Some (Symlink [name ep; x]) ->
  s !! (ep ++ [x]) = Some (File d) ->
  exists_ s (latest_link ep) = true /\
  is_symlink s (latest_link ep) = true /\
  read_json s (latest_link ep) = Some d.
Proof.
  intros Hne Hlink Hf.
  rewrite <- (link_target ep x Hne) in Hf.
  pose proof (resolve_link_file s _ _ _ Hlink Hf) as Hr.
  unfold exists_, is_symlink, read_json. rewrite Hr, Hf, Hlink.
  repeat split.
Qed.

(** The first two steps of [_save_snapshot] in the directory of a tracked
    entity, under any name: the directories are made, and the write ends
    as the document decides. *)
Lemma save_snapshot_written (s : store) (ep : path) (d : json) (ts : str) :
  ep <> [] -> tracked s ep ->
  exists s1 : store,
    mkdir_p s ep = Some s1 /\
    (forall q, In q (prefixes ep) -> s1 !! q = Some Dir) /\
    (forall q, ~ In q (prefixes ep) -> s1 !! q = s !! q) /\
    write_json s1 (ep ++ [ts ++ lit ".json"]) d
    = if Json.encodable d
      then (<[ep ++ [ts ++ lit ".json"] := File d]> s1, Some tt)
      else (<[ep ++ [ts ++ lit ".json"] := Broken]> s1, None).
Proof.
  intros Hne (Hdirs & Hfiles & _).
  destruct (mkdir_p_ok s ep Hdirs) as (s1 & Emk & Hd1 & Ho1).
  exists s1. split; [exact Emk|]. split; [exact Hd1|]. split; [exact Ho1|].
  destruct (Hfiles (ts ++ lit ".json")) as [Hnd Hnl].
  apply write_json_plain.
  - intros t. rewrite Ho1 by apply snapshot_not_prefix. apply Hnl.
  - now rewrite Ho1 by apply snapshot_not_prefix.
  - rewrite parent_snoc. apply is_dir_Dir, Hd1, self_is_prefix.
Qed.

(** [_save_snapshot] of a document that can be written. *)
Lemma save_snapshot_tracked (s : store) (ep : path) (d : json) (ts : str) :
  ep <> [] -> tracked s ep -> Json.encodable d = true ->
  exists s' : store,
    _save_snapshot d ep ts s = (s', Some tt) /\
    s' !! latest_link ep = Some (Symlink [name ep; ts ++ lit ".json"]) /\
    s' !! (ep ++ [ts ++ lit ".json"]) = Some (File d) /\
    (forall q, In q (prefixes ep) -> s' !! q = Some Dir) /\
    (forall q, ~ In q (prefixes ep) -> q <> ep ++ [ts ++ lit ".json"] ->
               q <> latest_link ep -> s' !! q = s !! q) /\
    tracked s' ep.
Proof.
  intros Hne Htr Henc.
  destruct (save_snapshot_written s ep d ts Hne Htr)
    as (s1 & Emk & Hd1 & Ho1 & Ewr).
  rewrite Henc in Ewr. destruct Htr as (Hdirs & Hfiles & Hlink).
  set (snap := ep ++ [ts ++ lit ".json"]) in *.
  set (link := latest_link ep) in *.
  set (target := [name ep; ts ++ lit ".json"]).
  set (s2 := <[snap := File d]> s1) in *.
  assert (Hls : link <> snap).
  { unfold link, snap. now apply link_not_snapshot. }
  assert (H2link : s2 !! link = s !! link).
  { unfold s2. rewrite lookup_insert_ne by congruence.
    apply Ho1. now apply link_not_prefix. }
  assert (H2dir : forall q, In q (prefixes ep) -> s2 !! q = Some Dir).
  { intros q Hq. unfold s2, snap. rewrite lookup_insert_ne; [now apply Hd1|].
    intros <-. now apply snapshot_not_prefix in Hq. }
  assert (H2snap : s2 !! snap = Some (File d)) by apply lookup_insert_eq.
  assert (H2other : forall x, ep ++ [x] <> snap ->
                              s2 !! (ep ++ [x]) = s !! (ep ++ [x])).
  { intros x Hx. unfold s2. rewrite lookup_insert_ne by congruence.
    apply Ho1, snapshot_not_prefix. }
  assert (H2files : forall x, s2 !! (ep ++ [x]) <> Some Dir /\
                              forall t, s2 !! (ep ++ [x]) <> Some (Symlink t)).
  { intros x. destruct (decide (ep ++ [x] = snap)) as [->|Hx].
    - rewrite H2snap. split; [|intros t]; discriminate.
    - rewrite H2other by exact Hx. apply Hfiles. }
  assert (Hpl : parent link = parent ep).
  { unfold link, latest_link. apply parent_snoc. }
  assert (Hplp : ~ In link (prefixes ep)) by now apply link_not_prefix.
  assert (Hpar : s2 !! parent link = Some Dir).
  { rewrite Hpl. apply H2dir, parent_is_prefix. }
  assert (Hpne : parent link <> link).
  { intros E. apply Hplp. rewrite <- E, Hpl. apply parent_is_prefix. }
  assert (exists s3 : store,
            _save_snapshot d ep ts s = (s3, Some tt) /\
            s3 !! link = Some (Symlink target) /\
            forall q, q <> link -> s3 !! q = s2 !! q) as (s3 & E3 & H3link & H3o).
  { unfold _save_snapshot. fold snap link target.
    unfold mbind, io_bind, attempt, inspect, dump, mret, io_ret.
    rewrite Emk, Ewr.
    destruct Hlink as [Hlink|(x & d0 & Hlink & Hx)].
    - rewrite Hlink in H2link.
      rewrite (exists_None s2 link H2link).
      unfold symlink_to. rewrite H2link, (is_dir_Dir _ _ Hpar).
      eexists. split; [reflexivity|]. split.
      + apply lookup_insert_eq.
      + intros q Hq. now rewrite lookup_insert_ne by congruence.
    - rewrite Hlink in H2link.
      assert (exists d1, s2 !! (ep ++ [x]) = Some (File d1)) as [d1 E].
      { destruct (decide (ep ++ [x] = snap)) as [Ex|Ex].
        - rewrite Ex. eauto.
        - rewrite H2other by exact Ex. eauto. }
      destruct (tracked_link s2 ep x d1 Hne H2link E) as (Hex & _ & _).
      fold link in Hex. rewrite Hex. unfold unlink. rewrite H2link.
      unfold symlink_to. rewrite lookup_delete_eq.
      assert (is_dir (delete link s2) (parent link) = true) as ->.
      { apply is_dir_Dir. now rewrite lookup_delete_ne by congruence. }
      eexists. split; [reflexivity|]. split.
      + apply lookup_insert_eq.
      + intros q Hq. rewrite lookup_insert_ne by congruence.
        now rewrite lookup_delete_ne by congruence. }
  exists s3. split; [exact E3|].
  assert (Hpre : forall q, In q (prefixes ep) -> s3 !! q = Some Dir).
  { intros q Hq. rewrite H3o; [now apply H2dir|]. intros ->. now apply Hplp. }
  assert (Hsnapshot : forall x, s3 !! (ep ++ [x]) = s2 !! (ep ++ [x])).
  { intros x. apply H3o. intros E. symmetry in E.
    now apply link_not_snapshot in E. }
  assert (H3snap : s3 !! snap = Some (File d)).
  { unfold snap. now rewrite Hsnapshot. }
  split; [exact H3link|]. split; [exact H3snap|].
  split; [exact Hpre|]. split.
  - intros q Hq Hqs Hql. rewrite H3o by exact Hql.
    unfold s2. rewrite lookup_insert_ne by congruence. now apply Ho1.
  - split; [|split].
    + intros q Hq. right. now apply Hpre.
    + intros x. rewrite Hsnapshot. apply H2files.
    + right. exists (ts ++ lit ".json"), d. split; [exact H3link|exact H3snap].
Qed.

(** [_save_snapshot] of a document that cannot be written: it raises in
    [json.dump], before the pointer is looked at. *)
Lemma save_snapshot_raises (s : store) (ep : path) (d : json) (ts : str) :
  ep <> [] -> tracked s ep -> Json.encodable d = false ->
  exists s' : store,
    _save_snapshot d ep ts s = (s', None) /\
    s' !! (ep ++ [ts ++ lit ".json"]) = Some Broken /\
    (forall q, In q (prefixes ep) -> s' !! q = Some Dir) /\
    (forall q, ~ In q (prefixes ep) -> q <> ep ++ [ts ++ lit ".json"] ->
               s' !! q = s !! q).
Proof.
  intros Hne Htr Henc.
  destruct (save_snapshot_written s ep d ts Hne Htr)
    as (s1 & Emk & Hd1 & Ho1 & Ewr).
  rewrite Henc in Ewr.
  exists (<[ep ++ [ts ++ lit ".json"] := Broken]> s1). split; [|split; [|split]].
  - unfold _save_snapshot.
    unfold mbind, io_bind, attempt, inspect, dump, mret, io_ret.
    now rewrite Emk, Ewr.
  - apply lookup_insert_eq.
  - intros q Hq. rewrite lookup_insert_ne; [now apply Hd1|].
    intros <-. now apply snapshot_not_prefix in Hq.
  - intros q Hq Hqs. rewrite lookup_insert_ne by congruence. now apply Ho1.
Qed.

(** One call of [process_entity] that is answered with a document: it is
    saved unless the pointer leads to a document that shows no change. *)
Lemma process_entity_step (api : str) (fetch : str -> option json)
  (now : datetime) (t : tier) (id year url : str) (d : json) (s : store) :
  let ep := entity_path t id year in
  entity_url t id year = Some url -> fetch (api ++ url) = Some d ->
  truthy d = true -> tracked s ep ->
  process_entity api fetch now t id year s
  = match read_json s (latest_link ep) with
    | Some previous =>
        if _has_meaningful_changes previous d
        then _save_snapshot d ep (strftime now) s
        else (s, Some tt)
    | None => _save_snapshot d ep (strftime now) s
    end.
Proof.
  intros ep Hurl Hfetch Hd Htr.
  assert (Hne : ep <> []) by (unfold ep; destruct t; discriminate).
  unfold process_entity. fold ep. rewrite Hurl, Hfetch, Hd. cbn [negb].
  unfold mbind, io_bind, inspect, load.
  destruct Htr as (_ & _ & [Hlink|(x & d0 & Hlink & Hx)]).
  - rewrite (exists_None s _ Hlink). cbn [andb].
    unfold read_json, max_links. rewrite resolve_plain by (intros ?; now rewrite Hlink).
    now rewrite Hlink.
  - destruct (tracked_link s ep x d0 Hne Hlink Hx) as (E1 & E2 & E3).
    rewrite E1, E2. cbn [andb]. rewrite E3.
    now destruct (_has_meaningful_changes d0 d).
Qed.

(** The same when the document can be written. *)
Lemma process_entity_tracked (api : str) (fetch : str -> option json)
  (now : datetime) (t : tier) (id year url : str) (d : json) (s : store) :
  let ep := entity_path t id year in
  entity_url t id year = Some url -> fetch (api ++ url) = Some d ->
  truthy d = true -> Json.encodable d = true -> tracked s ep ->
  exists s' : store,
    process_entity api fetch now t id year s = (s', Some tt) /\
    tracked s' ep /\
    (exists x d', s' !! latest_link ep = Some (Symlink [name ep; x]) /\
                  s' !! (ep ++ [x]) = Some (File d') /\
                  _has_meaningful_changes d' d = false) /\
    (forall q, s' !! q = s !! q \/
               (q = ep ++ [strftime now ++ lit ".json"] /\
                s' !! q = Some (File d)) \/
               (q = latest_link ep /\
                s' !! q = Some (Symlink [name ep; strftime now ++ lit ".json"])) \/
               (In q (prefixes ep) /\ s !! q = None /\ s' !! q = Some Dir)).
Proof.
  intros ep Hurl Hfetch Hd Henc Htr.
  assert (Hne : ep <> []) by (unfold ep; destruct t; discriminate).
  assert (Hsave : exists s' : store,
            _save_snapshot d ep (strftime now) s = (s', Some tt) /\
            tracked s' ep /\
            (exists x d', s' !! latest_link ep = Some (Symlink [name ep; x]) /\
                          s' !! (ep ++ [x]) = Some (File d') /\
                          _has_meaningful_changes d' d = false) /\
            (forall q, s' !! q = s !! q \/
               (q = ep ++ [strftime now ++ lit ".json"] /\
                s' !! q = Some (File d)) \/
               (q = latest_link ep /\
                s' !! q = Some (Symlink [name ep; strftime now ++ lit ".json"])) \/
               (In q (prefixes ep) /\ s !! q = None /\ s' !! q = Some Dir))).
  { destruct (save_snapshot_tracked s ep d (strftime now) Hne Htr Henc)
      as (s' & E & Hl & Hs & Hp & Ho & Htr').
    exists s'. split; [exact E|]. split; [exact Htr'|]. split.
    - exists (strftime now ++ lit ".json"), d.
      repeat split; auto. apply has_changes_refl.
    - intros q.
      destruct (decide (q = ep ++ [strftime now ++ lit ".json"])) as [->|Hq1];
        [right; left; auto|].
      destruct (decide (q = latest_link ep)) as [->|Hq2];
        [right; right; left; auto|].
      destruct (decide (q ∈ prefixes ep)) as [Hq3|Hq3].
      + apply list_elem_of_In in Hq3. destruct Htr as (Hdirs & _).
        destruct (Hdirs q Hq3) as [E0|E0].
        * right. right. right. auto.
        * left. now rewrite E0, Hp.
      + left. apply Ho; auto. intros H. now apply Hq3, list_elem_of_In. }
  rewrite (process_entity_step api fetch now t id year url d s Hurl Hfetch Hd Htr).
  fold ep.
  pose proof Htr as (_ & _ & [Hlink|(x & d0 & Hlink & Hx)]).
  - unfold read_json, max_links.
    rewrite resolve_plain by (intros ?; now rewrite Hlink).
    rewrite Hlink. exact Hsave.
  - destruct (tracked_link s ep x d0 Hne Hlink Hx) as (_ & _ & E3).
    rewrite E3.
    destruct (_has_meaningful_changes d0 d) eqn:Ech; [exact Hsave|].
    exists s. split; [reflexivity|]. split; [exact Htr|]. split.
    + exists x, d0. auto.
    + intros q. now left.
Qed.

(** The same when the document cannot be written: nothing happens when the
    pointer leads to a document that shows no change, and otherwise the call
    raises and leaves the beginning of a snapshot. *)
Lemma process_entity_raises (api : str) (fetch : str -> option json)
  (now : datetime) (t : tier) (id year url : str) (d : json) (s : store) :
  let ep := entity_path t id year in
  entity_url t id year = Some url -> fetch (api ++ url) = Some d ->
  truthy d = true -> Json.encodable d = false -> tracked s ep ->
  match read_json s (latest_link ep) with
  | Some previous => _has_meaningful_changes previous d = true
  | None => True
  end ->
  exists s' : store,
    process_entity api fetch now t id year s = (s', None) /\
    s' !! (ep ++ [strftime now ++ lit ".json"]) = Some Broken /\
    (forall q, In q (prefixes ep) -> s' !! q = Some Dir) /\
    (forall q, ~ In q (prefixes ep) ->
               q <> ep ++ [strftime now ++ lit ".json"] -> s' !! q = s !! q).
Proof.
  intros ep Hurl Hfetch Hd Henc Htr Hch.
  assert (Hne : ep <> []) by (unfold ep; destruct t; discriminate).
  rewrite (process_entity_step api fetch now t id year url d s Hurl Hfetch Hd Htr).
  fold ep.
  destruct (read_json s (latest_link ep)) as [previous|];
    [rewrite Hch|]; now apply save_snapshot_raises.
Qed.

End PointerFacts.

(** X16.  After a poll that was answered with a non-empty document, every
    string of which can be written as UTF-8, the pointer of the entity leads
    to a snapshot that holds this document up to the order of keys: the one
    just written, or the previous one when nothing had changed.  The
    directory stays as [process_entity] keeps it, so this holds poll after
    poll, whatever the times of the polls. *)
Theorem pointer_serves_what_was_fetched (api_base_url : str)
  (fetch : str -> option json) (now : datetime) (t : tier)
  (entity_id year url : str) (data : json) (s : Store.store) :
  let entity_path := Monitor.entity_path t entity_id year in
  Monitor.entity_url t entity_id year = Some url ->
  fetch (api_base_url ++ url) = Some data -> Json.truthy data = true ->
  Json.encodable data = true ->
  Monitor.tracked s entity_path ->
  let r := Monitor.process_entity api_base_url fetch now t entity_id year s in
  snd r = Some tt /\ Monitor.tracked (fst r) entity_path /\
  exists served,
    Store.read_json (fst r) (Monitor.latest_link entity_path) = Some served /\
    Monitor._has_meaningful_changes served data = false.
Proof.
  intros ep Hurl Hfetch Hd Henc Htr. cbn zeta.
  destruct (process_entity_tracked api_base_url fetch now t entity_id year url
              data s Hurl Hfetch Hd Henc Htr)
    as (s' & -> & Htr' & (x & d' & Hl & Hx & Hch) & _).
  cbn [fst snd]. split; [reflexivity|]. split; [exact Htr'|].
  exists d'. split; [|exact Hch].
  apply (tracked_link s' ep x d'); auto.
  unfold ep. destruct t; discriminate.
Qed.

(** Example: the first poll of Oslo. *)
Lemma pointer_serves_what_was_fetched_example :
  let r := Monitor.process_entity (lit "https://valgresultat.no/api")
             (fun _ => Some (votes 10)) (at_ 2021 9 13 21 0) Monitor.Fylke
             (lit "fylke-03-oslo") (lit "2021") ∅ in
  snd r = Some tt /\ Monitor.tracked (fst r) oslo_fylke /\
  exists served,
    Store.read_json (fst r) (Monitor.latest_link oslo_fylke) = Some served /\
    Monitor._has_meaningful_changes served (votes 10) = false.
Proof.
  apply (pointer_serves_what_was_fetched (lit "https://valgresultat.no/api")
           (fun _ => Some (votes 10)) (at_ 2021 9 13 21 0) Monitor.Fylke
           (lit "fylke-03-oslo") (lit "2021") (lit "/2021/st/03") (votes 10) ∅).
  - vm_compute. reflexivity.
  - reflexivity.
  - reflexivity.
  - reflexivity.
  - apply tracked_empty.
Defined.

(** X17.  One call of [process_entity], whatever the request returns,
    changes at most three things: it writes the snapshot file of the current
    minute (in full, or its beginning when [json.dump] raises), sets the
    pointer to that file, and makes the directories above that were missing.
    It removes nothing and touches no other snapshot. *)
Theorem process_entity_writes_one_snapshot (api_base_url : str)
  (fetch : str -> option json) (now : datetime) (t : tier)
  (entity_id year : str) (s : Store.store) :
  let entity_path := Monitor.entity_path t entity_id year in
  let file := Datetime.strftime now ++ lit ".json" in
  Monitor.tracked s entity_path ->
  let s' := fst (Monitor.process_entity api_base_url fetch now t entity_id
                   year s) in
  forall q,
    s' !! q = s !! q \/
    (q = entity_path ++ [file] /\
     ((exists data, s' !! q = Some (Store.File data)) \/
      s' !! q = Some Store.Broken)) \/
    (q = Monitor.latest_link entity_path /\
     s' !! q = Some (Store.Symlink [Store.name entity_path; file])) \/
    (In q (Store.prefixes entity_path) /\ s !! q = None /\
     s' !! q = Some Store.Dir).
Proof.
  intros ep file Htr. cbn zeta.
  destruct (Monitor.entity_url t entity_id year) as [url|] eqn:Hurl;
    [|unfold Monitor.process_entity; rewrite Hurl; now left].
  destruct (fetch (api_base_url ++ url)) as [d|] eqn:Hfetch;
    [|unfold Monitor.process_entity; rewrite Hurl, Hfetch; now left].
  destruct (Json.truthy d) eqn:Hd;
    [|unfold Monitor.process_entity; rewrite Hurl, Hfetch, Hd; now left].
  destruct (Json.encodable d) eqn:Henc.
  - destruct (process_entity_tracked api_base_url fetch now t entity_id year
                url d s Hurl Hfetch Hd Henc Htr) as (s' & -> & _ & _ & Hframe).
    cbn [fst]. intros q. destruct (Hframe q) as [H|[[H1 H2]|[H|H]]]; eauto 6.
  - rewrite (process_entity_step api_base_url fetch now t entity_id year url d
               s Hurl Hfetch Hd Htr). fold ep.
    assert (Hne : ep <> []) by (unfold ep; destruct t; discriminate).
    destruct (save_snapshot_raises s ep d (Datetime.strftime now) Hne Htr
                Henc) as (s' & E & Hsnap & Hp & Ho).
    assert (Hsave : forall q,
              s' !! q = s !! q \/
              (q = ep ++ [file] /\
               ((exists data, s' !! q = Some (Store.File data)) \/
                s' !! q = Some Store.Broken)) \/
              (q = Monitor.latest_link ep /\
               s' !! q = Some (Store.Symlink [Store.name ep; file])) \/
              (In q (Store.prefixes ep) /\ s !! q = None /\
               s' !! q = Some Store.Dir)).
    { intros q.
      destruct (decide (q = ep ++ [file])) as [->|Hq1]; [right; left; auto|].
      destruct (decide (q ∈ Store.prefixes ep)) as [Hq3|Hq3].
      - apply list_elem_of_In in Hq3. destruct Htr as (Hdirs & _).
        destruct (Hdirs q Hq3) as [E0|E0].
        + right. right. right. auto.
        + left. now rewrite E0, Hp.
      - left. apply Ho; auto. intros H. now apply Hq3, list_elem_of_In. }
    destruct (Store.read_json s (Monitor.latest_link ep)) as [previous|].
    + destruct (Monitor._has_meaningful_changes previous d).
      * rewrite E. exact Hsave.
      * intros q. now left.
    + rewrite E. exact Hsave.
Qed.

(** Example: the second poll of Oslo leaves the snapshot of the first. *)
Lemma process_entity_writes_one_snapshot_example :
  let s' := fst (Monitor.process_entity (lit "https://valgresultat.no/api")
                   (fun _ => Some (votes 20)) (at_ 2021 9 13 21 10)
                   Monitor.Fylke (lit "fylke-03-oslo") (lit "2021")
                   first_poll) in
  s' !! (oslo_fylke ++ [lit "2021-09-13__2100.json"])
  = Some (Store.File (votes 10)).
Proof.
  assert (Htr : Monitor.tracked first_poll
                  (Monitor.entity_path Monitor.Fylke (lit "fylke-03-oslo")
                     (lit "2021"))).
  { destruct (process_entity_tracked (lit "https://valgresultat.no/api")
                (fun _ => Some (votes 10)) (at_ 2021 9 13 21 0) Monitor.Fylke
                (lit "fylke-03-oslo") (lit "2021") (lit "/2021/st/03")
                (votes 10) ∅) as (s1 & E & Htr & _).
    - vm_compute. reflexivity.
    - reflexivity.
    - reflexivity.
    - reflexivity.
    - apply tracked_empty.
    - unfold first_poll. rewrite E. exact Htr. }
  pose proof (process_entity_writes_one_snapshot
                (lit "https://valgresultat.no/api") (fun _ => Some (votes 20))
                (at_ 2021 9 13 21 10) Monitor.Fylke (lit "fylke-03-oslo")
                (lit "2021") first_poll Htr
                (oslo_fylke ++ [lit "2021-09-13__2100.json"])) as H.
  cbv zeta in H. destruct H as [H|[[H _]|[[H _]|[H _]]]].
  - etransitivity; [exact H|]. vm_compute. reflexivity.
  - vm_compute in H. discriminate H.
  - vm_compute in H. discriminate H.
  - exfalso. vm_compute in H. intuition discriminate.
Defined.

(** X18.  After a poll that was answered with a non-empty document, every
    string of which can be written as UTF-8, a poll that is answered with
    the same document, or with one that differs from it in the order of keys
    only, writes nothing. *)
Theorem polling_again_writes_nothing (api_base_url : str)
  (fetch fetch' : str -> option json) (now now' : datetime) (t : tier)
  (entity_id year url : str) (data data' : json) (s : Store.store) :
  Monitor.entity_url t entity_id year = Some url ->
  fetch (api_base_url ++ url) = Some data -> Json.truthy data = true ->
  Json.encodable data = true ->
  fetch' (api_base_url ++ url) = Some data' ->
  Monitor._has_meaningful_changes data data' = false ->
  Monitor.tracked s (Monitor.entity_path t entity_id year) ->
  let s1 := fst (Monitor.process_entity api_base_url fetch now t entity_id
                   year s) in
  Monitor.process_entity api_base_url fetch' now' t entity_id year s1
  = (s1, Some tt).
Proof.
  intros Hurl Hfetch Hd Henc Hfetch' Hsame Htr. cbn zeta.
  destruct (process_entity_tracked api_base_url fetch now t entity_id year url
              data s Hurl Hfetch Hd Henc Htr)
    as (s1 & -> & Htr1 & (x & d' & Hl & Hx & Hch) & _).
  cbn [fst].
  assert (Hne : Monitor.entity_path t entity_id year <> [])
    by (destruct t; discriminate).
  destruct (tracked_link s1 _ x d' Hne Hl Hx) as (E1 & E2 & E3).
  unfold Monitor.process_entity. rewrite Hurl, Hfetch'.
  destruct (Json.truthy data'); cbn [negb]; [|reflexivity].
  unfold mbind, Store.io_bind, Monitor.inspect, Monitor.load.
  rewrite E1, E2. cbn [andb]. rewrite E3.
  now rewrite (has_changes_trans d' data data' Hch Hsame).
Qed.

(** Example: Oslo polled again ten minutes later, with the same count. *)
Lemma polling_again_writes_nothing_example :
  Monitor.process_entity (lit "https://valgresultat.no/api")
    (fun _ => Some (votes 10)) (at_ 2021 9 13 21 10) Monitor.Fylke
    (lit "fylke-03-oslo") (lit "2021") first_poll
  = (first_poll, Some tt).
Proof.
  apply (polling_again_writes_nothing (lit "https://valgresultat.no/api")
           (fun _ => Some (votes 10)) (fun _ => Some (votes 10))
           (at_ 2021 9 13 21 0) (at_ 2021 9 13 21 10) Monitor.Fylke
           (lit "fylke-03-oslo") (lit "2021") (lit "/2021/st/03")
           (votes 10) (votes 10) ∅).
  - vm_compute. reflexivity.
  - reflexivity.
  - reflexivity.
  - reflexivity.
  - reflexivity.
  - vm_compute. reflexivity.
  - apply tracked_empty.
Defined.

(** X19.  When the pointer of an entity is a link to a file that is
    missing, a poll that brings a document which can be written as UTF-8
    writes the snapshot and then raises: [exists()] is false for a dangling
    link, so the link is not removed first, and [symlink_to] finds it in its
    way.  The pointer stays on the missing file. *)
Theorem dangling_pointer_raises (api_base_url : str)
  (fetch : str -> option json) (now : datetime) (t : tier)
  (entity_id year url : str) (data : json) (x : str) (s : Store.store) :
  let entity_path := Monitor.entity_path t entity_id year in
  let file := Datetime.strftime now ++ lit ".json" in
  Monitor.entity_url t entity_id year = Some url ->
  fetch (api_base_url ++ url) = Some data -> Json.truthy data = true ->
  Json.encodable data = true ->
  (forall q, In q (Store.prefixes entity_path) ->
             s !! q = None \/ s !! q = Some Store.Dir) ->
  s !! (entity_path ++ [file]) = None ->
  s !! Monitor.latest_link entity_path
    = Some (Store.Symlink [Store.name entity_path; x]) ->
  s !! (entity_path ++ [x]) = None -> x <> file ->
  let r := Monitor.process_entity api_base_url fetch now t entity_id year s in
  snd r = None /\
  fst r !! (entity_path ++ [file]) = Some (Store.File data) /\
  fst r !! Monitor.latest_link entity_path
    = Some (Store.Symlink [Store.name entity_path; x]) /\
  fst r !! (entity_path ++ [x]) = None.
Proof.
  intros ep file Hurl Hfetch Hd Henc Hdirs Hsnap Hlink Hx Hxf. cbn zeta.
  assert (Hne : ep <> []) by (unfold ep; destruct t; discriminate).
  subst file.
  set (snap := ep ++ [Datetime.strftime now ++ lit ".json"]) in *.
  set (link := Monitor.latest_link ep) in *.
  assert (Hres : forall s0 : Store.store,
            s0 !! link = Some (Store.Symlink [Store.name ep; x]) ->
            s0 !! (ep ++ [x]) = None ->
            Store.exists_ s0 link = false).
  { intros s0 H1 H2. unfold Store.exists_.
    change Store.max_links with (S (S 38)). rewrite resolve_S, H1.
    unfold link. rewrite (link_target ep x Hne).
    rewrite resolve_plain by (intros t0; now rewrite H2).
    rewrite H2. apply bool_decide_eq_false. now intros [? ?]. }
  destruct (mkdir_p_ok s ep Hdirs) as (s1 & Emk & Hd1 & Ho1).
  assert (H1snap : s1 !! snap = None).
  { unfold snap. now rewrite Ho1 by apply snapshot_not_prefix. }
  assert (Ewr : Store.write_json s1 snap data
                = (<[snap := Store.File data]> s1, Some tt)).
  { rewrite write_json_plain, Henc; try reflexivity; try now rewrite H1snap.
    unfold snap. rewrite parent_snoc.
    apply is_dir_Dir, Hd1, self_is_prefix. }
  set (s2 := <[snap := Store.File data]> s1) in *.
  assert (Hls : link <> snap).
  { unfold link, snap. now apply link_not_snapshot. }
  assert (H2link : s2 !! link = Some (Store.Symlink [Store.name ep; x])).
  { unfold s2. rewrite lookup_insert_ne by congruence.
    rewrite Ho1 by now apply link_not_prefix. exact Hlink. }
  assert (H2x : s2 !! (ep ++ [x]) = None).
  { unfold s2, snap. rewrite lookup_insert_ne.
    - now rewrite Ho1 by apply snapshot_not_prefix.
    - intros E. apply app_inj_tail in E as [_ E]. congruence. }
  unfold Monitor.process_entity. fold ep. rewrite Hurl, Hfetch, Hd. cbn [negb].
  unfold mbind, Store.io_bind, Monitor.inspect. cbv zeta. fold link.
  rewrite (Hres s Hlink Hx).
  cbn [andb]. unfold Monitor._save_snapshot. fold snap link.
  unfold mbind, Store.io_bind, Monitor.attempt, Monitor.inspect, Monitor.dump,
    mret, Store.io_ret.
  rewrite Emk, Ewr. rewrite (Hres s2 H2link H2x).
  unfold Store.symlink_to. rewrite H2link. cbn [fst snd].
  repeat split; auto. apply lookup_insert_eq.
Qed.

(** Example: the snapshot of 21:00 has been removed by hand; the poll of
    21:10 raises. *)
Lemma dangling_pointer_raises_example :
  snd (Monitor.process_entity (lit "https://valgresultat.no/api")
         (fun _ => Some (votes 20)) (at_ 2021 9 13 21 10) Monitor.Fylke
         (lit "fylke-03-oslo") (lit "2021") dangling_store) = None.
Proof.
  pose proof (dangling_pointer_raises (lit "https://valgresultat.no/api")
                (fun _ => Some (votes 20)) (at_ 2021 9 13 21 10) Monitor.Fylke
                (lit "fylke-03-oslo") (lit "2021") (lit "/2021/st/03")
                (votes 20) (lit "2021-09-13__2100.json") dangling_store) as H.
  cbv zeta in H. apply H.
  - vm_compute. reflexivity.
  - reflexivity.
  - reflexivity.
  - reflexivity.
  - intros q Hq. cbn in Hq.
    destruct Hq as [<-|[<-|[<-|[<-|[]]]]]; right; vm_compute; reflexivity.
  - vm_compute. reflexivity.
  - vm_compute. reflexivity.
  - vm_compute. reflexivity.
  - intros E. vm_compute in E. discriminate E.
Defined.

(** X25.  A document with a string that cannot be written as UTF-8 (a lone
    surrogate) makes the poll raise, unless the pointer already leads to a
    document that shows no change against it: [json.dump] raises while it
    writes, so the snapshot file of the current minute is left with the
    beginning of the document, the pointer is not touched, and nothing else
    changes but for the directories that had to be made. *)
Theorem unwritable_document_raises (api_base_url : str)
  (fetch : str -> option json) (now : datetime) (t : tier)
  (entity_id year url : str) (data : json) (s : Store.store) :
  let entity_path := Monitor.entity_path t entity_id year in
  let file := Datetime.strftime now ++ lit ".json" in
  Monitor.entity_url t entity_id year = Some url ->
  fetch (api_base_url ++ url) = Some data -> Json.truthy data = true ->
  Json.encodable data = false ->
  Monitor.tracked s entity_path ->
  (forall previous,
     Store.read_json s (Monitor.latest_link entity_path) = Some previous ->
     Monitor._has_meaningful_changes previous data = true) ->
  let r := Monitor.process_entity api_base_url fetch now t entity_id year s in
  snd r = None /\
  fst r !! (entity_path ++ [file]) = Some Store.Broken /\
  Store.read_json (fst r) (entity_path ++ [file]) = None /\
  fst r !! Monitor.latest_link entity_path
  = s !! Monitor.latest_link entity_path /\
  forall q, q <> entity_path ++ [file] ->
    fst r !! q = s !! q \/
    (In q (Store.prefixes entity_path) /\ s !! q = None /\
     fst r !! q = Some Store.Dir).
Proof.
  intros ep file Hurl Hfetch Hd Henc Htr Hch. cbn zeta.
  assert (Hne : ep <> []) by (unfold ep; destruct t; discriminate).
  destruct (process_entity_raises api_base_url fetch now t entity_id year
              url data s Hurl Hfetch Hd Henc Htr)
    as (s' & -> & Hsnap & Hp & Ho).
  { fold ep. destruct (Store.read_json s (Monitor.latest_link ep)) eqn:E;
      [now apply Hch|exact I]. }
  fold ep file in Hsnap, Ho. cbn [fst snd].
  split; [reflexivity|]. split; [exact Hsnap|]. split; [|split].
  - unfold Store.read_json, Store.max_links.
    rewrite resolve_plain by (intros ?; now rewrite Hsnap).
    now rewrite Hsnap.
  - apply Ho; [now apply link_not_prefix|]. now apply link_not_snapshot.
  - intros q Hq.
    destruct (decide (q ∈ Store.prefixes ep)) as [Hq3|Hq3].
    + apply list_elem_of_In in Hq3. destruct Htr as (Hdirs & _).
      destruct (Hdirs q Hq3) as [E0|E0].
      * right. auto.
      * left. now rewrite E0, Hp.
    + left. apply Ho; auto. intros H. now apply Hq3, list_elem_of_In.
Qed.

(** Example: the first poll of Oslo is answered with a lone surrogate. *)
Lemma unwritable_document_raises_example :
  let r := Monitor.process_entity (lit "https://valgresultat.no/api")
             (fun _ => Some lone_surrogate) (at_ 2021 9 13 21 0) Monitor.Fylke
             (lit "fylke-03-oslo") (lit "2021") ∅ in
  snd r = None /\
  fst r !! (oslo_fylke ++ [lit "2021-09-13__2100.json"])
  = Some Store.Broken /\
  fst r !! Monitor.latest_link oslo_fylke = None.
Proof.
  destruct (unwritable_document_raises (lit "https://valgresultat.no/api")
              (fun _ => Some lone_surrogate) (at_ 2021 9 13 21 0) Monitor.Fylke
              (lit "fylke-03-oslo") (lit "2021") (lit "/2021/st/03")
              lone_surrogate ∅) as (H1 & H2 & _ & H3 & _).
  - vm_compute. reflexivity.
  - reflexivity.
  - reflexivity.
  - reflexivity.
  - apply tracked_empty.
  - intros previous H. vm_compute in H. discriminate H.
  - split; [exact H1|]. split; [exact H2|]. exact H3.
Defined.

(** ** Snapshot names and listings *)
Section NameFacts.
Import Py Datetime Store.

Lemma number_app (l1 l2 : str) : forall acc,
  number acc (l1 ++ l2) = match number acc l1 with
                          | Some a => number a l2
                          | None => None
                          end.
Proof.
  induction l1 as [|c l1 IH]; intros acc; cbn [app number]; [reflexivity|].
  destruct ((48 <=? c)%N && (c <=? 57)%N); [apply IH|reflexivity].
Qed.

(** A number written with [digits] reads back. *)
Lemma number_digits (w : nat) : forall (n : N) (acc : Z),
  (n < 10 ^ N.of_nat w)%N ->
  number acc (digits w n) = Some (acc * 10 ^ Z.of_nat w + Z.of_N n)%Z.
Proof.
  induction w as [|w IH]; intros n acc Hn.
  - cbn in Hn. assert (n = 0%N) as -> by lia. cbn. f_equal. lia.
  - rewrite Nat2N.inj_succ, N.pow_succ_r' in Hn.
    cbn [digits]. rewrite number_app, IH
      by (apply N.Div0.div_lt_upper_bound; assumption).
    cbn [number].
    pose proof (N.mod_lt n 10 ltac:(discriminate)) as Hm.
    assert ((48 <=? 48 + n mod 10)%N && (48 + n mod 10 <=? 57)%N = true) as ->.
    { clear -Hm. revert Hm. generalize (n mod 10)%N. intros r Hr.
      apply andb_true_intro. split; apply N.leb_le; lia. }
    f_equal. rewrite Nat2Z.inj_succ, Z.pow_succ_r by lia.
    replace (48 + n mod 10 - 48)%N with (n mod 10)%N
      by (clear; generalize (n mod 10)%N; intros; lia).
    rewrite N2Z.inj_div, N2Z.inj_mod. change (Z.of_N 10) with 10%Z.
    pose proof (Z.div_mod (Z.of_N n) 10 ltac:(discriminate)) as Hdm.
    revert Hdm.
    generalize (Z.of_N n / 10)%Z (Z.of_N n mod 10)%Z (10 ^ Z.of_nat w)%Z.
    intros q r P Hdm. lia.
Qed.

Lemma digits_length (w : nat) : forall n, length (digits w n) = w.
Proof.
  induction w as [|w IH]; intros n; cbn [digits]; [reflexivity|].
  rewrite length_app, IH. cbn. lia.
Qed.

Lemma strftime_length (d : datetime) : length (strftime d) = 16%nat.
Proof.
  unfold strftime. rewrite !length_app, !digits_length. reflexivity.
Qed.

Lemma startswith_self (p s : str) : startswith p (p ++ s) = true.
Proof.
  induction p as [|c p IH]; [reflexivity|].
  cbn [app startswith]. now rewrite N.eqb_refl.
Qed.

(** The stem of a file that [_save_snapshot] names. *)
Lemma stem_snapshot (ep : path) (d : datetime) :
  stem (ep ++ [strftime d ++ lit ".json"]) = strftime d.
Proof.
  unfold stem. rewrite name_snoc. unfold endswith.
  rewrite rev_app_distr, startswith_self. cbn [andb].
  rewrite length_app, strftime_length.
  change (5 <? 16 + length (lit ".json")) with true. cbn iota.
  change (16 + length (lit ".json") - 5)%nat with 16%nat.
  rewrite <- (strftime_length d). rewrite firstn_app, firstn_all.
  rewrite Nat.sub_diag. cbn [firstn]. apply app_nil_r.
Qed.

Lemma strptime_fixed_fields (y1 y2 y3 y4 m1 m2 d1 d2 h1 h2 n1 n2 : N) :
  strptime_fixed [y1; y2; y3; y4; 45; m1; m2; 45; d1; d2; 95; 95; h1; h2; n1; n2]%N
  = match number 0 [y1; y2; y3; y4], number 0 [m1; m2], number 0 [d1; d2],
          number 0 [h1; h2], number 0 [n1; n2] with
    | Some y, Some m, Some d, Some h, Some n =>
        if ((1 <=? y) && (1 <=? m) && (m <=? 12) && (1 <=? d)
            && (d <=? days_in_month y m) && (h <=? 23) && (n <=? 59))%Z
        then Some {| dt_year := y; dt_month := m; dt_day := d; dt_hour := h;
                     dt_minute := n; dt_second := 0; dt_microsecond := 0 |}
        else None
    | _, _, _, _, _ => None
    end.
Proof. reflexivity. Qed.

Lemma digits_4 (n : N) : exists a b c d, digits 4 n = [a; b; c; d].
Proof. cbn. eauto. Qed.

Lemma digits_2 (n : N) : exists a b, digits 2 n = [a; b].
Proof. cbn. eauto. Qed.

Lemma strptime_strftime (d : datetime) :
  full_width d -> (dt_day d <= days_in_month (dt_year d) (dt_month d))%Z ->
  strptime_fixed (strftime d)
  = Some {| dt_year := dt_year d; dt_month := dt_month d; dt_day := dt_day d;
            dt_hour := dt_hour d; dt_minute := dt_minute d;
            dt_second := 0; dt_microsecond := 0 |}.
Proof.
  intros (Hy & Hm & Hd & Hh & Hn) Hday. unfold strftime.
  destruct (digits_4 (Z.to_N (dt_year d))) as (y1 & y2 & y3 & y4 & Ey).
  destruct (digits_2 (Z.to_N (dt_month d))) as (m1 & m2 & Em).
  destruct (digits_2 (Z.to_N (dt_day d))) as (d1 & d2 & Ed).
  destruct (digits_2 (Z.to_N (dt_hour d))) as (h1 & h2 & Eh).
  destruct (digits_2 (Z.to_N (dt_minute d))) as (n1 & n2 & En).
  rewrite Ey, Em, Ed, Eh, En.
  change ([y1; y2; y3; y4] ++ lit "-" ++ [m1; m2] ++ lit "-" ++ [d1; d2]
          ++ lit "__" ++ [h1; h2] ++ [n1; n2])
    with [y1; y2; y3; y4; 45; m1; m2; 45; d1; d2; 95; 95; h1; h2; n1; n2]%N.
  rewrite strptime_fixed_fields, <- Ey, <- Em, <- Ed, <- Eh, <- En.
  rewrite !number_digits by (cbn; lia).
  rewrite !Z2N.id by lia. rewrite !Z.mul_0_l, !Z.add_0_l.
  assert (((1 <=? dt_year d) && (1 <=? dt_month d) && (dt_month d <=? 12)
           && (1 <=? dt_day d)
           && (dt_day d <=? days_in_month (dt_year d) (dt_month d))
           && (dt_hour d <=? 23) && (dt_minute d <=? 59))%Z = true) as ->.
  { rewrite !andb_true_iff, !Z.leb_le. lia. }
  reflexivity.
Qed.

End NameFacts.

(** X20.  The retention manager can read every name that the monitor
    writes: the stem of the snapshot file of a valid time with a year of
    four digits parses back, with the same format, to that time cut to the
    minute. *)
Theorem snapshot_names_parse_back (entity_path : path) (now : datetime) :
  Datetime.full_width now ->
  (Datetime.dt_day now
   <= Datetime.days_in_month (Datetime.dt_year now) (Datetime.dt_month now))%Z ->
  Datetime.strptime_fixed
    (Store.stem (entity_path ++ [Datetime.strftime now ++ lit ".json"]))
  = Some {| Datetime.dt_year := Datetime.dt_year now;
            Datetime.dt_month := Datetime.dt_month now;
            Datetime.dt_day := Datetime.dt_day now;
            Datetime.dt_hour := Datetime.dt_hour now;
            Datetime.dt_minute := Datetime.dt_minute now;
            Datetime.dt_second := 0; Datetime.dt_microsecond := 0 |}.
Proof.
  intros Hw Hd. rewrite stem_snapshot. now apply strptime_strftime.
Qed.

Lemma snapshot_names_parse_back_example :
  Datetime.strptime_fixed
    (Store.stem (oslo_fylke ++ [lit "2021-09-13__2100.json"]))
  = Some (at_ 2021 9 13 21 0).
Proof.
  apply (snapshot_names_parse_back oslo_fylke (at_ 2021 9 13 21 0)).
  - unfold Datetime.full_width. cbn. lia.
  - vm_compute. discriminate.
Defined.

Section ListingFacts.
Import Store Cleanup.

Lemma is_dir_exists (s : store) (p : path) : is_dir s p = true -> exists_ s p = true.
Proof.
  unfold is_dir, exists_. destruct (resolve max_links s p) as [q|]; [|easy].
  destruct (s !! q) as [[]|]; try discriminate.
  intros _. apply bool_decide_eq_true. eauto.
Qed.

Lemma get_snapshots_sorted (s : store) (dir : path) :
  StronglySorted (Py.key_le name) (get_snapshots s dir).
Proof.
  unfold get_snapshots. destruct (negb _); [constructor|apply sorted_ordered].
Qed.

End ListingFacts.

(** X21.  [get_snapshots] lists the entries of the entity directory
    whose name ends in [.json], except one named after the directory itself,
    each once and in ascending order of name; it lists nothing when the
    directory is missing. *)
Theorem get_snapshots_listing (s : Store.store) (entity_path : path) :
  let snapshots := Cleanup.get_snapshots s entity_path in
  (forall q, In q snapshots <->
     Store.is_dir s entity_path = true /\
     exists x, q = entity_path ++ [x] /\ is_Some (s !! q) /\
               Py.endswith (lit ".json") x = true /\
               x <> Store.name entity_path ++ lit ".json") /\
  List.NoDup snapshots /\
  StronglySorted (fun p q => Py.leb (Store.name p) (Store.name q) = true)
    snapshots /\
  (Store.exists_ s entity_path = false -> snapshots = []).
Proof.
  cbn zeta. split; [|split; [|split]].
  - intros q. rewrite get_snapshots_iff. split.
    + intros (_ & Hd & Hs & Hne & Hp & He & Hn). split; [exact Hd|].
      apply parent_inv in Hp as [x ->]; [|exact Hne].
      rewrite name_snoc in He, Hn. eauto.
    + intros (Hd & x & -> & Hs & He & Hn).
      rewrite name_snoc, parent_snoc.
      repeat split; auto using is_dir_exists. now destruct entity_path.
  - apply get_snapshots_NoDup.
  - apply get_snapshots_sorted.
  - intros H. unfold Cleanup.get_snapshots. now rewrite H.
Qed.

(** ** What the sweep removes *)
Section ReachFacts.
Import Datetime Store Cleanup.
Import Monitor(tier, Nasjonalt, Fylke, Kommune, Krets).
Variable clock : nat -> datetime.
Variable strptime : str -> option datetime.
Variable isdigit : str -> bool.

(** What [cleanup_entity] removes is named as a snapshot of its
    directory. *)
Lemma cleanup_entity_touches_snapshots (d : path) (t : tier) :
  touches_only (snapshot_of d) (cleanup_entity clock strptime d t).
Proof.
  intros w p.
  destruct (cleanup_entity_touches clock strptime d t w p) as [E|[H Hn]];
    [now left|].
  right. split; [|exact Hn].
  apply In_but_last, get_snapshots_iff in H.
  unfold snapshot_of. tauto.
Qed.

Section Lift.
(** A bound on what [cleanup_entity] removes carries over to the loops
    around it. *)
Variable Q : path -> path -> Prop.
Hypothesis HQ : forall d t, touches_only (Q d) (cleanup_entity clock strptime d t).

Lemma cleanup_dirs_lift (dir : path) (prefix : str) (t : tier) :
  touches_only (fun p => exists x, Q (dir ++ [x]) p)
    (cleanup_dirs clock strptime dir prefix t).
Proof.
  intros w p.
  set (found := glob (files w) dir (Py.startswith prefix)).
  set (body := fun d : path =>
    isd ← Cleanup.observe (fun s => is_dir s d);
    if isd : bool then cleanup_entity clock strptime d t else mret tt).
  assert (H : touches_only (fun p => exists x, Q (dir ++ [x]) p)
                (for_ found body)).
  { apply touches_for. intros d Hd. apply glob_In in Hd as (_ & Hne & Hpar).
    apply parent_inv in Hpar as [x ->]; [|exact Hne].
    apply touches_bind; [apply touches_observe|].
    intros [|]; [|apply touches_ret].
    eapply touches_weaken; [|apply HQ]. cbn beta. eauto. }
  exact (H w p).
Qed.

Lemma cleanup_year_lift (year : str) :
  touches_only (fun p => exists d, entity_dirs year d /\ Q d p)
    (cleanup_year clock strptime year).
Proof.
  intros w p.
  set (rest :=
    cleanup_entity clock strptime [year; lit "nasjonalt"; lit "norge"] Nasjonalt ;;
    cleanup_dirs clock strptime [year; lit "fylke"] (lit "fylke-") Fylke ;;
    cleanup_dirs clock strptime [year; lit "kommune"] (lit "kommune-") Kommune ;;
    cleanup_dirs clock strptime [year; lit "kommune"; lit "krets"] (lit "krets-")
      Krets).
  assert (H : touches_only (fun p => exists d, entity_dirs year d /\ Q d p) rest).
  { unfold rest, entity_dirs. repeat (apply touches_bind; [|intros _]).
    - eapply touches_weaken; [|apply HQ]. cbn beta. eauto.
    - eapply touches_weaken; [|apply cleanup_dirs_lift].
      cbn beta. intros q (x & Hx). eexists. split; [|exact Hx]. right. eauto.
    - eapply touches_weaken; [|apply cleanup_dirs_lift].
      cbn beta. intros q (x & Hx). eexists. split; [|exact Hx]. right. eauto.
    - eapply touches_weaken; [|apply cleanup_dirs_lift].
      cbn beta. intros q (x & Hx). eexists. split; [|exact Hx]. right. eauto. }
  change (cleanup_year clock strptime year w)
    with ((if exists_ (files w) [year] then rest else mret tt) w).
  destruct (exists_ (files w) [year]); [exact (H w p)|now left].
Qed.

Lemma run_lift :
  touches_only (fun p => exists year d, isdigit year = true /\
                                        entity_dirs year d /\ Q d p)
    (run clock strptime isdigit).
Proof.
  intros w p.
  set (found := glob (files w) [] (fun _ => true)).
  set (body := fun year_dir : path =>
    isd ← observe (fun s => is_dir s year_dir);
    if (isd : bool) && isdigit (name year_dir)
    then cleanup_year clock strptime (name year_dir)
    else mret tt).
  assert (H : touches_only (fun p => exists year d, isdigit year = true /\
                                       entity_dirs year d /\ Q d p)
                (for_ found body)).
  { apply touches_for. intros d _.
    apply touches_bind; [apply touches_observe|]. intros isd.
    destruct (isd && isdigit (name d)) eqn:E; [|apply touches_ret].
    apply andb_true_iff in E as [_ E].
    eapply touches_weaken; [|apply cleanup_year_lift].
    cbn beta. intros q (d' & Hd' & Hq). eauto. }
  exact (H w p).
Qed.

End Lift.

Section Keeps.
(** A property of the store that no [unlink] breaks is kept by the whole
    sweep. *)
Variable I : store -> Prop.
Hypothesis Hremove : forall q, preserves I (remove q).











End Keeps.


(** The loop of [cleanup_entity] in an election month, over snapshots that
    are files or links. *)
Lemma prune_active (t : tier) (n : Z) (l : list path) :
  retention_periods true t = Days n ->
  forall w : world,
  List.NoDup l ->
  (forall p, In p l -> is_Some (files w !! p) /\ files w !! p <> Some Dir) ->
  exists w' : world,
    prune clock strptime t true l w = (w', Some tt) /\
    (forall p, ~ In p l -> files w' !! p = files w !! p) /\
    (forall p, In p l ->
       (strptime (stem p) = None -> files w' !! p = files w !! p) /\
       (forall ts, strptime (stem p) = Some ts ->
          ((forall k, within_days (clock k) n ts = true) ->
           files w' !! p = files w !! p) /\
          ((forall k, within_days (clock k) n ts = false) ->
           files w' !! p = None))).
Proof.
  intros Hdays. induction l as [|x l IH]; intros w Hnd Hl.
  - exists w. split; [reflexivity|]. split; [auto|]. intros p [].
  - inversion Hnd as [|? ? Hx Hnd']; subst.
    assert (Hstep : exists w1 : world,
              (keep ← should_retain_snapshot clock strptime x t true;
               if keep : bool then mret tt else remove x) w = (w1, Some tt) /\
              (forall p, p <> x -> files w1 !! p = files w !! p) /\
              (strptime (stem x) = None -> files w1 !! x = files w !! x) /\
              (forall ts, strptime (stem x) = Some ts ->
                 ((forall k, within_days (clock k) n ts = true) ->
                  files w1 !! x = files w !! x) /\
                 ((forall k, within_days (clock k) n ts = false) ->
                  files w1 !! x = None))).
    { unfold should_retain_snapshot. rewrite Hdays.
      destruct (strptime (stem x)) as [ts|] eqn:Ets.
      - unfold mbind, io_bind, now, mret, io_ret. cbn [files ticks].
        destruct (within_days (clock (ticks w)) n ts) eqn:Ew.
        + eexists. split; [reflexivity|]. cbn [files]. split; [auto|].
          split; [discriminate|]. intros ts' [= <-]. split; [auto|].
          intros H. rewrite H in Ew. discriminate Ew.
        + unfold remove, unlink. cbn [files ticks].
          destruct (Hl x (or_introl eq_refl)) as [[v Hv] Hnd0].
          rewrite Hv. destruct v as [doc| |target|]; [| | |congruence].
          all: eexists; (split; [reflexivity|]); cbn [files];
            (split; [intros p Hp; now rewrite lookup_delete_ne|]);
            (split; [discriminate|]); intros ts' [= <-];
            (split; [intros H; rewrite H in Ew; discriminate Ew|]);
            intros _; apply lookup_delete_eq.
      - exists w. split; [reflexivity|]. split; [auto|]. split; [auto|].
        discriminate. }
    destruct Hstep as (w1 & E1 & Ho1 & Hn1 & Hs1).
    destruct (IH w1 Hnd') as (w' & E' & Ho' & Hin').
    { intros p Hp. rewrite Ho1 by (intros ->; contradiction).
      apply Hl. now right. }
    exists w'. split.
    { unfold prune in *. cbn [for_]. unfold mbind at 1, io_bind at 1.
      now rewrite E1. }
    split.
    + intros p Hp. rewrite Ho'; [apply Ho1|]; intros H; apply Hp;
        [now left; subst|now right].
    + intros p [<-|Hp].
      * rewrite (Ho' x Hx). split; [exact Hn1|exact Hs1].
      * assert (Hpx : p <> x) by (intros ->; contradiction).
        rewrite <- (Ho1 p Hpx). now apply Hin'.
Qed.

End ReachFacts.

Section SweepUse.
Import Datetime Store Cleanup Monitor.

(** The snapshot that sorts last is the last of the listing. *)
Lemma last_item_greatest (s : store) (dir p : path) :
  In p (get_snapshots s dir) ->
  (forall q, In q (get_snapshots s dir) -> Py.leb (name q) (name p) = true) ->
  Py.last_item (get_snapshots s dir) = Some p.
Proof.
  intros Hp Hmax.
  destruct (Py.last_item (get_snapshots s dir)) as [z|] eqn:Hz.
  - f_equal. pose proof (last_item_In _ _ Hz) as Hzin.
    pose proof (get_snapshots_latest_last s dir z p Hz Hp) as Hpz.
    pose proof (Hmax z Hzin) as Hzp.
    apply get_snapshots_In in Hp as (_ & Hpne & Hpp).
    apply get_snapshots_In in Hzin as (_ & Hzne & Hzp').
    apply same_parent_name; auto; [congruence|].
    now apply leb_antisym.
  - exfalso. unfold Py.last_item in Hz.
    destruct (get_snapshots s dir) as [|y l]; [destruct Hp|].
    destruct (rev (y :: l)) eqn:E; [|discriminate].
    apply (f_equal (@length _)) in E. rewrite length_rev in E. discriminate E.
Qed.

Lemma endswith_json (x : str) : Py.endswith (lit ".json") (x ++ lit ".json") = true.
Proof.
  unfold Py.endswith. rewrite rev_app_distr.
  generalize (rev (lit ".json")). intros p.
  induction p as [|c p IH]; [reflexivity|].
  cbn [app Py.startswith]. now rewrite N.eqb_refl.
Qed.

End SweepUse.

(** X22.  In an election month [cleanup_entity] goes through without an
    error, provided that no directory is named like a snapshot.  It keeps
    the last snapshot, every snapshot whose name is no time stamp and every
    snapshot within the retention period of the tier; it removes every other
    snapshot that is older than the period. *)
Theorem cleanup_entity_in_election_month (clock : nat -> datetime)
  (strptime : str -> option datetime) (entity_path : path) (t : tier) (n : Z)
  (w : Cleanup.world) :
  let snapshots := Cleanup.get_snapshots (Cleanup.files w) entity_path in
  Cleanup.is_election_active (clock (Cleanup.ticks w)) = true ->
  Cleanup.retention_periods true t = Cleanup.Days n ->
  (forall p, In p snapshots -> Cleanup.files w !! p <> Some Store.Dir) ->
  let r := Cleanup.cleanup_entity clock strptime entity_path t w in
  snd r = Some tt /\
  forall p, In p snapshots ->
    (Py.last_item snapshots = Some p ->
     Cleanup.files (fst r) !! p = Cleanup.files w !! p) /\
    (strptime (Store.stem p) = None ->
     Cleanup.files (fst r) !! p = Cleanup.files w !! p) /\
    (forall ts, strptime (Store.stem p) = Some ts ->
       ((forall k, Datetime.within_days (clock k) n ts = true) ->
        Cleanup.files (fst r) !! p = Cleanup.files w !! p) /\
       (Py.last_item snapshots <> Some p ->
        (forall k, Datetime.within_days (clock k) n ts = false) ->
        Cleanup.files (fst r) !! p = None)).
Proof.
  intros snapshots Hactive Hdays Hfiles. cbn zeta.
  rewrite cleanup_entity_unfold. fold snapshots.
  destruct (Py.last_item snapshots) as [latest|] eqn:Hlast.
  2:{ split; [reflexivity|]. intros p Hp. exfalso.
      unfold Py.last_item in Hlast.
      destruct snapshots as [|y l]; [destruct Hp|].
      destruct (rev (y :: l)) eqn:E; [|discriminate].
      apply (f_equal (@length _)) in E. rewrite length_rev in E.
      discriminate E. }
  pose proof (last_item_snoc _ _ Hlast) as Esn.
  pose proof (get_snapshots_NoDup (Cleanup.files w) entity_path) as Hnd.
  fold snapshots in Hnd. rewrite Esn in Hnd.
  assert (Hnl : ~ In latest (Py.but_last snapshots)).
  { apply NoDup_remove_2 in Hnd. now rewrite app_nil_r in Hnd. }
  apply NoDup_remove_1 in Hnd. rewrite app_nil_r in Hnd.
  unfold mbind, Store.io_bind, Cleanup.now. rewrite Hactive.
  set (w0 := {| Cleanup.files := Cleanup.files w;
                Cleanup.ticks := S (Cleanup.ticks w) |}).
  destruct (prune_active clock strptime t n (Py.but_last snapshots) Hdays w0 Hnd)
    as (w' & -> & Hout & Hin).
  { intros p Hp. apply In_but_last in Hp. split.
    - now apply (get_snapshots_In (Cleanup.files w) entity_path).
    - now apply Hfiles. }
  cbn [fst snd]. split; [reflexivity|]. intros p Hp.
  rewrite Esn in Hp. apply in_app_or in Hp as [Hp|[<-|[]]].
  - destruct (Hin p Hp) as [Hnone Hsome]. split; [|split; [exact Hnone|]].
    + intros [= ->]. contradiction.
    + intros ts Hts. destruct (Hsome ts Hts) as [Hk Hr]. split; [exact Hk|].
      intros _. exact Hr.
  - pose proof (Hout latest Hnl) as E. cbn [Cleanup.files] in E.
    split; [auto|]. split; [auto|]. intros ts Hts. split; [auto|].
    intros H. now destruct H.
Qed.

(** Example: in September 2025 the snapshot of 21:00 of the municipality is
    removed and the last one, of 21:40, is kept. *)
Lemma cleanup_entity_in_election_month_example :
  let w := {| Cleanup.files := store_2021; Cleanup.ticks := 0 |} in
  let r := Cleanup.cleanup_entity (fun _ => at_ 2025 9 20 4 0)
             Datetime.strptime_fixed oslo_kommune Monitor.Kommune w in
  snd r = Some tt /\
  Cleanup.files (fst r) !! (oslo_kommune ++ [lit "2021-09-13__2100.json"])
  = None /\
  Cleanup.files (fst r) !! (oslo_kommune ++ [lit "2021-09-13__2140.json"])
  = Some (Store.File (votes 50)).
Proof.
  intros w.
  pose proof (cleanup_entity_in_election_month (fun _ => at_ 2025 9 20 4 0)
                Datetime.strptime_fixed oslo_kommune Monitor.Kommune 90 w) as H.
  cbv zeta in H. destruct H as [H1 H2].
  - reflexivity.
  - reflexivity.
  - intros p Hp. vm_compute in Hp.
    destruct Hp as [<-|[<-|[<-|[<-|[<-|[]]]]]]; vm_compute; discriminate.
  - split; [exact H1|]. split.
    + destruct (H2 (oslo_kommune ++ [lit "2021-09-13__2100.json"]))
        as (_ & _ & H3); [vm_compute; now left|].
      destruct (H3 (at_ 2021 9 13 21 0)) as [_ H4]; [vm_compute; reflexivity|].
      apply H4; [vm_compute; discriminate|]. intros k. vm_compute. reflexivity.
    + destruct (H2 (oslo_kommune ++ [lit "2021-09-13__2140.json"]))
        as (H3 & _); [vm_compute; do 4 right; now left|].
      etransitivity; [apply H3; vm_compute; reflexivity|].
      vm_compute. reflexivity.
Defined.


(** X24.  The retention manager never breaks the pointer of the monitor:
    a series of polls as in C6 (documents that can be written as UTF-8,
    each a change, in minutes that are all different), none of them made in
    a later minute than the last, goes through without an error, and after a
    whole run of the retention manager with any clock the pointer still
    leads to the document of the last poll. *)
Theorem sweep_keeps_pointer_valid (clock : nat -> datetime)
  (strptime : str -> option datetime) (isdigit : str -> bool)
  (api_base_url : str) (t : tier) (entity_id year : str)
  (events : list (json * datetime)) (e : json * datetime) (s0 : Store.store)
  (ticks0 : nat) :
  let entity_path := Monitor.entity_path t entity_id year in
  is_Some (Monitor.entity_url t entity_id year) ->
  Monitor.fresh s0 entity_path ->
  Monitor.all_changes None (map fst events) ->
  forallb Json.encodable (map fst events) = true ->
  List.NoDup (map Monitor.file_name events) ->
  Py.last_item events = Some e ->
  (forall e', In e' events ->
     Datetime.full_width (snd e') /\
     Datetime.compare_minutes (snd e') (snd e) <> Gt) ->
  let polled := Monitor.process_all api_base_url t entity_id year events s0 in
  let s := fst polled in
  let w' := fst (Cleanup.run clock strptime isdigit
                   {| Cleanup.files := s; Cleanup.ticks := ticks0 |}) in
  snd polled = Some tt /\
  Store.read_json s (Monitor.latest_link entity_path) = Some (fst e) /\
  Store.read_json (Cleanup.files w') (Monitor.latest_link entity_path)
  = Some (fst e).
Proof.
  intros ep Hurl Hfresh Hch Henc Hnd Hlast Htimes. cbn zeta.
  assert (Hne : ep <> []) by (unfold ep; destruct t; discriminate).
  destruct (process_all_saved api_base_url t entity_id year events s0 [] Hurl
              (fresh_saved _ _ Hfresh) Hch Henc Hnd) as (s & -> & Hsaved).
  cbn [fst snd app] in *. fold ep in Hsaved. split; [reflexivity|].
  pose proof Hsaved as (_ & Hmade & Hfiles & Hnone & Hlink).
  rewrite Hlast in Hlink.
  pose proof (last_item_In _ _ Hlast) as He.
  assert (Hevents : events <> []) by (intros ->; destruct He).
  set (p := ep ++ [Monitor.file_name e]).
  assert (Hp : s !! p = Some (Store.File (fst e))) by now apply Hfiles.
  set (w := {| Cleanup.files := s; Cleanup.ticks := ticks0 |}).
  set (w' := fst (Cleanup.run clock strptime isdigit w)).
  split; [now apply (tracked_link s ep (Monitor.file_name e))|].
  (* the pointer lies outside every entity directory *)
  assert (Hlink' : Cleanup.files w' !! Monitor.latest_link ep
                   = s !! Monitor.latest_link ep).
  { destruct (run_lift clock strptime isdigit Cleanup.snapshot_of
                (cleanup_entity_touches_snapshots clock strptime) w
                (Monitor.latest_link ep))
      as [E|[(y & d & _ & Hd & (_ & Hpar & _)) _]]; [exact E|].
    exfalso. unfold Monitor.latest_link in Hpar. rewrite parent_snoc in Hpar.
    unfold ep in Hpar.
    destruct Hd as [->|(x & [->|[->| ->]])]; destruct t; discriminate Hpar. }
  (* the newest snapshot is the last of the listing, or is not listed *)
  assert (Hp' : Cleanup.files w' !! p = s !! p).
  { destruct (decide (Monitor.file_name e = Store.name ep ++ lit ".json"))
      as [Hname|Hname].
    - destruct (run_lift clock strptime isdigit Cleanup.snapshot_of
                  (cleanup_entity_touches_snapshots clock strptime) w p)
        as [E|[(y & d & _ & _ & (_ & Hpar & _ & Hn)) _]]; [exact E|].
      exfalso. apply Hn. unfold p in *. rewrite parent_snoc in Hpar.
      rewrite name_snoc. now subst d.
    - assert (Hdir : s !! ep = Some Store.Dir)
        by (apply Hmade; [exact Hevents|apply self_is_prefix]).
      assert (Hin : In p (Cleanup.get_snapshots s ep)).
      { apply get_snapshots_iff.
        split; [now apply is_dir_exists, is_dir_Dir|].
        split; [now apply is_dir_Dir|].
        split; [rewrite Hp; eauto|].
        split; [unfold p; now destruct ep|].
        split; [apply parent_snoc|].
        unfold p. rewrite name_snoc.
        split; [apply endswith_json|exact Hname]. }
      assert (Hmax : forall q, In q (Cleanup.get_snapshots s ep) ->
                Py.leb (Store.name q) (Store.name p) = true).
      { intros q Hq. apply get_snapshots_In in Hq as ([v Hv] & Hqne & Hqp).
        apply parent_inv in Hqp as [x ->]; [|exact Hqne].
        destruct (List.in_dec (List.list_eq_dec N.eq_dec) x
                    (map Monitor.file_name events)) as [Hx|Hx];
          [|rewrite (Hnone x Hx) in Hv; discriminate].
        apply in_map_iff in Hx as (e' & <- & He').
        unfold p. rewrite !name_snoc. unfold Monitor.file_name, Py.leb.
        destruct (Htimes e' He') as [Hw' Hc'].
        destruct (Htimes e He) as [Hw _].
        rewrite strftime_compare by assumption.
        rewrite compare_refl.
        destruct (Datetime.compare_minutes (snd e') (snd e)); congruence. }
      pose proof (last_item_greatest s ep p Hin Hmax) as Hl.
      now apply (sweep_keeps_latest clock strptime isdigit ep w p year). }
  apply (tracked_link (Cleanup.files w') ep (Monitor.file_name e)); auto.
  - now rewrite Hlink'.
  - fold p. now rewrite Hp'.
Qed.

(** Example: election night, and a sweep four years later. *)
Lemma sweep_keeps_pointer_valid_example :
  let s := fst (Monitor.process_all (lit "https://valgresultat.no/api")
                  Monitor.Fylke (lit "fylke-03-oslo") (lit "2021")
                  election_night ∅) in
  let w' := fst (Cleanup.run (fun _ => at_ 2025 9 20 4 0)
                   Datetime.strptime_fixed Py.isdigit_ascii
                   {| Cleanup.files := s; Cleanup.ticks := 0 |}) in
  Store.read_json (Cleanup.files w') (Monitor.latest_link oslo_fylke)
  = Some (votes 50).
Proof.
  pose proof (sweep_keeps_pointer_valid (fun _ => at_ 2025 9 20 4 0)
                Datetime.strptime_fixed Py.isdigit_ascii
                (lit "https://valgresultat.no/api") Monitor.Fylke
                (lit "fylke-03-oslo") (lit "2021") election_night
                (votes 50, at_ 2021 9 13 21 40) ∅ 0) as H.
  cbv zeta in H. destruct H as (_ & _ & H).
  - vm_compute. eauto.
  - repeat split; intros; apply lookup_empty || (left; apply lookup_empty).
  - cbn. repeat split.
  - vm_compute. reflexivity.
  - apply NoDup_ListNoDup, (bool_decide_unpack _). vm_compute. reflexivity.
  - reflexivity.
  - intros e' He'. unfold election_night in He'. cbn [In] in He'.
    destruct He' as [<-|[<-|[<-|[<-|[<-|[]]]]]];
      (split; [unfold Datetime.full_width; cbn; lia|vm_compute; discriminate]).
  - exact H.
Defined.
